(** * Bubble-shooter physics engine: a shallow embedding of
      [core_engine/physics_engine.cpp] and the properties of its frame loop.

    The C++ [float] is IEEE-754 binary32.  Every finite binary32 number is an
    integer multiple of [2^-149] (the smallest subnormal), so a finite value
    is kept as a sign and a magnitude counted in that unit; arithmetic rounds
    the exact result to nearest, ties to even, one operation at a time (no
    fused multiply-add, no wider intermediate precision: WebAssembly, the
    target of the program, has neither).  The operations are checked against
    the standard library's [SpecFloat] on sample values.

    The file has the definitions first (floats, the classes of the program,
    the engine), then the facts about rounding and about the collision pass,
    then the properties of the engine, and last the same properties at
    concrete inputs. *)

From Stdlib Require Import ZArith Lia Bool List SpecFloat.
From stdpp Require Import base tactics option list.

Local Open Scope Z_scope.

(** ** IEEE-754 binary32 *)

Module F32.

(** Magnitudes are in units of [2^-149]; [Fin s k] is [(-1)^s * k * 2^-149]. *)
Inductive float32 : Set :=
| NaN : float32
| Inf : bool -> float32
| Fin : bool -> Z -> float32.

Definition unit_exp : Z := 149.
Definition scale : Z := 2 ^ unit_exp.
(** First magnitude that no longer fits: [2^128] in units of [2^-149]. *)
Definition overflow_threshold : Z := 2 ^ 277.

(** Exponent of the spacing between neighbouring floats at magnitude [k]:
    24 significant bits, spacing one unit up to [2^24]. *)
Definition ulp_exp (k : Z) : Z := Z.max 0 (Z.log2 k - 23).

Definition representable (k : Z) : Prop :=
  0 <= k /\ k mod 2 ^ ulp_exp k = 0.

Definition representableb (k : Z) : bool :=
  (0 <=? k) && (k mod 2 ^ ulp_exp k =? 0).

Definition wf (x : float32) : Prop :=
  match x with
  | Fin _ k => representable k /\ k < overflow_threshold
  | _ => True
  end.

Definition wfb (x : float32) : bool :=
  match x with
  | Fin _ k => representableb k && (k <? overflow_threshold)
  | _ => true
  end.

(** Round the non-negative rational [n/d] (in units) to nearest, ties to even. *)
Definition rne (n d : Z) : Z :=
  let j := ulp_exp (n / d) in
  let D := d * 2 ^ j in
  let q := n / D in
  let r := n mod D in
  let q' := if 2 * r <? D then q
            else if D <? 2 * r then q + 1
            else if Z.even q then q else q + 1 in
  q' * 2 ^ j.

Definition round (s : bool) (n d : Z) : float32 :=
  let k := rne n d in
  if overflow_threshold <=? k then Inf s else Fin s k.

(** Round the square root of the non-negative integer [n] (in units). *)
Definition rne_sqrt (n : Z) : Z :=
  let j := ulp_exp (Z.sqrt n) in
  let q := Z.sqrt (n / 4 ^ j) in
  let h := (2 * q + 1) * (2 * q + 1) * 4 ^ j in
  let q' := if 4 * n <? h then q
            else if h <? 4 * n then q + 1
            else if Z.even q then q else q + 1 in
  q' * 2 ^ j.

Definition signed (s : bool) (k : Z) : Z := if s then - k else k.

Definition fneg (x : float32) : float32 :=
  match x with
  | NaN => NaN
  | Inf s => Inf (negb s)
  | Fin s k => Fin (negb s) k
  end.

Definition fadd (x y : float32) : float32 :=
  match x, y with
  | NaN, _ | _, NaN => NaN
  | Inf s1, Inf s2 => if Bool.eqb s1 s2 then Inf s1 else NaN
  | Inf s, Fin _ _ | Fin _ _, Inf s => Inf s
  | Fin s1 k1, Fin s2 k2 =>
      let v := signed s1 k1 + signed s2 k2 in
      round (if v =? 0 then s1 && s2 else v <? 0) (Z.abs v) 1
  end.

Definition fsub (x y : float32) : float32 := fadd x (fneg y).

Definition fmul (x y : float32) : float32 :=
  match x, y with
  | NaN, _ | _, NaN => NaN
  | Inf s1, Inf s2 => Inf (xorb s1 s2)
  | Inf s1, Fin s2 k | Fin s1 k, Inf s2 =>
      if k =? 0 then NaN else Inf (xorb s1 s2)
  | Fin s1 k1, Fin s2 k2 => round (xorb s1 s2) (k1 * k2) scale
  end.

Definition fdiv (x y : float32) : float32 :=
  match x, y with
  | NaN, _ | _, NaN => NaN
  | Inf _, Inf _ => NaN
  | Inf s1, Fin s2 _ => Inf (xorb s1 s2)
  | Fin s1 _, Inf s2 => Fin (xorb s1 s2) 0
  | Fin s1 k1, Fin s2 k2 =>
      if k2 =? 0 then (if k1 =? 0 then NaN else Inf (xorb s1 s2))
      else round (xorb s1 s2) (k1 * scale) k2
  end.

Definition fsqrt (x : float32) : float32 :=
  match x with
  | NaN => NaN
  | Inf false => Inf false
  | Inf true => NaN
  | Fin s k =>
      if k =? 0 then Fin s 0
      else if s then NaN
      else Fin false (rne_sqrt (k * scale))
  end.

(** Conversion [static_cast<float>(n)] of an [int]. *)
Definition of_int (n : Z) : float32 := round (n <? 0) (Z.abs n * scale) 1.

(** The float nearest to the non-negative decimal literal [n/d]. *)
Definition lit (n d : Z) : float32 := round false (n * scale) d.

(** Position on the extended line; both zeros sit at 0. *)
Definition ord (x : float32) : Z :=
  match x with
  | NaN => 0
  | Inf s => signed s overflow_threshold
  | Fin s k => signed s k
  end.

Definition is_nan (x : float32) : bool :=
  match x with NaN => true | _ => false end.

Definition is_finite (x : float32) : bool :=
  match x with Fin _ _ => true | _ => false end.

(** The comparisons [<], [<=], [>] of C++: false as soon as one side is NaN. *)
Definition flt (x y : float32) : bool :=
  negb (is_nan x) && negb (is_nan y) && (ord x <? ord y).
Definition fle (x y : float32) : bool :=
  negb (is_nan x) && negb (is_nan y) && (ord x <=? ord y).
Definition fgt (x y : float32) : bool := flt y x.

(** Values that compare [>= 0]: both zeros, the positive finite numbers
    and plus infinity. *)
Definition nonneg (x : float32) : Prop :=
  match x with
  | NaN => False
  | Inf s => s = false
  | Fin s k => 0 <= k /\ (s = true -> k = 0)
  end.

(** *** Agreement with [SpecFloat] at precision 24, maximal exponent 128 *)

Definition to_spec (x : float32) : spec_float :=
  match x with
  | NaN => S754_nan
  | Inf s => S754_infinity s
  | Fin s k =>
      match k / 2 ^ ulp_exp k with
      | Zpos m => S754_finite s m (ulp_exp k - unit_exp)
      | _ => S754_zero s
      end
  end.

Definition samples : list float32 :=
  [ NaN; Inf false; Inf true; Fin false 0; Fin true 0;
    Fin false 1; Fin true 3; Fin false (2 ^ 23 - 1); Fin true (2 ^ 23);
    Fin false (2 ^ 24 - 1); Fin false (2 ^ 24); Fin true (12582913 * 2 ^ 5);
    of_int 1; of_int (-1); of_int 3; of_int 10; of_int 1000; of_int 16777217;
    of_int 2147483647; lit 1 10; lit 16 1000; lit 3 10; lit 1 3;
    Fin false (11184811 * 2 ^ 126); Fin true (16777215 * 2 ^ 253);
    Fin false (8388608 * 2 ^ 253); Fin false (16777215 * 2 ^ 100);
    Fin true (9437183 * 2 ^ 149); Fin false (13176795 * 2 ^ 127) ].

Definition agree2 (f : float32 -> float32 -> float32)
    (g : spec_float -> spec_float -> spec_float) : bool :=
  forallb (fun x => forallb (fun y =>
    match to_spec (f x y), g (to_spec x) (to_spec y) with
    | S754_nan, S754_nan => true
    | S754_zero a, S754_zero b | S754_infinity a, S754_infinity b => Bool.eqb a b
    | S754_finite a m e, S754_finite b m' e' =>
        Bool.eqb a b && Pos.eqb m m' && Z.eqb e e'
    | _, _ => false
    end) samples) samples.

Definition agree1 (f : float32 -> float32) (g : spec_float -> spec_float) : bool :=
  forallb (fun x =>
    match to_spec (f x), g (to_spec x) with
    | S754_nan, S754_nan => true
    | S754_zero a, S754_zero b | S754_infinity a, S754_infinity b => Bool.eqb a b
    | S754_finite a m e, S754_finite b m' e' =>
        Bool.eqb a b && Pos.eqb m m' && Z.eqb e e'
    | _, _ => false
    end) samples.

Definition agree_cmp (f : float32 -> float32 -> bool)
    (g : spec_float -> spec_float -> bool) : bool :=
  forallb (fun x => forallb (fun y =>
    Bool.eqb (f x y) (g (to_spec x) (to_spec y))) samples) samples.

End F32.

Export F32.

(** ** What the program takes from its platform

    [std::sin] and [std::cos] on [float], and the constant [RAND_MAX] of the
    C library, are not part of the repository. *)

Class Platform : Type := {
  sinf : float32 -> float32;
  cosf : float32 -> float32;
  RAND_MAX : Z
}.

(** [rand()] reads a global generator: the outputs still to come are a
    sequence, and the state is how far it has been read. *)
Record rand_state : Type := {
  rand_outputs : nat -> Z;
  rand_pos : nat
}.

Definition rand (g : rand_state) : Z * rand_state :=
  (rand_outputs g (rand_pos g),
   {| rand_outputs := rand_outputs g; rand_pos := S (rand_pos g) |}).

(** The generator after [k] more calls. *)
Definition rand_skip (k : nat) (g : rand_state) : rand_state :=
  {| rand_outputs := rand_outputs g; rand_pos := (k + rand_pos g)%nat |}.

(** [rand()] returns a value between 0 and [RAND_MAX]. *)
Definition rand_ok `{Platform} (g : rand_state) : Prop :=
  forall i, 0 <= rand_outputs g i <= RAND_MAX.

(** C++ [int]: 32 bits, two's complement as WebAssembly computes it. *)
Definition INT_MAX : Z := 2147483647.
Definition int_wrap (z : Z) : Z := (z + 2 ^ 31) mod 2 ^ 32 - 2 ^ 31.

(** [constexpr float PI = 3.14159265358979323846f] *)
Definition PI : float32 := lit 314159265358979323846 100000000000000000000.

(** ** [struct Vector2D] *)

Module Vector2D.

Record t : Type := mk { x : float32; y : float32 }.

(** [operator+], [operator-] and [operator*(float)] *)
Definition add (v other : t) : t :=
  mk (fadd (x v) (x other)) (fadd (y v) (y other)).
Definition sub (v other : t) : t :=
  mk (fsub (x v) (x other)) (fsub (y v) (y other)).
Definition mul (v : t) (scalar : float32) : t :=
  mk (fmul (x v) scalar) (fmul (y v) scalar).

(** [std::sqrt(x * x + y * y)] *)
Definition length (v : t) : float32 :=
  fsqrt (fadd (fmul (x v) (x v)) (fmul (y v) (y v))).

Definition distanceTo (v other : t) : float32 :=
  let dx := fsub (x v) (x other) in
  let dy := fsub (y v) (y other) in
  fsqrt (fadd (fmul dx dx) (fmul dy dy)).

(** [if (len > 0) return Vector2D(x / len, y / len); return Vector2D(0, 0);] *)
Definition normalized (v : t) : t :=
  let len := length v in
  if fgt len (of_int 0) then mk (fdiv (x v) len) (fdiv (y v) len)
  else mk (of_int 0) (of_int 0).

End Vector2D.

(** ** [class GameObject] *)

Module GameObject.

Record t : Type := mk {
  position : Vector2D.t;
  velocity : Vector2D.t;
  radius : float32;
  active : bool
}.

(** [GameObject(x, y, radius)]: velocity (0, 0), active. *)
Definition new (x y radius : float32) : t :=
  mk (Vector2D.mk x y) (Vector2D.mk (of_int 0) (of_int 0)) radius true.

Definition set_position (p : Vector2D.t) (o : t) : t :=
  mk p (velocity o) (radius o) (active o).
Definition set_velocity (v : Vector2D.t) (o : t) : t :=
  mk (position o) v (radius o) (active o).
Definition set_active (a : bool) (o : t) : t :=
  mk (position o) (velocity o) (radius o) a.

(** [position.x += velocity.x * deltaTime; position.y += velocity.y * deltaTime;] *)
Definition update (deltaTime : float32) (o : t) : t :=
  let o1 := set_position
              (Vector2D.mk
                 (fadd (Vector2D.x (position o)) (fmul (Vector2D.x (velocity o)) deltaTime))
                 (Vector2D.y (position o))) o in
  set_position
    (Vector2D.mk
       (Vector2D.x (position o1))
       (fadd (Vector2D.y (position o1)) (fmul (Vector2D.y (velocity o1)) deltaTime))) o1.

End GameObject.

(** ** [class Bubble : public GameObject] *)

Module Bubble.

Record t : Type := mk {
  base : GameObject.t;
  colorIndex : Z;
  speed : float32;
  isSpecial : bool
}.

Definition position (b : t) : Vector2D.t := GameObject.position (base b).
Definition velocity (b : t) : Vector2D.t := GameObject.velocity (base b).
Definition radius (b : t) : float32 := GameObject.radius (base b).
Definition active (b : t) : bool := GameObject.active (base b).

Definition with_base (f : GameObject.t -> GameObject.t) (b : t) : t :=
  mk (f (base b)) (colorIndex b) (speed b) (isSpecial b).
Definition set_velocity_x (v : float32) (b : t) : t :=
  with_base (fun o => GameObject.set_velocity (Vector2D.mk v (Vector2D.y (GameObject.velocity o))) o) b.
Definition set_velocity_y (v : float32) (b : t) : t :=
  with_base (fun o => GameObject.set_velocity (Vector2D.mk (Vector2D.x (GameObject.velocity o)) v) o) b.
Definition set_active (a : bool) (b : t) : t :=
  with_base (GameObject.set_active a) b.
Definition set_colorIndex (c : Z) (b : t) : t :=
  mk (base b) c (speed b) (isSpecial b).
Definition set_speed (s : float32) (b : t) : t :=
  mk (base b) (colorIndex b) s (isSpecial b).

(** [Bubble(x, y, radius, speed, colorIndex = 0)]; the body sets
    [velocity.y = speed]. *)
Definition new (x y radius speed : float32) (colorIndex : Z) : t :=
  set_velocity_y speed (mk (GameObject.new x y radius) colorIndex speed false).

(** [Bubble::update], statement by statement. *)
Definition update `{Platform} (deltaTime : float32) (b : t) : t :=
  (* velocity.y += 0.1f * deltaTime * speed; *)
  let b1 := set_velocity_y
              (fadd (Vector2D.y (velocity b))
                    (fmul (fmul (lit 1 10) deltaTime) (speed b))) b in
  (* velocity.x = std::sin(position.y * 0.01f) * 0.5f; *)
  let b2 := set_velocity_x
              (fmul (sinf (fmul (Vector2D.y (position b1)) (lit 1 100))) (lit 5 10)) b1 in
  (* GameObject::update(deltaTime); *)
  with_base (GameObject.update deltaTime) b2.

End Bubble.

(** ** [class Bullet : public GameObject] *)

Module Bullet.

Record t : Type := mk {
  base : GameObject.t;
  speed : float32;
  maxDistance : float32;
  distanceTraveled : float32
}.

Definition position (b : t) : Vector2D.t := GameObject.position (base b).
Definition velocity (b : t) : Vector2D.t := GameObject.velocity (base b).
Definition radius (b : t) : float32 := GameObject.radius (base b).
Definition active (b : t) : bool := GameObject.active (base b).

Definition with_base (f : GameObject.t -> GameObject.t) (b : t) : t :=
  mk (f (base b)) (speed b) (maxDistance b) (distanceTraveled b).
Definition set_active (a : bool) (b : t) : t :=
  with_base (GameObject.set_active a) b.
Definition set_distanceTraveled (d : float32) (b : t) : t :=
  mk (base b) (speed b) (maxDistance b) d.

(** [Bullet(x, y, angle, speed = 8.0f)]: radius 5, range 1000, nothing
    travelled yet; the body sets the velocity from the angle. *)
Definition new `{Platform} (x y angle speed : float32) : t :=
  let b := mk (GameObject.new x y (of_int 5)) speed (of_int 1000) (of_int 0) in
  let b1 := with_base (fun o => GameObject.set_velocity
              (Vector2D.mk (fmul (cosf angle) speed) (Vector2D.y (GameObject.velocity o))) o) b in
  with_base (fun o => GameObject.set_velocity
              (Vector2D.mk (Vector2D.x (GameObject.velocity o)) (fmul (fneg (sinf angle)) speed)) o) b1.

Definition default_speed : float32 := lit 8 1.

(** [std::sqrt(velocity.x * velocity.x + velocity.y * velocity.y)] *)
Definition velocity_norm (b : t) : float32 :=
  fsqrt (fadd (fmul (Vector2D.x (velocity b)) (Vector2D.x (velocity b)))
              (fmul (Vector2D.y (velocity b)) (Vector2D.y (velocity b)))).

(** [Bullet::update], statement by statement. *)
Definition update (deltaTime : float32) (b : t) : t :=
  (* GameObject::update(deltaTime); *)
  let b1 := with_base (GameObject.update deltaTime) b in
  (* distanceTraveled += std::sqrt(...) * deltaTime; *)
  let b2 := set_distanceTraveled
              (fadd (distanceTraveled b1) (fmul (velocity_norm b1) deltaTime)) b1 in
  (* if (distanceTraveled > maxDistance) active = false; *)
  if fgt (distanceTraveled b2) (maxDistance b2) then set_active false b2 else b2.

End Bullet.

(** ** [class PhysicsEngine] *)

Module PhysicsEngine.

Record t : Type := mk {
  bubbles : list Bubble.t;
  bullets : list Bullet.t;
  gameTime : float32;
  bubblesDestroyed : Z;
  speedMultiplier : float32
}.

(** A point of the trajectory array: an object with the keys [x] and [y]. *)
Record point : Type := mk_point { point_x : float32; point_y : float32 }.

(** [PhysicsEngine()] *)
Definition new : t := mk [] [] (of_int 0) 0 (lit 1 1).

Definition set_bubbles (bs : list Bubble.t) (e : t) : t :=
  mk bs (bullets e) (gameTime e) (bubblesDestroyed e) (speedMultiplier e).
Definition set_bullets (bl : list Bullet.t) (e : t) : t :=
  mk (bubbles e) bl (gameTime e) (bubblesDestroyed e) (speedMultiplier e).
Definition set_gameTime (g : float32) (e : t) : t :=
  mk (bubbles e) (bullets e) g (bubblesDestroyed e) (speedMultiplier e).
Definition set_bubblesDestroyed (n : Z) (e : t) : t :=
  mk (bubbles e) (bullets e) (gameTime e) n (speedMultiplier e).
Definition set_speedMultiplier (m : float32) (e : t) : t :=
  mk (bubbles e) (bullets e) (gameTime e) (bubblesDestroyed e) m.

(** [static_cast<float>(rand()) / RAND_MAX] *)
Definition rand_unit `{Platform} (r : Z) : float32 :=
  fdiv (of_int r) (of_int RAND_MAX).

(** One round of the loop of [initialize]: five calls of [rand()], in the
    order of the statements. *)
Definition spawn_one `{Platform} (canvasWidth : float32) (g : rand_state)
    : Bubble.t * rand_state :=
  let '(r1, g) := rand g in
  let radius := fadd (lit 12 1) (fmul (rand_unit r1) (lit 8 1)) in
  let '(r2, g) := rand g in
  let x := fadd radius
             (fmul (rand_unit r2) (fsub canvasWidth (fmul (of_int 2) radius))) in
  let '(r3, g) := rand g in
  let y := fsub (fneg radius) (fmul (rand_unit r3) (lit 100 1)) in
  let '(r4, g) := rand g in
  let speed := fadd (lit 1 1) (fmul (rand_unit r4) (lit 15 10)) in
  let '(r5, g) := rand g in
  let color := Z.rem r5 5 in
  (Bubble.new x y radius speed color, g).

(** [for (int i = 0; i < bubbleCount; ++i) { ...; bubbles.emplace_back(...); }]
    with [n] rounds left. *)
Fixpoint spawn_loop `{Platform} (canvasWidth : float32) (n : nat)
    (bs : list Bubble.t) (g : rand_state) : list Bubble.t * rand_state :=
  match n with
  | O => (bs, g)
  | S n' =>
      let '(b, g') := spawn_one canvasWidth g in
      spawn_loop canvasWidth n' (bs ++ [b]) g'
  end.

Definition initialize `{Platform} (bubbleCount : Z) (canvasWidth : float32)
    (e : t) (g : rand_state) : t * rand_state :=
  (* bubbles.clear(); bullets.clear(); *)
  let e1 := set_bullets [] (set_bubbles [] e) in
  let '(bs, g') := spawn_loop canvasWidth (Z.to_nat bubbleCount) (bubbles e1) g in
  (* gameTime = 0; bubblesDestroyed = 0; *)
  (set_bubblesDestroyed 0 (set_gameTime (of_int 0) (set_bubbles bs e1)), g').

Definition addBubble (x y radius speed : float32) (color : Z) (e : t) : t :=
  set_bubbles (bubbles e ++ [Bubble.new x y radius speed color]) e.

Definition shootBullet `{Platform} (x y angle : float32) (e : t) : t :=
  set_bullets (bullets e ++ [Bullet.new x y angle Bullet.default_speed]) e.

(** One particle of [createExplosion]: round [i] of [particleCount]. *)
Definition particle `{Platform} (x y radius : float32) (particleCount i : Z)
    (g : rand_state) : Bubble.t * rand_state :=
  let angle := fdiv (fmul (fmul (lit 2 1) PI) (of_int i)) (of_int particleCount) in
  let '(r, g') := rand g in
  let speed := fadd (lit 2 1) (fmul (rand_unit r) (lit 3 1)) in
  let particleRadius := fmul radius (lit 3 10) in
  let p := Bubble.new x y particleRadius speed 0 in
  let p := Bubble.set_velocity_x (fmul (cosf angle) speed) p in
  let p := Bubble.set_velocity_y (fmul (sinf angle) speed) p in
  let p := Bubble.set_colorIndex 4 p in
  (p, g').

(** [for (int i = 0; i < particleCount; ++i) { ...; bubbles.push_back(particle); }]
    from round [i], with [n] rounds left. *)
Fixpoint explosion_loop `{Platform} (x y radius : float32) (particleCount : Z)
    (n : nat) (i : Z) (bs : list Bubble.t) (g : rand_state)
    : list Bubble.t * rand_state :=
  match n with
  | O => (bs, g)
  | S n' =>
      let '(p, g') := particle x y radius particleCount i g in
      explosion_loop x y radius particleCount n' (i + 1) (bs ++ [p]) g'
  end.

Definition createExplosion `{Platform} (x y radius : float32)
    (bs : list Bubble.t) (g : rand_state) : list Bubble.t * rand_state :=
  let '(r, g') := rand g in
  let particleCount := 6 + Z.rem r 4 in
  explosion_loop x y radius particleCount (Z.to_nat particleCount) 0 bs g'.

(** What [createExplosion] appends, particle by particle: the first call of
    [rand()] fixes the count, each particle takes one more. *)
Definition explosion_particles `{Platform} (x y radius : float32) (g : rand_state)
    : list Bubble.t :=
  let c := 6 + Z.rem (fst (rand g)) 4 in
  map (fun k : nat => fst (particle x y radius c (Z.of_nat k) (rand_skip (S k) g)))
      (seq 0 (Z.to_nat c)).

(** The test of the collision pass:
    [std::sqrt(dx * dx + dy * dy) < bullet.radius + bubble.radius]. *)
Definition collides (bullet : Bullet.t) (bubble : Bubble.t) : bool :=
  let dx := fsub (Vector2D.x (Bullet.position bullet)) (Vector2D.x (Bubble.position bubble)) in
  let dy := fsub (Vector2D.y (Bullet.position bullet)) (Vector2D.y (Bubble.position bubble)) in
  let distance := fsqrt (fadd (fmul dx dx) (fmul dy dy)) in
  flt distance (fadd (Bullet.radius bullet) (Bubble.radius bubble)).

(** The inner loop up to its [break]: the index of the first active bubble
    the bullet overlaps, counting from [i]. *)
Fixpoint first_hit (bullet : Bullet.t) (bs : list Bubble.t) (i : nat)
    : option (nat * Bubble.t) :=
  match bs with
  | [] => None
  | b :: bs' =>
      if negb (Bubble.active b) then first_hit bullet bs' (S i)
      else if collides bullet b then Some (i, b)
      else first_hit bullet bs' (S i)
  end.

(** What the collision pass carries from bullet to bullet. *)
Record pass : Type := mk_pass {
  pass_bubbles : list Bubble.t;
  pass_destroyed : Z;
  pass_collisions : Z;
  pass_rand : rand_state
}.

(** The body of the outer loop for one bullet. *)
Definition collide_bullet `{Platform} (bullet : Bullet.t) (s : pass)
    : Bullet.t * pass :=
  if negb (Bullet.active bullet) then (bullet, s)
  else
    match first_hit bullet (pass_bubbles s) 0 with
    | None => (bullet, s)
    | Some (i, b) =>
        (* bullet.active = false; bubble.active = false; *)
        let bs1 := <[i := Bubble.set_active false b]> (pass_bubbles s) in
        (* createExplosion(bubble.position.x, bubble.position.y, bubble.radius); *)
        let '(bs2, g') :=
          createExplosion (Vector2D.x (Bubble.position b)) (Vector2D.y (Bubble.position b))
                          (Bubble.radius b) bs1 (pass_rand s) in
        (Bullet.set_active false bullet,
         mk_pass bs2 (int_wrap (pass_destroyed s + 1))
                 (int_wrap (pass_collisions s + 1)) g')
    end.

(** The outer loop, over the bullets in order. *)
Fixpoint collide_loop `{Platform} (bl : list Bullet.t) (s : pass)
    : list Bullet.t * pass :=
  match bl with
  | [] => ([], s)
  | bullet :: rest =>
      let '(bullet', s') := collide_bullet bullet s in
      let '(rest', s'') := collide_loop rest s' in
      (bullet' :: rest', s'')
  end.

(** The states the pass goes through: the one each bullet finds, in the
    order of the bullets, and at the end the one the last bullet leaves. *)
Fixpoint collide_trace `{Platform} (bl : list Bullet.t) (s : pass) : list pass :=
  match bl with
  | [] => [s]
  | bullet :: rest => s :: collide_trace rest (snd (collide_bullet bullet s))
  end.

(** [checkCollisions] returns the number of collisions of the pass. *)
Definition checkCollisions `{Platform} (e : t) (g : rand_state)
    : Z * t * rand_state :=
  let '(bl, s) := collide_loop (bullets e) (mk_pass (bubbles e) (bubblesDestroyed e) 0 g) in
  (pass_collisions s,
   set_bubblesDestroyed (pass_destroyed s) (set_bullets bl (set_bubbles (pass_bubbles s) e)),
   pass_rand s).

(** [erase(remove_if(..., !b.active), end())] on both vectors. *)
Definition cleanup (e : t) : t :=
  let e1 := set_bubbles (List.filter Bubble.active (bubbles e)) e in
  set_bullets (List.filter Bullet.active (bullets e1)) e1.

Definition update_bubble `{Platform} (deltaTime : float32) (b : Bubble.t) : Bubble.t :=
  if Bubble.active b then Bubble.update deltaTime b else b.

Definition update_bullet (deltaTime : float32) (b : Bullet.t) : Bullet.t :=
  if Bullet.active b then Bullet.update deltaTime b else b.

(** The first half of [update]: the clock and the two loops over the objects. *)
Definition advance `{Platform} (deltaTime : float32) (e : t) : t :=
  let e1 := set_gameTime (fadd (gameTime e) deltaTime) e in
  let e2 := set_bubbles (map (update_bubble deltaTime) (bubbles e1)) e1 in
  set_bullets (map (update_bullet deltaTime) (bullets e2)) e2.

Definition update `{Platform} (deltaTime : float32) (e : t) (g : rand_state)
    : t * rand_state :=
  let e1 := advance deltaTime e in
  let '(_, e2, g') := checkCollisions e1 g in
  (cleanup e2, g').

Definition setSpeedMultiplier (multiplier : float32) (e : t) : t :=
  let e1 := set_speedMultiplier multiplier e in
  set_bubbles
    (map (fun b =>
            let b1 := Bubble.set_speed (fmul (Bubble.speed b) multiplier) b in
            Bubble.set_velocity_y (Bubble.speed b1) b1)
         (bubbles e1)) e1.

(** [x += vx * 0.016f; y += vy * 0.016f;] after storing the point, [n] times. *)
Fixpoint trajectory_loop (vx vy : float32) (n : nat) (x y : float32) : list point :=
  match n with
  | O => []
  | S n' =>
      mk_point x y ::
      trajectory_loop vx vy n' (fadd x (fmul vx (lit 16 1000))) (fadd y (fmul vy (lit 16 1000)))
  end.

(** [predictTrajectory] is a member function: it is given the engine like the
    others and returns it with the result. *)
Definition predictTrajectory `{Platform} (startX startY angle speed : float32)
    (steps : Z) (e : t) (g : rand_state) : list point * t * rand_state :=
  let vx := fmul (cosf angle) speed in
  let vy := fmul (fneg (sinf angle)) speed in
  (trajectory_loop vx vy (Z.to_nat steps) startX startY, e, g).

(** Objects of a vector that are switched off. *)
Definition inactive_bubbles (bs : list Bubble.t) : nat :=
  length (List.filter (fun b => negb (Bubble.active b)) bs).
Definition inactive_bullets (bl : list Bullet.t) : nat :=
  length (List.filter (fun b => negb (Bullet.active b)) bl).

(** An object of the collision pass is left alone or switched off. *)
Definition bubble_kept_or_off (b b' : Bubble.t) : Prop :=
  b' = b \/ (Bubble.active b = true /\ b' = Bubble.set_active false b).
Definition bullet_kept_or_off (b b' : Bullet.t) : Prop :=
  b' = b \/ (Bullet.active b = true /\ b' = Bullet.set_active false b).

(** The bubble vector later in the pass: the old slots, each kept or
    switched off, followed by what explosions appended. *)
Definition evolves (bs bs' : list Bubble.t) : Prop :=
  (length bs <= length bs')%nat /\
  forall (j : nat) b, bs !! j = Some b ->
    exists b', bs' !! j = Some b' /\ bubble_kept_or_off b b'.

(** *** The queries: arrays of plain objects for the renderer *)

(** An element of [getBubbleData()]: the keys [x], [y], [radius], [color],
    [speed]. *)
Record bubble_data : Type := mk_bubble_data {
  bd_x : float32;
  bd_y : float32;
  bd_radius : float32;
  bd_color : Z;
  bd_speed : float32
}.

(** An element of [getBulletData()] and of [getBubblesAtBottom()]: the keys
    [x], [y], [radius]. *)
Record object_data : Type := mk_object_data {
  od_x : float32;
  od_y : float32;
  od_radius : float32
}.

(** The object [getStats()] returns. *)
Record stats : Type := mk_stats {
  bubblesCount : Z;
  bulletsCount : Z;
  stats_bubblesDestroyed : Z;
  stats_gameTime : float32
}.

Definition bubble_record (b : Bubble.t) : bubble_data :=
  mk_bubble_data (Vector2D.x (Bubble.position b)) (Vector2D.y (Bubble.position b))
    (Bubble.radius b) (Bubble.colorIndex b) (Bubble.speed b).

Definition bubble_object (b : Bubble.t) : object_data :=
  mk_object_data (Vector2D.x (Bubble.position b)) (Vector2D.y (Bubble.position b))
    (Bubble.radius b).

Definition bullet_object (b : Bullet.t) : object_data :=
  mk_object_data (Vector2D.x (Bullet.position b)) (Vector2D.y (Bullet.position b))
    (Bullet.radius b).

(** [for (const auto& bubble : bubbles) if (bubble.active) result.set(index++, ...)]:
    [index] is the length of [result], so every [set] appends. *)
Definition getBubbleData (e : t) : list bubble_data :=
  fold_left (fun result b =>
               if Bubble.active b then result ++ [bubble_record b] else result)
            (bubbles e) [].

Definition getBulletData (e : t) : list object_data :=
  fold_left (fun result b =>
               if Bullet.active b then result ++ [bullet_object b] else result)
            (bullets e) [].

(** [bubble.active && bubble.position.y > canvasHeight - 10] *)
Definition at_bottom (canvasHeight : float32) (b : Bubble.t) : bool :=
  Bubble.active b &&
  fgt (Vector2D.y (Bubble.position b)) (fsub canvasHeight (of_int 10)).

Definition getBubblesAtBottom (canvasHeight : float32) (e : t) : list object_data :=
  fold_left (fun result b =>
               if at_bottom canvasHeight b then result ++ [bubble_object b] else result)
            (bubbles e) [].

(** The loop of [hasBubbleReachedBottom], with its early [return true]. *)
Fixpoint reached_bottom_loop (canvasHeight : float32) (bs : list Bubble.t) : bool :=
  match bs with
  | [] => false
  | b :: rest =>
      if at_bottom canvasHeight b then true
      else reached_bottom_loop canvasHeight rest
  end.

Definition hasBubbleReachedBottom (canvasHeight : float32) (e : t) : bool :=
  reached_bottom_loop canvasHeight (bubbles e).

(** [(int)bubbles.size()]: the size of a vector converted to [int]. *)
Definition getStats (e : t) : stats :=
  mk_stats (int_wrap (Z.of_nat (length (bubbles e))))
           (int_wrap (Z.of_nat (length (bullets e))))
           (bubblesDestroyed e) (gameTime e).

(** A bullet after [n] calls of [Bullet::update] with the same frame time. *)
Definition flight (deltaTime : float32) (n : nat) (b : Bullet.t) : Bullet.t :=
  Nat.iter n (Bullet.update deltaTime) b.

Definition point_of (v : Vector2D.t) : point :=
  mk_point (Vector2D.x v) (Vector2D.y v).

(** All objects of both vectors are active, as [update] leaves them. *)
Definition all_active (e : t) : Prop :=
  Forall (fun b => Bubble.active b = true) (bubbles e) /\
  Forall (fun b => Bullet.active b = true) (bullets e).

(** The calls the host can make that change the engine (the bindings at the
    end of the file), each with its arguments. *)
Inductive command : Type :=
| Initialize (bubbleCount : Z) (canvasWidth : float32)
| Update (deltaTime : float32)
| AddBubble (x y radius speed : float32) (color : Z)
| ShootBullet (x y angle : float32)
| CheckCollisions
| SetSpeedMultiplier (multiplier : float32)
| PredictTrajectory (startX startY angle speed : float32) (steps : Z).

Definition run `{Platform} (c : command) (e : t) (g : rand_state) : t * rand_state :=
  match c with
  | Initialize n w => initialize n w e g
  | Update dt => update dt e g
  | AddBubble x y r s c => (addBubble x y r s c e, g)
  | ShootBullet x y a => (shootBullet x y a e, g)
  | CheckCollisions => let '(_, e', g') := checkCollisions e g in (e', g')
  | SetSpeedMultiplier m => (setSpeedMultiplier m e, g)
  | PredictTrajectory x y a s n => let '(_, e', g') := predictTrajectory x y a s n e g in (e', g')
  end.

Definition run_all `{Platform} (cs : list command) (e : t) (g : rand_state)
    : t * rand_state :=
  fold_left (fun st c => run c (fst st) (snd st)) cs (e, g).



(** With no bullet in the vector, no bubble is switched off. *)
Definition bubbles_safe (e : t) : Prop :=
  bullets e = [] -> Forall (fun b => Bubble.active b = true) (bubbles e).

(** Two engines that differ in the stored multiplier only. *)
Definition same_but_multiplier (e1 e2 : t) : Prop :=
  bubbles e1 = bubbles e2 /\ bullets e1 = bullets e2 /\
  gameTime e1 = gameTime e2 /\ bubblesDestroyed e1 = bubblesDestroyed e2.

(** A frame time the host may pass: a finite float that is not negative. *)
Definition frame_time_ok (deltaTime : float32) : Prop :=
  wf deltaTime /\ is_finite deltaTime = true /\ fle (of_int 0) deltaTime = true.



(** A bullet over several frames, as the loop of [update] treats it. *)
Definition frames (dts : list float32) (b : Bullet.t) : Bullet.t :=
  fold_left (fun b dt => update_bullet dt b) dts b.


(** What [initialize] promises of a bubble it spawns on a canvas of the
    given width (comparisons of floats, both ends included). *)
Definition spawned_in_range (canvasWidth : float32) (b : Bubble.t) : Prop :=
  let r := Bubble.radius b in
  fle (lit 12 1) r = true /\ fle r (lit 20 1) = true /\
  fle r (Vector2D.x (Bubble.position b)) = true /\
  fle (Vector2D.x (Bubble.position b))
      (fadd r (fsub canvasWidth (fmul (of_int 2) r))) = true /\
  fle (fsub (fneg r) (lit 100 1)) (Vector2D.y (Bubble.position b)) = true /\
  fle (Vector2D.y (Bubble.position b)) (fneg r) = true /\
  fle (lit 1 1) (Bubble.speed b) = true /\ fle (Bubble.speed b) (lit 25 10) = true /\
  0 <= Bubble.colorIndex b <= 4 /\
  Bubble.velocity b = Vector2D.mk (of_int 0) (Bubble.speed b) /\
  Bubble.active b = true.

(** What a bullet keeps from [shootBullet]: the radius and the range of the
    constructor, the default speed, and the velocity along its angle. *)
Definition bullet_as_fired `{Platform} (b : Bullet.t) : Prop :=
  Bullet.radius b = of_int 5 /\ Bullet.maxDistance b = of_int 1000 /\
  Bullet.speed b = Bullet.default_speed /\
  exists angle,
    Bullet.velocity b =
      Vector2D.mk (fmul (cosf angle) Bullet.default_speed)
                  (fmul (fneg (sinf angle)) Bullet.default_speed).

(** A bullet that is active with a position and a distance that are NaN,
    as a frame time that is NaN leaves it. *)
Definition bullet_lost (b : Bullet.t) : Prop :=
  Bullet.position b = Vector2D.mk NaN NaN /\
  Bullet.distanceTraveled b = NaN /\
  Bullet.active b = true.

(** The states a host can bring the engine to, from its construction. *)
Definition reachable `{Platform} (e : t) : Prop :=
  exists cs g, fst (run_all cs new g) = e.

End PhysicsEngine.

(** ** A platform to evaluate examples on

    Sine and cosine by their Taylor kernels in binary32 (accurate near zero,
    exact at zero), and the [RAND_MAX] of the C library the program is built
    against with Emscripten. *)

Definition kernel_sinf (x : float32) : float32 :=
  let x2 := fmul x x in
  fmul x (fsub (lit 1 1) (fmul (fdiv x2 (lit 6 1))
    (fsub (lit 1 1) (fmul (fdiv x2 (lit 20 1))
      (fsub (lit 1 1) (fdiv x2 (lit 42 1))))))).

Definition kernel_cosf (x : float32) : float32 :=
  let x2 := fmul x x in
  fsub (lit 1 1) (fmul (fdiv x2 (lit 2 1))
    (fsub (lit 1 1) (fmul (fdiv x2 (lit 12 1))
      (fsub (lit 1 1) (fdiv x2 (lit 30 1)))))).

Definition wasm_platform : Platform :=
  {| sinf := kernel_sinf; cosf := kernel_cosf; RAND_MAX := 2147483647 |}.

(** A generator that returns [r] at every call. *)
Definition constant_rand (r : Z) : rand_state :=
  {| rand_outputs := fun _ => r; rand_pos := 0 |}.

(** ** Concrete inputs *)

(** One bubble at (100, 100) of radius 10 and speed 1, and one bullet fired
    straight up from its centre. *)
Definition one_pair : PhysicsEngine.t :=
  PhysicsEngine.shootBullet (H := wasm_platform) (of_int 100) (of_int 100)
    (fdiv PI (of_int 2))
    (PhysicsEngine.addBubble (of_int 100) (of_int 100) (of_int 10) (of_int 1) 0
       PhysicsEngine.new).

(** The bullet of [one_pair] as [shootBullet] builds it. *)
Definition upward_bullet : Bullet.t :=
  Bullet.new (H := wasm_platform) (of_int 100) (of_int 100) (fdiv PI (of_int 2))
    Bullet.default_speed.

(** The same bubble alone, as the host builds it. *)
Definition one_bubble_commands : list PhysicsEngine.command :=
  [PhysicsEngine.AddBubble (of_int 100) (of_int 100) (of_int 10) (of_int 1) 0].

Definition one_bubble : PhysicsEngine.t :=
  fst (PhysicsEngine.run_all (H := wasm_platform) one_bubble_commands
         PhysicsEngine.new (constant_rand 7)).

(** A bullet fired to the right. *)
Definition level_bullet : Bullet.t :=
  Bullet.new (H := wasm_platform) (of_int 100) (of_int 100) (of_int 0)
    Bullet.default_speed.


(** The frame time [0.016f]. *)
Definition frame_016 : float32 := lit 16 1000.

(** The bullet and the bubble of [one_pair] after the object updates of one
    frame of [0.016f]. *)
Definition one_pair_bullet : Bullet.t :=
  Bullet.update frame_016
    (Bullet.new (H := wasm_platform) (of_int 100) (of_int 100) (fdiv PI (of_int 2))
       Bullet.default_speed).

(** The bubble of [one_pair] as [addBubble] builds it. *)
Definition still_bubble : Bubble.t :=
  Bubble.new (of_int 100) (of_int 100) (of_int 10) (of_int 1) 0.

Definition one_pair_bubble : Bubble.t :=
  Bubble.update (H := wasm_platform) frame_016
    (Bubble.new (of_int 100) (of_int 100) (of_int 10) (of_int 1) 0).
Module F32Facts.
Import F32.

(** *** Rounding to nearest: shape, optimality, monotonicity *)

Lemma ulp_exp_nonneg k : 0 <= ulp_exp k.
Proof. unfold ulp_exp. lia. Qed.

Lemma ulp_exp_small k : k < 2 ^ 24 -> ulp_exp k = 0.
Proof.
  intros Hk. unfold ulp_exp.
  destruct (Z.le_gt_cases k 0) as [H0|H0].
  - rewrite Z.log2_nonpos by lia. lia.
  - assert (Z.log2 k < 24) by (apply Z.log2_lt_pow2; lia). lia.
Qed.

Lemma ulp_exp_large k : 2 ^ 24 <= k -> ulp_exp k = Z.log2 k - 23 /\ 0 < ulp_exp k.
Proof.
  intros Hk. unfold ulp_exp.
  assert (24 <= Z.log2 k) by (apply Z.log2_le_pow2; lia). lia.
Qed.

Lemma ulp_exp_mono a b : a <= b -> ulp_exp a <= ulp_exp b.
Proof.
  intros Hab. unfold ulp_exp.
  destruct (Z.le_gt_cases a 0) as [H0|H0].
  - rewrite (Z.log2_nonpos a) by lia. pose proof (Z.log2_nonneg b). lia.
  - pose proof (Z.log2_le_mono a b Hab). lia.
Qed.

(** The binade of [k]: [2^(23+j) <= k < 2^(24+j)] once [j = ulp_exp k > 0]. *)
Lemma ulp_exp_bounds k :
  0 <= k -> k < 2 ^ (24 + ulp_exp k) /\ (0 < ulp_exp k -> 2 ^ (23 + ulp_exp k) <= k).
Proof.
  intros Hk. destruct (Z.lt_ge_cases k (2 ^ 24)) as [Hs|Hl].
  - rewrite (ulp_exp_small k Hs). split; [exact Hs | lia].
  - destruct (ulp_exp_large k Hl) as [-> Hpos].
    assert (0 < k) by lia.
    destruct (Z.log2_spec k H) as [Hlo Hhi].
    replace (24 + (Z.log2 k - 23)) with (Z.succ (Z.log2 k)) by lia.
    replace (23 + (Z.log2 k - 23)) with (Z.log2 k) by lia.
    split; auto.
Qed.

Lemma pow2_pos j : 0 <= j -> 0 < 2 ^ j.
Proof. intros. apply Z.pow_pos_nonneg; lia. Qed.

Lemma pow2_split a b : 0 <= a <= b -> 2 ^ b = 2 ^ (b - a) * 2 ^ a.
Proof. intros. rewrite <- Z.pow_add_r by lia. f_equal. lia. Qed.

Lemma representable_intro m j :
  0 <= m <= 2 ^ 24 -> 0 <= j -> representable (m * 2 ^ j).
Proof.
  assert (Hlt : forall m j, 0 <= m < 2 ^ 24 -> 0 <= j -> representable (m * 2 ^ j)).
  { clear. intros m j Hm Hj. pose proof (pow2_pos j Hj) as Hp.
    split; [nia|].
    set (k := m * 2 ^ j).
    assert (Hk : 0 <= k < 2 ^ (24 + j)).
    { unfold k. rewrite Z.pow_add_r by lia. nia. }
    assert (Hu : 0 <= ulp_exp k <= j).
    { split; [apply ulp_exp_nonneg|].
      destruct (Z.lt_ge_cases k (2 ^ 24)) as [Hs|Hl].
      - rewrite ulp_exp_small by assumption. lia.
      - destruct (ulp_exp_large k Hl) as [-> _].
        assert (Z.log2 k < 24 + j) by (apply Z.log2_lt_pow2; lia). lia. }
    unfold k at 1. rewrite (pow2_split (ulp_exp k) j Hu), Z.mul_assoc.
    apply Z.mod_mul. pose proof (pow2_pos (ulp_exp k)). lia. }
  intros Hm Hj. destruct (Z.eq_dec m (2 ^ 24)) as [->|Hne].
  - replace (2 ^ 24 * 2 ^ j) with (2 ^ 23 * 2 ^ (j + 1)).
    + apply Hlt; lia.
    + rewrite (Z.pow_add_r 2 j 1) by lia. lia.
  - apply Hlt; lia.
Qed.

Lemma representable_grid r j :
  representable r -> 0 <= j -> 2 ^ (23 + j) <= r -> exists c, r = c * 2 ^ j.
Proof.
  intros [Hr Hmod] Hj Hle.
  assert (Hu : j <= ulp_exp r).
  { unfold ulp_exp. assert (23 + j <= Z.log2 r) by (apply Z.log2_le_pow2; [pose proof (pow2_pos (23+j)); lia | lia]). lia. }
  pose proof (pow2_pos (ulp_exp r) (ulp_exp_nonneg r)) as Hp.
  exists (r / 2 ^ ulp_exp r * 2 ^ (ulp_exp r - j)).
  rewrite <- Z.mul_assoc, <- (pow2_split j (ulp_exp r)) by lia.
  pose proof (Z.div_mod r (2 ^ ulp_exp r)). lia.
Qed.

(** Where [rne] lands: on one of the two neighbours of [n/d] on the grid of
    spacing [2^j], the nearer one. *)
Lemma rne_cases n d :
  0 <= n -> 0 < d ->
  let j := ulp_exp (n / d) in
  let D := d * 2 ^ j in
  let q := n / D in
  0 <= j /\ 0 < D /\ q * D <= n < (q + 1) * D /\ 0 <= q < 2 ^ 24 /\
  (0 < j -> 2 ^ 23 <= q) /\
  (rne n d = q * 2 ^ j /\ 2 * (n - q * D) <= D \/
   rne n d = (q + 1) * 2 ^ j /\ D <= 2 * (n - q * D)).
Proof.
  intros Hn Hd j D q.
  assert (Hj : 0 <= j) by apply ulp_exp_nonneg.
  pose proof (pow2_pos j Hj) as Hp.
  assert (HD : 0 < D) by (unfold D; nia).
  assert (Hfl : 0 <= n / d) by (apply Z.div_pos; lia).
  assert (Hq : q = n / d / 2 ^ j) by (unfold q, D; rewrite Z.div_div; lia).
  pose proof (Z.div_mod n D ltac:(lia)) as Hdm.
  pose proof (Z.mod_pos_bound n D HD) as Hmb.
  fold q in Hdm.
  destruct (ulp_exp_bounds (n / d) Hfl) as [Hhi Hlo]. fold j in Hhi, Hlo.
  split; [exact Hj|]. split; [exact HD|]. split; [nia|].
  assert (Hqr : 0 <= q < 2 ^ 24).
  { rewrite Hq. split; [apply Z.div_pos; lia|].
    apply Z.div_lt_upper_bound; [lia|]. rewrite <- Z.pow_add_r by lia.
    replace (j + 24) with (24 + j) by lia. exact Hhi. }
  split; [exact Hqr|]. split.
  { intros Hjp. rewrite Hq. apply Z.div_le_lower_bound; [lia|].
    rewrite <- Z.pow_add_r by lia. replace (j + 23) with (23 + j) by lia. auto. }
  unfold rne. fold j. fold D. fold q.
  replace (n - q * D) with (n mod D) by lia.
  destruct (Z.ltb_spec (2 * (n mod D)) D); [left; split; [reflexivity | lia]|].
  destruct (Z.ltb_spec D (2 * (n mod D))); [right; split; [reflexivity | lia]|].
  destruct (Z.even q); [left | right]; split; try reflexivity; lia.
Qed.

Lemma rne_nonneg n d : 0 <= n -> 0 < d -> 0 <= rne n d.
Proof.
  intros Hn Hd. destruct (rne_cases n d Hn Hd) as (Hj & HD & Hq & Hqr & _ & [[-> _]|[-> _]]);
    pose proof (pow2_pos _ Hj); nia.
Qed.

Lemma rne_representable n d : 0 <= n -> 0 < d -> representable (rne n d).
Proof.
  intros Hn Hd. destruct (rne_cases n d Hn Hd) as (Hj & HD & Hq & Hqr & _ & [[-> _]|[-> _]]);
    apply representable_intro; lia.
Qed.

(** No representable magnitude is nearer to [n/d] than [rne n d]. *)
Lemma rne_nearest n d r :
  0 <= n -> 0 < d -> representable r ->
  Z.abs (rne n d * d - n) <= Z.abs (r * d - n).
Proof.
  intros Hn Hd Hr.
  destruct (rne_cases n d Hn Hd) as (Hj & HD & Hq & Hqr & Hnorm & Hk).
  set (j := ulp_exp (n / d)) in *. set (D := d * 2 ^ j) in *. set (q := n / D) in *.
  pose proof (pow2_pos j Hj) as Hp.
  assert (Hgrid : q * 2 ^ j < r -> (q + 1) * 2 ^ j <= r).
  { intros Hlt. destruct (Z.eq_dec j 0) as [Hj0|Hj0].
    - rewrite Hj0 in *. simpl in *. lia.
    - assert (2 ^ (23 + j) <= r).
      { rewrite Z.pow_add_r by lia. specialize (Hnorm ltac:(lia)). nia. }
      destruct (representable_grid r j Hr Hj H) as [c ->].
      assert (q < c) by (apply (Z.mul_lt_mono_pos_r (2 ^ j)); lia).
      apply Z.mul_le_mono_nonneg_r; lia. }
  assert (Hlow : r * d <= n -> r * d <= q * D).
  { intros Hle. destruct (Z.le_gt_cases r (q * 2 ^ j)) as [H|H].
    - unfold D. nia.
    - specialize (Hgrid ltac:(lia)). unfold D in *. nia. }
  assert (Hup : n < r * d -> (q + 1) * D <= r * d).
  { intros Hlt. assert (q * 2 ^ j < r) by (unfold D in *; nia).
    specialize (Hgrid H). unfold D. nia. }
  assert (HkD : forall c, c * 2 ^ j * d = c * D) by (intros; unfold D; ring).
  destruct (Z.le_gt_cases (r * d) n) as [Hle|Hgt].
  - specialize (Hlow Hle). destruct Hk as [[-> Hh]|[-> Hh]]; rewrite HkD; lia.
  - specialize (Hup ltac:(lia)). destruct Hk as [[-> Hh]|[-> Hh]]; rewrite HkD; lia.
Qed.

Lemma rne_id r d : representable r -> 0 < d -> rne (r * d) d = r.
Proof.
  intros Hr Hd. assert (0 <= r) by apply Hr.
  pose proof (rne_nearest (r * d) d r ltac:(nia) Hd Hr) as H1.
  replace (r * d - r * d) with 0 in H1 by lia. simpl in H1. nia.
Qed.

Lemma rne_mono_num n n' d :
  0 <= n <= n' -> 0 < d -> rne n d <= rne n' d.
Proof.
  intros Hn Hd. destruct (Z.eq_dec n n') as [->|Hne]; [lia|].
  destruct (Z.le_gt_cases (rne n d) (rne n' d)) as [|Hgt]; [assumption|exfalso].
  pose proof (rne_nearest n d (rne n' d) ltac:(lia) Hd (rne_representable n' d ltac:(lia) Hd)).
  pose proof (rne_nearest n' d (rne n d) ltac:(lia) Hd (rne_representable n d ltac:(lia) Hd)).
  nia.
Qed.

Lemma rne_scale c n d : 0 < c -> 0 <= n -> 0 < d -> rne (c * n) (c * d) = rne n d.
Proof.
  intros Hc Hn Hd. unfold rne.
  rewrite Z.div_mul_cancel_l by lia.
  set (j := ulp_exp (n / d)).
  pose proof (pow2_pos j (ulp_exp_nonneg _)) as Hp.
  replace (c * d * 2 ^ j) with (c * (d * 2 ^ j)) by ring.
  rewrite Z.div_mul_cancel_l by nia.
  rewrite Z.mul_mod_distr_l by nia.
  set (D := d * 2 ^ j). set (r := n mod D).
  replace (2 * (c * r) <? c * D) with (2 * r <? D) by (apply Bool.eq_true_iff_eq; rewrite !Z.ltb_lt; nia).
  replace (c * D <? 2 * (c * r)) with (D <? 2 * r) by (apply Bool.eq_true_iff_eq; rewrite !Z.ltb_lt; nia).
  reflexivity.
Qed.

(** Rounding is monotone on the rationals. *)
Lemma rne_mono n1 d1 n2 d2 :
  0 <= n1 -> 0 < d1 -> 0 < d2 -> n1 * d2 <= n2 * d1 -> rne n1 d1 <= rne n2 d2.
Proof.
  intros Hn1 Hd1 Hd2 Hle. assert (0 <= n2) by nia.
  rewrite <- (rne_scale d2 n1 d1), <- (rne_scale d1 n2 d2) by lia.
  replace (d1 * d2) with (d2 * d1) by ring.
  apply rne_mono_num; nia.
Qed.

Lemma rne_ge r n d : representable r -> 0 < d -> r * d <= n -> r <= rne n d.
Proof.
  intros Hr Hd Hle. rewrite <- (rne_id r d Hr Hd).
  apply rne_mono_num; [destruct Hr; nia | lia].
Qed.

Lemma rne_le r n d : representable r -> 0 <= n -> 0 < d -> n <= r * d -> rne n d <= r.
Proof.
  intros Hr Hn Hd Hle. rewrite <- (rne_id r d Hr Hd).
  apply rne_mono_num; lia.
Qed.


(** *** Floats: well-formedness, order, non-negative values *)

Lemma overflow_threshold_pos : 0 < overflow_threshold.
Proof. reflexivity. Qed.

Lemma scale_pos : 0 < scale.
Proof. reflexivity. Qed.

Lemma representable_iff k : representableb k = true <-> representable k.
Proof.
  unfold representableb, representable.
  rewrite andb_true_iff, Z.leb_le, Z.eqb_eq. reflexivity.
Qed.

Lemma wfb_iff x : wfb x = true <-> wf x.
Proof.
  destruct x as [| |s k]; cbn [wfb wf]; try tauto.
  rewrite andb_true_iff, representable_iff, Z.ltb_lt. reflexivity.
Qed.

Lemma round_cases s n d :
  0 <= n -> 0 < d ->
  (round s n d = Fin s (rne n d) /\ rne n d < overflow_threshold) \/
  (round s n d = Inf s /\ overflow_threshold <= rne n d).
Proof.
  intros Hn Hd. unfold round.
  destruct (Z.leb_spec overflow_threshold (rne n d)); [right | left]; auto.
Qed.

Lemma round_wf s n d : 0 <= n -> 0 < d -> wf (round s n d).
Proof.
  intros Hn Hd. destruct (round_cases s n d Hn Hd) as [[-> Hlt]|[-> _]]; cbn [wf]; auto.
  split; [apply rne_representable; assumption | assumption].
Qed.

Lemma round_not_nan s n d : is_nan (round s n d) = false.
Proof. unfold round. destruct (overflow_threshold <=? rne n d); reflexivity. Qed.

(** A rounded value below a representable bound stays finite. *)
Lemma round_fin s n d r :
  representable r -> r < overflow_threshold -> 0 <= n -> 0 < d -> n <= r * d ->
  round s n d = Fin s (rne n d) /\ 0 <= rne n d <= r /\ representable (rne n d).
Proof.
  intros Hr Hrt Hn Hd Hle.
  pose proof (rne_le r n d Hr Hn Hd Hle) as Hb.
  pose proof (rne_nonneg n d Hn Hd) as H0.
  destruct (round_cases s n d Hn Hd) as [[-> _]|[_ Hov]]; [|lia].
  split; [reflexivity|]. split; [lia|]. apply rne_representable; assumption.
Qed.


Lemma fmul_wf x y : wf x -> wf y -> wf (fmul x y).
Proof.
  destruct x as [| s1 | s1 k1], y as [| s2 | s2 k2]; cbn [fmul wf]; auto.
  - intros _ _. destruct (k2 =? 0); exact I.
  - intros _ _. destruct (k1 =? 0); exact I.
  - intros [[H1 _] _] [[H2 _] _]. apply round_wf; [nia | reflexivity].
Qed.

Lemma nonneg_fle x : wf x -> fle (of_int 0) x = true -> nonneg x.
Proof.
  change (of_int 0) with (Fin false 0).
  destruct x as [| s | s k]; unfold fle; cbn [is_nan negb andb ord signed nonneg wf].
  - discriminate.
  - intros _. destruct s; [|reflexivity]. cbn. discriminate.
  - intros [[Hk _] _]. rewrite Z.leb_le. destruct s; cbn [signed]; intros; split; auto; try lia; discriminate.
Qed.

Lemma fle_nonneg x : nonneg x -> fle (of_int 0) x = true.
Proof.
  change (of_int 0) with (Fin false 0).
  destruct x as [| s | s k]; unfold fle; cbn [is_nan negb andb ord signed nonneg].
  - tauto.
  - intros ->. reflexivity.
  - intros [Hk Hs]. rewrite Z.leb_le. destruct s; cbn [signed]; [rewrite Hs by reflexivity|]; lia.
Qed.

Lemma nonneg_ord x : nonneg x -> is_nan x = false /\ 0 <= ord x.
Proof.
  destruct x as [| s | s k]; cbn [nonneg is_nan ord]; [tauto | |].
  - intros ->. split; [reflexivity|]. cbn. pose proof overflow_threshold_pos. lia.
  - intros [Hk Hs]. split; [reflexivity|]. destruct s; cbn [signed]; [rewrite Hs by reflexivity|]; lia.
Qed.

Lemma representable_0 : representable 0.
Proof. split; [lia | reflexivity]. Qed.

Lemma rne_zero d : 0 < d -> rne 0 d = 0.
Proof.
  intros Hd. pose proof (rne_nonneg 0 d ltac:(lia) Hd).
  pose proof (rne_le 0 0 d representable_0 ltac:(lia) Hd ltac:(lia)). lia.
Qed.

Lemma round_nonneg s n d :
  0 <= n -> 0 < d -> (s = true -> n = 0) -> nonneg (round s n d).
Proof.
  intros Hn Hd Hs. destruct (round_cases s n d Hn Hd) as [[-> Hlt]|[-> Hov]]; cbn [nonneg].
  - split; [apply rne_nonneg; assumption|]. intros Ht. rewrite (Hs Ht). apply rne_zero, Hd.
  - destruct s; [|reflexivity]. rewrite (Hs eq_refl), rne_zero in Hov by exact Hd.
    pose proof overflow_threshold_pos. lia.
Qed.

Lemma fmul_self_nonneg x : is_nan x = false -> nonneg (fmul x x).
Proof.
  destruct x as [| s | s k]; cbn [is_nan fmul]; intros Hn; [discriminate | |].
  - cbn. destruct s; reflexivity.
  - apply round_nonneg; [nia | reflexivity |]. destruct s; discriminate.
Qed.

(** Adding a non-negative value never decreases a non-negative float. *)
Lemma fadd_nonneg x y :
  wf x -> nonneg x -> nonneg y ->
  nonneg (fadd x y) /\ ord x <= ord (fadd x y).
Proof.
  destruct x as [| s1 | s1 k1], y as [| s2 | s2 k2]; cbn [nonneg fadd wf]; try tauto.
  - intros _ -> ->. cbn. split; [reflexivity | lia].
  - intros _ -> _. cbn. split; [reflexivity | lia].
  - intros [[_ _] Hlt] [Hk1 Hs1] ->. cbn [nonneg ord signed]. split; [reflexivity|].
    destruct s1; cbn [signed]; lia.
  - intros [Hr Hlt] [Hk1 Hs1] [Hk2 Hs2].
    assert (Hv1 : signed s1 k1 = k1) by (destruct s1; cbn [signed]; [rewrite Hs1 by reflexivity|]; lia).
    assert (Hv2 : signed s2 k2 = k2) by (destruct s2; cbn [signed]; [rewrite Hs2 by reflexivity|]; lia).
    rewrite Hv1, Hv2. rewrite Z.abs_eq by lia.
    set (sg := if k1 + k2 =? 0 then s1 && s2 else k1 + k2 <? 0).
    assert (Hsg : sg = true -> k1 + k2 = 0).
    { unfold sg. destruct (Z.eqb_spec (k1 + k2) 0); [auto|].
      destruct (Z.ltb_spec (k1 + k2) 0); [lia | discriminate]. }
    split; [apply round_nonneg; auto; lia|].
    pose proof (rne_ge k1 (k1 + k2) 1 Hr ltac:(lia) ltac:(lia)) as Hge.
    pose proof overflow_threshold_pos as Hthr.
    destruct (round_cases sg (k1 + k2) 1 ltac:(lia) ltac:(lia)) as [[-> _]|[-> Hov]];
      cbn [ord]; rewrite Hv1.
    + destruct sg.
      * rewrite (Hsg eq_refl), rne_zero by lia. cbn [signed]. lia.
      * cbn [signed]. lia.
    + destruct sg.
      * rewrite (Hsg eq_refl), rne_zero in Hov by lia. lia.
      * cbn [signed]. lia.
Qed.

Lemma fmul_self_wf x : wf (fmul x x).
Proof.
  destruct x as [| s | s k]; cbn [fmul wf]; auto.
  apply round_wf; [nia | reflexivity].
Qed.

Lemma rne_sqrt_nonneg n : 0 <= n -> 0 <= rne_sqrt n.
Proof.
  intros Hn. unfold rne_sqrt.
  set (j := ulp_exp (Z.sqrt n)).
  pose proof (pow2_pos j (ulp_exp_nonneg _)) as Hp.
  pose proof (Z.sqrt_nonneg (n / 4 ^ j)) as Hq.
  destruct (_ <? _); [nia|]. destruct (_ <? _); [nia|]. destruct (Z.even _); nia.
Qed.

Lemma fsqrt_nonneg x : nonneg x -> nonneg (fsqrt x).
Proof.
  destruct x as [| s | s k]; cbn [nonneg fsqrt]; [tauto | intros ->; reflexivity |].
  intros [Hk Hs]. destruct (Z.eqb_spec k 0) as [->|Hne]; cbn [nonneg].
  - split; [lia | reflexivity].
  - destruct s; [specialize (Hs eq_refl); lia|]. cbn [nonneg].
    split; [apply rne_sqrt_nonneg; pose proof scale_pos; nia | discriminate].
Qed.




Lemma fmul_nonneg_finite x y :
  nonneg x -> nonneg y -> is_finite x = true -> is_finite y = true ->
  nonneg (fmul x y).
Proof.
  destruct x as [| s1 | s1 k1], y as [| s2 | s2 k2]; cbn [is_finite]; try discriminate.
  intros [Hk1 Hs1] [Hk2 Hs2] _ _. cbn [fmul].
  apply round_nonneg; [nia | reflexivity |].
  destruct s1, s2; cbn [xorb]; try discriminate; intros _.
  - rewrite Hs1 by reflexivity. lia.
  - rewrite Hs2 by reflexivity. lia.
Qed.

Lemma fle_ord x y :
  is_nan x = false -> is_nan y = false -> ord x <= ord y -> fle x y = true.
Proof.
  intros Hx Hy Hle. unfold fle. rewrite Hx, Hy. cbn [negb andb]. apply Z.leb_le, Hle.
Qed.

Lemma fle_inv x y :
  fle x y = true -> is_nan x = false /\ is_nan y = false /\ ord x <= ord y.
Proof.
  unfold fle. rewrite !andb_true_iff, !negb_true_iff, Z.leb_le. tauto.
Qed.

Lemma fle_trans x y z : fle x y = true -> fle y z = true -> fle x z = true.
Proof.
  intros H1 H2. apply fle_inv in H1, H2. apply fle_ord; try tauto. lia.
Qed.


(** *** Ranges of the expressions that scale a random number *)

Ltac representable_const := apply representable_iff; vm_compute; reflexivity.

(** [static_cast<float>(n)] of a non-negative [int]. *)
Lemma of_int_nonneg n :
  0 <= n <= 2147483647 ->
  of_int n = Fin false (rne (n * scale) 1) /\
  0 <= rne (n * scale) 1 /\ representable (rne (n * scale) 1).
Proof.
  intros Hn. unfold of_int.
  assert (Hn' : n <= 2 ^ 31) by (change (2 ^ 31) with 2147483648; lia).
  replace (n <? 0) with false by (symmetry; apply Z.ltb_ge; lia).
  rewrite Z.abs_eq by lia. pose proof scale_pos.
  assert (Hrep : representable (2 ^ 31 * scale)) by representable_const.
  assert (Hlt : 2 ^ 31 * scale < overflow_threshold) by reflexivity.
  destruct (round_fin false (n * scale) 1 (2 ^ 31 * scale) Hrep Hlt ltac:(nia)
              ltac:(lia) ltac:(nia)) as (-> & Hb & Hr).
  auto with lia.
Qed.

(** The quotient of two non-negative floats, the first not above the
    second, is a float between 0 and 1. *)
Lemma fdiv_unit a b :
  0 <= a <= b -> 0 < b ->
  exists u, fdiv (Fin false a) (Fin false b) = Fin false u /\
            0 <= u <= scale /\ representable u.
Proof.
  intros Ha Hb. cbn [fdiv xorb].
  replace (b =? 0) with false by (symmetry; apply Z.eqb_neq; lia).
  pose proof scale_pos.
  assert (Hrep : representable scale) by representable_const.
  assert (Hlt : scale < overflow_threshold) by reflexivity.
  destruct (round_fin false (a * scale) b scale Hrep Hlt ltac:(nia)
              ltac:(lia) ltac:(nia)) as (-> & Hu & Hr).
  eauto.
Qed.

(** [base + u * width] for [u] between 0 and 1 lies between [base] and
    [base + width], both ends included. *)
Lemma affine_range kb kc u :
  representable kb -> representable kc -> representable (kb + kc) ->
  kb + kc < overflow_threshold -> 0 <= u <= scale ->
  exists w, fadd (Fin false kb) (fmul (Fin false u) (Fin false kc)) = Fin false w /\
            kb <= w <= kb + kc /\ representable w.
Proof.
  intros Hkb Hkc Hsum Hthr Hu.
  assert (0 <= kb) by apply Hkb. assert (0 <= kc) by apply Hkc.
  pose proof scale_pos. cbn [fmul xorb].
  destruct (round_fin false (u * kc) scale kc Hkc ltac:(lia) ltac:(nia)
              ltac:(lia) ltac:(nia)) as (-> & Ht & Hrt).
  set (t := rne (u * kc) scale) in *.
  cbn [fadd signed andb]. cbv zeta. rewrite Z.abs_eq by lia.
  replace (if kb + t =? 0 then false else kb + t <? 0) with false
    by (destruct (kb + t =? 0); [reflexivity | symmetry; apply Z.ltb_ge; lia]).
  destruct (round_fin false (kb + t) 1 (kb + kc) Hsum Hthr ltac:(lia)
              ltac:(lia) ltac:(lia)) as (-> & Hw & Hrw).
  exists (rne (kb + t) 1). split; [reflexivity|]. split; [|assumption].
  pose proof (rne_ge kb (kb + t) 1 Hkb ltac:(lia) ltac:(lia)). lia.
Qed.

Lemma ord_round_mono (s : bool) n1 d1 n2 d2 :
  0 <= n1 -> 0 < d1 -> 0 < d2 -> n1 * d2 <= n2 * d1 ->
  (if s return Prop then ord (round s n2 d2) <= ord (round s n1 d1)
   else ord (round s n1 d1) <= ord (round s n2 d2)).
Proof.
  intros Hn1 Hd1 Hd2 Hle. assert (Hn2 : 0 <= n2) by nia.
  pose proof (rne_mono n1 d1 n2 d2 Hn1 Hd1 Hd2 Hle) as Hm.
  destruct (round_cases s n1 d1 Hn1 Hd1) as [[-> H1]|[-> H1]],
           (round_cases s n2 d2 Hn2 Hd2) as [[-> H2]|[-> H2]];
    destruct s; cbn [ord signed]; lia.
Qed.

(** *** Sums and differences of finite floats of known sign *)

Lemma fadd_pos a b :
  0 <= a -> 0 <= b -> fadd (Fin false a) (Fin false b) = round false (a + b) 1.
Proof.
  intros Ha Hb. cbn [fadd signed andb]. cbv zeta. rewrite Z.abs_eq by lia.
  replace (if a + b =? 0 then false else a + b <? 0) with false
    by (destruct (a + b =? 0); [reflexivity | symmetry; apply Z.ltb_ge; lia]).
  reflexivity.
Qed.

Lemma fadd_neg a b :
  0 <= a -> 0 <= b -> 0 < a + b ->
  fadd (Fin true a) (Fin true b) = round true (a + b) 1.
Proof.
  intros Ha Hb Hab. cbn [fadd signed andb]. cbv zeta.
  replace (Z.abs (- a + - b)) with (a + b) by lia.
  replace (- a + - b =? 0) with false by (symmetry; apply Z.eqb_neq; lia).
  replace (- a + - b <? 0) with true by (symmetry; apply Z.ltb_lt; lia).
  reflexivity.
Qed.

Lemma fadd_pos_neg a b :
  0 <= b <= a -> fadd (Fin false a) (Fin true b) = round false (a - b) 1.
Proof.
  intros Hab. cbn [fadd signed andb]. cbv zeta.
  replace (Z.abs (a + - b)) with (a - b) by lia.
  replace (if a + - b =? 0 then false else a + - b <? 0) with false
    by (destruct (a + - b =? 0); [reflexivity | symmetry; apply Z.ltb_ge; lia]).
  reflexivity.
Qed.

Lemma ord_round_ge (s : bool) r n d :
  representable r -> r < overflow_threshold -> 0 < d -> r * d <= n ->
  (if s return Prop then ord (round s n d) <= - r else r <= ord (round s n d)).
Proof.
  intros Hr Hlt Hd Hle. assert (0 <= r) by apply Hr.
  pose proof (rne_ge r n d Hr Hd Hle) as Hge.
  destruct (round_cases s n d ltac:(nia) Hd) as [[-> _]|[-> _]];
    destruct s; cbn [ord signed]; lia.
Qed.

Lemma lit_int n :
  0 <= n -> representable (n * scale) -> n * scale < overflow_threshold ->
  lit n 1 = Fin false (n * scale).
Proof.
  intros Hn Hr Hlt. unfold lit. pose proof scale_pos.
  destruct (round_fin false (n * scale) 1 (n * scale) Hr Hlt ltac:(nia)
              ltac:(lia) ltac:(lia)) as (-> & _ & _).
  f_equal. rewrite <- (Z.mul_1_r (n * scale)) at 1. apply rne_id; [assumption | lia].
Qed.

(** [x = radius + u * (canvasWidth - 2 * radius)] with [u] between 0 and 1
    and a canvas at least 40 wide lies between [radius] and
    [radius + (canvasWidth - 2 * radius)]. *)
Lemma spread_range kr kcw u :
  representable kr -> 0 <= kr <= 20 * scale ->
  representable kcw -> kcw < overflow_threshold -> 40 * scale <= kcw ->
  0 <= u <= scale ->
  let radius := Fin false kr in
  let width := fsub (Fin false kcw) (fmul (of_int 2) radius) in
  let x := fadd radius (fmul (Fin false u) width) in
  fle radius x = true /\ fle x (fadd radius width) = true.
Proof.
  intros Hkr Hr Hkcw Hcwlt Hcw Hu. cbv zeta. pose proof scale_pos as Hs.
  change (of_int 2) with (round false (2 * scale) 1).
  assert (H2 : round false (2 * scale) 1 = Fin false (2 * scale)).
  { apply (lit_int 2); [lia | representable_const | reflexivity]. }
  rewrite H2. cbn [fmul xorb].
  assert (H40 : representable (40 * scale)) by representable_const.
  assert (H40lt : 40 * scale < overflow_threshold) by reflexivity.
  destruct (round_fin false (2 * scale * kr) scale (40 * scale) H40 H40lt
              ltac:(nia) Hs ltac:(nia)) as (-> & Hm2 & _).
  set (m2 := rne (2 * scale * kr) scale) in *.
  unfold fsub. cbn [fneg negb]. rewrite fadd_pos_neg by lia.
  destruct (round_fin false (kcw - m2) 1 kcw Hkcw Hcwlt ltac:(lia)
              ltac:(lia) ltac:(lia)) as (-> & Hkw & Hrw).
  set (kw := rne (kcw - m2) 1) in *.
  cbn [fmul xorb].
  destruct (round_fin false (u * kw) scale kw Hrw ltac:(lia) ltac:(nia)
              Hs ltac:(nia)) as (-> & Ht & _).
  set (t := rne (u * kw) scale) in *.
  rewrite !fadd_pos by lia.
  split; apply fle_ord; try apply round_not_nan; try reflexivity.
  - cbn [ord signed].
    apply (ord_round_ge false kr (kr + t) 1); try lia; try assumption.
  - apply (ord_round_mono false (kr + t) 1 (kr + kw) 1); lia.
Qed.

(** [y = -radius - u * 100] with [u] between 0 and 1 lies between
    [-radius - 100] and [-radius]. *)
Lemma drop_range kr u :
  representable kr -> 0 < kr <= 20 * scale -> 0 <= u <= scale ->
  let radius := Fin false kr in
  let y := fsub (fneg radius) (fmul (Fin false u) (lit 100 1)) in
  fle (fsub (fneg radius) (lit 100 1)) y = true /\ fle y (fneg radius) = true.
Proof.
  intros Hkr Hr Hu. cbv zeta. pose proof scale_pos as Hs.
  assert (H100 : representable (100 * scale)) by representable_const.
  assert (H100lt : 100 * scale < overflow_threshold) by reflexivity.
  rewrite (lit_int 100) by (try lia; assumption).
  cbn [fmul xorb fneg negb].
  destruct (round_fin false (u * (100 * scale)) scale (100 * scale) H100 H100lt
              ltac:(nia) Hs ltac:(nia)) as (-> & Ht & _).
  set (t := rne (u * (100 * scale)) scale) in *.
  unfold fsub. cbn [fneg negb]. rewrite !fadd_neg by lia.
  split; apply fle_ord; try apply round_not_nan; try reflexivity.
  - apply (ord_round_mono true (kr + t) 1 (kr + 100 * scale) 1); lia.
  - cbn [ord signed].
    apply (ord_round_ge true kr (kr + t) 1); try lia; try assumption.
Qed.

(** *** Agreement with [SpecFloat] on the samples *)

Example samples_wf : forallb wfb samples = true.
Proof. vm_compute. reflexivity. Qed.

Example samples_valid : forallb (fun x => valid_binary 24 128 (to_spec x)) samples = true.
Proof. vm_compute. reflexivity. Qed.

Example fadd_agrees : agree2 fadd (SFadd 24 128) = true.
Proof. vm_compute. reflexivity. Qed.

Example fsub_agrees : agree2 fsub (SFsub 24 128) = true.
Proof. vm_compute. reflexivity. Qed.

Example fmul_agrees : agree2 fmul (SFmul 24 128) = true.
Proof. vm_compute. reflexivity. Qed.

Example fdiv_agrees : agree2 fdiv (SFdiv 24 128) = true.
Proof. vm_compute. reflexivity. Qed.

Example fsqrt_agrees : agree1 fsqrt (SFsqrt 24 128) = true.
Proof. vm_compute. reflexivity. Qed.

Example of_int_agrees :
  forallb (fun n => match to_spec (of_int n), binary_normalize 24 128 n 0 false with
                    | S754_zero a, S754_zero b => Bool.eqb a b
                    | S754_finite a m e, S754_finite b m' e' =>
                        Bool.eqb a b && Pos.eqb m m' && Z.eqb e e'
                    | _, _ => false
                    end)
    [0; 1; -1; 5; 1000; 16777217; 33554435; 2147483647; -2147483648; 2147483583]
  = true.
Proof. vm_compute. reflexivity. Qed.

Example literals_agree :
  forallb (fun '(n, d) =>
             match to_spec (lit n d),
                   SFdiv 24 128 (binary_normalize 24 128 n 0 false)
                                (binary_normalize 24 128 d 0 false) with
             | S754_finite a m e, S754_finite b m' e' =>
                 Bool.eqb a b && Pos.eqb m m' && Z.eqb e e'
             | _, _ => false
             end)
    [(1, 10); (1, 100); (5, 10); (3, 10); (16, 1000); (15, 10); (25, 10); (8, 1);
     (12, 1); (100, 1)]
  = true.
Proof. vm_compute. reflexivity. Qed.

Example fneg_agrees : agree1 fneg SFopp = true.
Proof. vm_compute. reflexivity. Qed.

Example flt_agrees : agree_cmp flt SFltb = true.
Proof. vm_compute. reflexivity. Qed.

Example fle_agrees : agree_cmp fle SFleb = true.
Proof. vm_compute. reflexivity. Qed.

End F32Facts.

(** ** The collision pass *)

Module CollisionFacts.
Import PhysicsEngine.

Section Pass.
Context `{Platform}.

#[local] Arguments lit : simpl never.
#[local] Arguments of_int : simpl never.
#[local] Arguments fadd : simpl never.
#[local] Arguments fmul : simpl never.
#[local] Arguments fdiv : simpl never.
#[local] Arguments fsqrt : simpl never.
#[local] Arguments PI : simpl never.

Lemma first_hit_spec bullet bs i0 :
  match first_hit bullet bs i0 with
  | None =>
      forall (j : nat) b, bs !! j = Some b ->
        Bubble.active b = true -> collides bullet b = false
  | Some (i, b) =>
      exists j : nat, i = (i0 + j)%nat /\ bs !! j = Some b /\
        Bubble.active b = true /\ collides bullet b = true /\
        forall (j' : nat) b', (j' < j)%nat -> bs !! j' = Some b' ->
          Bubble.active b' = true -> collides bullet b' = false
  end.
Proof.
  revert i0. induction bs as [|b bs IH]; intros i0; simpl.
  - intros j b Hj. rewrite lookup_nil in Hj. discriminate.
  - destruct (Bubble.active b) eqn:Hact; simpl.
    + destruct (collides bullet b) eqn:Hcol.
      * exists 0%nat. repeat split; auto with lia.
      * specialize (IH (S i0)). destruct (first_hit bullet bs (S i0)) as [[i b0]|].
        -- destruct IH as (j & -> & Hj & Ha & Hc & Hbefore).
           exists (S j). repeat split; auto with lia.
           intros [|j'] b' Hlt Hl Hb'; simpl in Hl.
           ++ congruence.
           ++ apply (Hbefore j'); auto with lia.
        -- intros [|j] b' Hl Hb'; simpl in Hl; [congruence | eauto].
    + specialize (IH (S i0)). destruct (first_hit bullet bs (S i0)) as [[i b0]|].
      * destruct IH as (j & -> & Hj & Ha & Hc & Hbefore).
        exists (S j). repeat split; auto with lia.
        intros [|j'] b' Hlt Hl Hb'; simpl in Hl.
        -- congruence.
        -- apply (Hbefore j'); auto with lia.
      * intros [|j] b' Hl Hb'; simpl in Hl; [congruence | eauto].
Qed.

Lemma rand_skip_rand g : snd (rand g) = rand_skip 1 g.
Proof. reflexivity. Qed.

Lemma rand_skip_skip a b g : rand_skip a (rand_skip b g) = rand_skip (a + b) g.
Proof. unfold rand_skip; simpl. f_equal. lia. Qed.

Lemma particle_rand x y radius c i g :
  snd (particle x y radius c i g) = rand_skip 1 g.
Proof. reflexivity. Qed.

(** The loop of [createExplosion] in closed form. *)
Lemma explosion_loop_eq x y radius c n i bs g :
  explosion_loop x y radius c n i bs g =
  (bs ++ map (fun k : nat => fst (particle x y radius c (i + Z.of_nat k) (rand_skip k g))) (seq 0 n),
   rand_skip n g).
Proof.
  revert i bs g. induction n as [|n IH]; intros i bs g.
  - cbn [explosion_loop seq map]. rewrite app_nil_r. destruct g; reflexivity.
  - cbn [explosion_loop].
    destruct (particle x y radius c i g) as [p g'] eqn:Hp.
    rewrite IH.
    assert (Hg' : g' = rand_skip 1 g) by (rewrite <- (particle_rand x y radius c i g), Hp; reflexivity).
    subst g'. rewrite rand_skip_skip. replace (n + 1)%nat with (S n) by lia.
    f_equal. rewrite <- app_assoc. f_equal. cbn [seq map app].
    f_equal.
    + rewrite Z.add_0_r. replace (rand_skip 0 g) with g by (destruct g; reflexivity).
      rewrite Hp. reflexivity.
    + rewrite <- seq_shift, map_map. apply map_ext. intros k.
      rewrite rand_skip_skip.
      replace (i + 1 + Z.of_nat k) with (i + Z.of_nat (S k)) by lia.
      replace (k + 1)%nat with (S k) by lia. reflexivity.
Qed.

Lemma createExplosion_eq x y radius bs g :
  createExplosion x y radius bs g =
  (bs ++ explosion_particles x y radius g,
   rand_skip (S (Z.to_nat (6 + Z.rem (fst (rand g)) 4))) g).
Proof.
  unfold createExplosion, explosion_particles.
  destruct (rand g) as [r g'] eqn:Hr. cbn [fst].
  assert (g' = rand_skip 1 g) as -> by (rewrite <- rand_skip_rand, Hr; reflexivity).
  rewrite explosion_loop_eq. f_equal.
  - f_equal. apply map_ext. intros k.
    rewrite rand_skip_skip, Z.add_0_l.
    replace (k + 1)%nat with (S k) by lia. reflexivity.
  - rewrite rand_skip_skip. f_equal. lia.
Qed.

Lemma particle_active x y radius c i g :
  Bubble.active (fst (particle x y radius c i g)) = true.
Proof. reflexivity. Qed.

Lemma explosion_particles_active x y radius g :
  Forall (fun p => Bubble.active p = true) (explosion_particles x y radius g).
Proof.
  unfold explosion_particles. apply Forall_map, Forall_forall. intros; reflexivity.
Qed.


(** What one round of the outer loop does: nothing for a bullet that is
    switched off or overlaps no active bubble; otherwise the first active
    bubble it overlaps is switched off with it and explodes. *)
Lemma collide_bullet_spec bullet s :
  (Bullet.active bullet = false /\ collide_bullet bullet s = (bullet, s)) \/
  (Bullet.active bullet = true /\
   (forall (j : nat) b, pass_bubbles s !! j = Some b ->
      Bubble.active b = true -> collides bullet b = false) /\
   collide_bullet bullet s = (bullet, s)) \/
  (Bullet.active bullet = true /\
   exists (i : nat) b,
     pass_bubbles s !! i = Some b /\ Bubble.active b = true /\
     collides bullet b = true /\
     (forall (j : nat) b', (j < i)%nat -> pass_bubbles s !! j = Some b' ->
        Bubble.active b' = true -> collides bullet b' = false) /\
     collide_bullet bullet s =
       (Bullet.set_active false bullet,
        mk_pass
          (<[i := Bubble.set_active false b]> (pass_bubbles s) ++
           explosion_particles (Vector2D.x (Bubble.position b))
             (Vector2D.y (Bubble.position b)) (Bubble.radius b) (pass_rand s))
          (int_wrap (pass_destroyed s + 1))
          (int_wrap (pass_collisions s + 1))
          (rand_skip (S (Z.to_nat (6 + Z.rem (fst (rand (pass_rand s))) 4)))
             (pass_rand s)))).
Proof.
  unfold collide_bullet.
  destruct (Bullet.active bullet) eqn:Hact; cbn [negb]; [|left; auto].
  right. pose proof (first_hit_spec bullet (pass_bubbles s) 0) as Hfh.
  destruct (first_hit bullet (pass_bubbles s) 0) as [[i b]|].
  - right. split; [reflexivity|].
    destruct Hfh as (j & Hi & Hj & Ha & Hc & Hbefore). cbn [Nat.add] in Hi. subst i.
    exists j, b. repeat split; auto.
    rewrite createExplosion_eq. reflexivity.
  - left. auto.
Qed.

Lemma inactive_bubbles_app bs bs' :
  inactive_bubbles (bs ++ bs') = (inactive_bubbles bs + inactive_bubbles bs')%nat.
Proof. unfold inactive_bubbles. rewrite List.filter_app, length_app. reflexivity. Qed.

Lemma inactive_bubbles_all_active bs :
  Forall (fun p => Bubble.active p = true) bs -> inactive_bubbles bs = 0%nat.
Proof.
  unfold inactive_bubbles. induction 1 as [|b bs Hb _ IH]; [reflexivity|].
  cbn [List.filter]. rewrite Hb. exact IH.
Qed.

Lemma inactive_bubbles_off bs (i : nat) b :
  bs !! i = Some b -> Bubble.active b = true ->
  inactive_bubbles (<[i := Bubble.set_active false b]> bs) = S (inactive_bubbles bs).
Proof.
  intros Hi Hb.
  rewrite <- (take_drop_middle bs i b Hi) at 2.
  rewrite insert_take_drop by (eapply lookup_lt_Some; eauto).
  rewrite !inactive_bubbles_app.
  change (Bubble.set_active false b :: drop (S i) bs)
    with ([Bubble.set_active false b] ++ drop (S i) bs).
  change (b :: drop (S i) bs) with ([b] ++ drop (S i) bs).
  rewrite !inactive_bubbles_app.
  unfold inactive_bubbles at 2 5. cbn [List.filter]. rewrite Hb.
  cbn [Bubble.active Bubble.set_active Bubble.with_base Bubble.base
       GameObject.set_active GameObject.active negb length]. lia.
Qed.

Lemma evolves_refl bs : evolves bs bs.
Proof. split; [lia|]. intros j b Hj. exists b. split; [assumption | left; reflexivity]. Qed.

Lemma bubble_kept_or_off_trans a b c :
  bubble_kept_or_off a b -> bubble_kept_or_off b c -> bubble_kept_or_off a c.
Proof.
  intros [->|[Ha ->]] [->|[Hb ->]]; unfold bubble_kept_or_off; auto.
Qed.

Lemma evolves_trans a b c : evolves a b -> evolves b c -> evolves a c.
Proof.
  intros [Hl1 H1] [Hl2 H2]. split; [lia|].
  intros j x Hj. destruct (H1 j x Hj) as (y & Hy & Hxy).
  destruct (H2 j y Hy) as (z & Hz & Hyz).
  exists z. split; [assumption|]. eapply bubble_kept_or_off_trans; eauto.
Qed.

Lemma evolves_hit bs (i : nat) b ps :
  bs !! i = Some b -> Bubble.active b = true ->
  evolves bs (<[i := Bubble.set_active false b]> bs ++ ps).
Proof.
  intros Hi Hb. split.
  - rewrite length_app, length_insert. lia.
  - intros j x Hj. pose proof (lookup_lt_Some _ _ _ Hj) as Hlt.
    rewrite lookup_app_l by (rewrite length_insert; exact Hlt).
    destruct (Nat.eq_dec i j) as [->|Hne].
    + rewrite list_lookup_insert_eq by exact Hlt.
      exists (Bubble.set_active false b). split; [reflexivity|].
      right. split; congruence.
    + rewrite list_lookup_insert_ne by exact Hne.
      exists x. split; [assumption | left; reflexivity].
Qed.

(** An active slot of the later vector is the unchanged, active old slot. *)
Lemma evolves_active bs bs' (j : nat) b b' :
  evolves bs bs' -> bs !! j = Some b -> bs' !! j = Some b' ->
  Bubble.active b' = true -> b' = b /\ Bubble.active b = true.
Proof.
  intros [_ He] Hj Hj' Hact. destruct (He j b Hj) as (y & Hy & Hk).
  rewrite Hj' in Hy. injection Hy as <-.
  destruct Hk as [->|[Hb ->]]; [auto|]. cbn in Hact. discriminate.
Qed.

Lemma collide_bullet_evolves bullet s :
  evolves (pass_bubbles s) (pass_bubbles (snd (collide_bullet bullet s))).
Proof.
  destruct (collide_bullet_spec bullet s)
    as [[_ ->]|[(_ & _ & ->)|(_ & i & b & Hi & Hb & _ & _ & ->)]];
    cbn [snd pass_bubbles]; auto using evolves_refl, evolves_hit.
Qed.

Lemma collide_loop_evolves bl s :
  evolves (pass_bubbles s) (pass_bubbles (snd (collide_loop bl s))).
Proof.
  revert s. induction bl as [|bullet rest IH]; intros s; cbn [collide_loop].
  - apply evolves_refl.
  - pose proof (collide_bullet_evolves bullet s) as H1.
    destruct (collide_bullet bullet s) as [bullet' s'].
    specialize (IH s'). destruct (collide_loop rest s') as [rest' s''].
    cbn [snd] in *. eapply evolves_trans; eauto.
Qed.

(** [k] rounds of [x++] on an [int]. *)
Lemma int_wrap_succ z : - 2 ^ 31 <= z -> z + 1 <= INT_MAX -> int_wrap (z + 1) = z + 1.
Proof.
  unfold int_wrap, INT_MAX. intros Hlo Hhi.
  rewrite Z.mod_small; lia.
Qed.

(** The counters of the pass: every collision switches off one bullet and
    one bubble and adds one to both counters. *)
Lemma collide_loop_counts bl s :
  - 2 ^ 31 <= pass_destroyed s ->
  pass_destroyed s + Z.of_nat (length bl) <= INT_MAX ->
  - 2 ^ 31 <= pass_collisions s ->
  pass_collisions s + Z.of_nat (length bl) <= INT_MAX ->
  exists k : nat,
    (k <= length bl)%nat /\
    length (fst (collide_loop bl s)) = length bl /\
    inactive_bullets (fst (collide_loop bl s)) = (inactive_bullets bl + k)%nat /\
    inactive_bubbles (pass_bubbles (snd (collide_loop bl s))) =
      (inactive_bubbles (pass_bubbles s) + k)%nat /\
    pass_destroyed (snd (collide_loop bl s)) = pass_destroyed s + Z.of_nat k /\
    pass_collisions (snd (collide_loop bl s)) = pass_collisions s + Z.of_nat k.
Proof.
  revert s. induction bl as [|bullet rest IH]; intros s Hd1 Hd2 Hc1 Hc2.
  - exists 0%nat. cbn. repeat split; lia.
  - cbn [collide_loop]. cbn [length] in Hd2, Hc2.
    assert (Hstep : exists k1 : nat, (k1 <= 1)%nat /\
      inactive_bullets [fst (collide_bullet bullet s)] = (inactive_bullets [bullet] + k1)%nat /\
      inactive_bubbles (pass_bubbles (snd (collide_bullet bullet s))) =
        (inactive_bubbles (pass_bubbles s) + k1)%nat /\
      pass_destroyed (snd (collide_bullet bullet s)) = pass_destroyed s + Z.of_nat k1 /\
      pass_collisions (snd (collide_bullet bullet s)) = pass_collisions s + Z.of_nat k1).
    { destruct (collide_bullet_spec bullet s)
        as [[_ ->]|[(_ & _ & ->)|(Hact & i & b & Hi & Hb & _ & _ & ->)]].
      - exists 0%nat. cbn [fst snd]. repeat split; lia.
      - exists 0%nat. cbn [fst snd]. repeat split; lia.
      - exists 1%nat. cbn [fst snd pass_bubbles pass_destroyed pass_collisions].
        split; [lia|]. split.
        { unfold inactive_bullets. cbn [List.filter]. rewrite Hact.
          cbn [Bullet.active Bullet.set_active Bullet.with_base Bullet.base
               GameObject.set_active GameObject.active negb length]. lia. }
        split.
        { rewrite inactive_bubbles_app, (inactive_bubbles_off _ _ _ Hi Hb).
          rewrite (inactive_bubbles_all_active (explosion_particles _ _ _ _))
            by apply explosion_particles_active. lia. }
        rewrite !int_wrap_succ by lia. lia. }
    destruct (collide_bullet bullet s) as [bullet' s'].
    destruct Hstep as (k1 & Hk1 & Hb1 & Hbb1 & Hde1 & Hco1). cbn [fst snd] in *.
    destruct (IH s') as (k & Hk & Hlen & Hb & Hbb & Hde & Hco); try lia.
    destruct (collide_loop rest s') as [rest' s'']. cbn [fst snd] in *.
    exists (k1 + k)%nat. cbn [length].
    split; [lia|]. split; [lia|]. split.
    { unfold inactive_bullets in *. cbn [List.filter] in *.
      destruct (negb (Bullet.active bullet')), (negb (Bullet.active bullet));
        cbn [length] in *; lia. }
    repeat split; lia.
Qed.

Lemma bullet_kept_or_off_step bullet s :
  bullet_kept_or_off bullet (fst (collide_bullet bullet s)).
Proof.
  destruct (collide_bullet_spec bullet s)
    as [[_ ->]|[(_ & _ & ->)|(Hact & i & b & _ & _ & _ & _ & ->)]];
    cbn [fst]; [left | left | right]; auto.
Qed.

Lemma collide_loop_bullets bl s :
  Forall2 bullet_kept_or_off bl (fst (collide_loop bl s)).
Proof.
  revert s. induction bl as [|bullet rest IH]; intros s; cbn [collide_loop].
  - constructor.
  - pose proof (bullet_kept_or_off_step bullet s) as H1.
    destruct (collide_bullet bullet s) as [bullet' s'].
    specialize (IH s'). destruct (collide_loop rest s') as [rest' s''].
    cbn [fst] in *. constructor; assumption.
Qed.

(** A bullet that is still active after its round overlapped no bubble that
    was active then. *)
Lemma collide_bullet_survivor bullet s :
  Bullet.active (fst (collide_bullet bullet s)) = true ->
  fst (collide_bullet bullet s) = bullet /\
  forall (j : nat) b, pass_bubbles s !! j = Some b ->
    Bubble.active b = true -> collides bullet b = false.
Proof.
  destruct (collide_bullet_spec bullet s)
    as [[Hoff ->]|[(_ & Hmiss & ->)|(Hact & i & b & _ & _ & _ & _ & ->)]];
    cbn [fst]; intros Ha.
  - congruence.
  - auto.
  - cbn in Ha. discriminate.
Qed.

(** After the pass no bullet and bubble that are both still active overlap,
    for the bubbles that were there when the pass began. *)
Lemma collide_loop_resolved bl s (i j : nat) bullet' b' :
  fst (collide_loop bl s) !! i = Some bullet' ->
  Bullet.active bullet' = true ->
  (j < length (pass_bubbles s))%nat ->
  pass_bubbles (snd (collide_loop bl s)) !! j = Some b' ->
  Bubble.active b' = true ->
  collides bullet' b' = false.
Proof.
  revert s i. induction bl as [|bullet rest IH]; intros s i Hi Hact Hj Hj' Hb'.
  - cbn in Hi. rewrite lookup_nil in Hi. discriminate.
  - cbn [collide_loop] in Hi, Hj'.
    pose proof (collide_bullet_survivor bullet s) as Hsurv.
    pose proof (collide_bullet_evolves bullet s) as Hev1.
    destruct (collide_bullet bullet s) as [bullet1 s1]. cbn [fst snd] in *.
    pose proof (collide_loop_evolves rest s1) as Hev2.
    specialize (IH s1).
    destruct (collide_loop rest s1) as [rest' s2]. cbn [fst snd] in *.
    destruct i as [|i]; cbn in Hi.
    + injection Hi as <-. destruct (Hsurv Hact) as [-> Hmiss].
      destruct (lookup_lt_is_Some_2 _ _ Hj) as [b Hb].
      destruct (evolves_active _ _ j b b' (evolves_trans _ _ _ Hev1 Hev2) Hb Hj' Hb')
        as [-> Hbact].
      eauto.
    + apply (IH i); auto. destruct Hev1 as [Hlen _]. lia.
Qed.

End Pass.
End CollisionFacts.

(** ** The collision pass, bullet by bullet, and the bullets a frame leaves *)

Section PassTrace.
Context `{Platform}.
Import PhysicsEngine CollisionFacts.

Lemma collide_trace_length bl s : length (collide_trace bl s) = S (length bl).
Proof.
  revert s. induction bl as [|bullet bl IH]; intros s; cbn [collide_trace length];
    [reflexivity|]. rewrite IH. reflexivity.
Qed.

Lemma collide_trace_head bl s : collide_trace bl s !! 0%nat = Some s.
Proof. destruct bl; reflexivity. Qed.

Lemma collide_trace_last bl s :
  collide_trace bl s !! length bl = Some (snd (collide_loop bl s)).
Proof.
  revert s. induction bl as [|bullet bl IH]; intros s;
    cbn [collide_trace collide_loop length]; [reflexivity|].
  cbn [lookup list_lookup]. rewrite IH.
  destruct (collide_bullet bullet s) as [bullet' s1]. cbn [snd].
  destruct (collide_loop bl s1) as [bl' s2]. reflexivity.
Qed.

Lemma collide_trace_step bl s (i : nat) bullet si :
  bl !! i = Some bullet -> collide_trace bl s !! i = Some si ->
  fst (collide_loop bl s) !! i = Some (fst (collide_bullet bullet si)) /\
  collide_trace bl s !! S i = Some (snd (collide_bullet bullet si)).
Proof.
  revert s i. induction bl as [|b0 bl IH]; intros s i Hi Hs.
  - rewrite lookup_nil in Hi. discriminate Hi.
  - cbn [collide_trace collide_loop] in *. destruct i as [|i]; cbn [lookup list_lookup] in Hi, Hs.
    + assert (b0 = bullet) by congruence. assert (s = si) by congruence. subst b0 s.
      cbn [lookup list_lookup]. rewrite collide_trace_head.
      destruct (collide_bullet bullet si) as [bullet' s1]. cbn [fst snd].
      destruct (collide_loop bl s1) as [bl' s2]. split; reflexivity.
    + specialize (IH (snd (collide_bullet b0 s)) i Hi Hs).
      destruct (collide_bullet b0 s) as [b0' s1]. cbn [snd] in IH.
      destruct (collide_loop bl s1) as [bl' s2]. cbn [fst] in *.
      exact IH.
Qed.

Lemma collide_loop_length bl s : length (fst (collide_loop bl s)) = length bl.
Proof.
  revert s. induction bl as [|bullet bl IH]; intros s; cbn [collide_loop]; [reflexivity|].
  specialize (IH (snd (collide_bullet bullet s))).
  destruct (collide_bullet bullet s) as [bullet' s1]. cbn [snd] in IH.
  destruct (collide_loop bl s1) as [bl' s2]. cbn [fst length] in *. rewrite IH. reflexivity.
Qed.

Lemma checkCollisions_eq e g :
  checkCollisions e g =
  (pass_collisions (snd (collide_loop (bullets e) (mk_pass (bubbles e) (bubblesDestroyed e) 0 g))),
   set_bubblesDestroyed
     (pass_destroyed (snd (collide_loop (bullets e) (mk_pass (bubbles e) (bubblesDestroyed e) 0 g))))
     (set_bullets (fst (collide_loop (bullets e) (mk_pass (bubbles e) (bubblesDestroyed e) 0 g)))
        (set_bubbles
           (pass_bubbles (snd (collide_loop (bullets e)
                                 (mk_pass (bubbles e) (bubblesDestroyed e) 0 g)))) e)),
   pass_rand (snd (collide_loop (bullets e) (mk_pass (bubbles e) (bubblesDestroyed e) 0 g)))).
Proof. unfold checkCollisions. destruct (collide_loop _ _) as [bl s]. reflexivity. Qed.

Lemma update_eq dt e g :
  update dt e g =
  (cleanup (snd (fst (checkCollisions (advance dt e) g))),
   snd (checkCollisions (advance dt e) g)).
Proof. unfold update. destruct (checkCollisions _ _) as [[c e2] g2]. reflexivity. Qed.

Lemma rand_ok_skip n g : rand_ok g -> rand_ok (rand_skip n g).
Proof. intros Hg i. apply (Hg i). Qed.

Lemma explosion_particles_length x y radius g :
  length (explosion_particles x y radius g) = Z.to_nat (6 + Z.rem (fst (rand g)) 4).
Proof. unfold explosion_particles. cbv zeta. rewrite length_map, length_seq. reflexivity. Qed.

Lemma explosion_count_range g :
  rand_ok g -> (6 <= Z.to_nat (6 + Z.rem (fst (rand g)) 4) <= 9)%nat.
Proof.
  intros Hg. cbn [rand fst].
  pose proof (Hg (rand_pos g)) as [Hr _].
  pose proof (Z.rem_bound_pos (rand_outputs g (rand_pos g)) 4 Hr) as Hrem.
  lia.
Qed.

Lemma collide_bullet_rand_ok bullet s :
  rand_ok (pass_rand s) -> rand_ok (pass_rand (snd (collide_bullet bullet s))).
Proof.
  intros Hg.
  destruct (collide_bullet_spec bullet s)
    as [[_ ->]|[(_ & _ & ->)|(_ & i & b & _ & _ & _ & _ & ->)]]; cbn [snd pass_rand];
    [exact Hg | exact Hg | apply rand_ok_skip, Hg].
Qed.

Lemma collide_trace_rand_ok bl s (i : nat) si :
  rand_ok (pass_rand s) -> collide_trace bl s !! i = Some si -> rand_ok (pass_rand si).
Proof.
  revert s i. induction bl as [|bullet bl IH]; intros s i Hg Hs; cbn [collide_trace] in Hs.
  - pose proof (lookup_lt_Some _ _ _ Hs) as Hlt. cbn [length] in Hlt.
    destruct i as [|i]; [|lia]. cbn [lookup list_lookup] in Hs.
    assert (s = si) by congruence. subst. exact Hg.
  - destruct i as [|i]; cbn [lookup list_lookup] in Hs.
    + assert (s = si) by congruence. subst. exact Hg.
    + apply (IH _ i (collide_bullet_rand_ok bullet s Hg) Hs).
Qed.

Lemma kept_or_off_sublist l l' :
  Forall2 bullet_kept_or_off l l' ->
  sublist (List.filter Bullet.active l') (List.filter Bullet.active l).
Proof.
  induction 1 as [|b b' l l' Hb Hl IH]; cbn [List.filter]; [constructor|].
  destruct Hb as [->|[Ha ->]].
  - destruct (Bullet.active b); [constructor|]; exact IH.
  - rewrite Ha. cbn [List.filter]. constructor. exact IH.
Qed.

Lemma bullet_update_was_active dt b :
  Bullet.active (Bullet.update dt b) = true -> Bullet.active b = true.
Proof.
  unfold Bullet.update. cbv zeta.
  destruct (fgt _ _); [discriminate 1|]. intros Ha. exact Ha.
Qed.

Lemma moved_bullets_sublist dt l :
  sublist (List.filter Bullet.active (map (update_bullet dt) l))
          (map (Bullet.update dt) (List.filter Bullet.active l)).
Proof.
  induction l as [|b l IH]; cbn [map List.filter]; [constructor|].
  destruct (Bullet.active b) eqn:Ha; cbn [map].
  - replace (update_bullet dt b) with (Bullet.update dt b)
      by (unfold update_bullet; rewrite Ha; reflexivity).
    destruct (Bullet.active (Bullet.update dt b)); constructor; exact IH.
  - replace (update_bullet dt b) with b
      by (unfold update_bullet; rewrite Ha; reflexivity).
    rewrite Ha. exact IH.
Qed.

Lemma update_bullets_eq dt e g :
  bullets (fst (update dt e g)) =
  List.filter Bullet.active
    (fst (collide_loop (map (update_bullet dt) (bullets e))
            (mk_pass (map (update_bubble dt) (bubbles e)) (bubblesDestroyed e) 0 g))).
Proof.
  unfold update, checkCollisions, advance. cbv zeta.
  destruct e as [bs bl t n m].
  cbn [bubbles bullets gameTime bubblesDestroyed set_bubbles set_bullets set_gameTime].
  destruct (collide_loop _ _) as [bl' s]. reflexivity.
Qed.

Lemma update_bubbles_eq dt e g :
  bubbles (fst (update dt e g)) =
  List.filter Bubble.active
    (pass_bubbles (snd (collide_loop (map (update_bullet dt) (bullets e))
            (mk_pass (map (update_bubble dt) (bubbles e)) (bubblesDestroyed e) 0 g)))).
Proof.
  unfold update, checkCollisions, advance. cbv zeta.
  destruct e as [bs bl t n m].
  cbn [bubbles bullets gameTime bubblesDestroyed set_bubbles set_bullets set_gameTime].
  destruct (collide_loop _ _) as [bl' s]. reflexivity.
Qed.

End PassTrace.

(** ** The frame loop: collisions and cleanup *)

Section Frame.
Context `{Platform}.
Import PhysicsEngine CollisionFacts.

(** C1.  [update] runs the collision pass once, on the state its object
    loops leave.  The pass takes the bullets in the order of the vector; the
    states it goes through are listed in [trace], the one each bullet finds
    and at the end the one the pass returns.  A bullet that is switched off,
    or overlaps no active bubble, changes nothing.  An active bullet stops
    at the first active bubble it overlaps (distance below the sum of the
    radii), in the order of the vector: that bullet and that bubble are
    switched off, and nothing else; both counters go up by one (as [int]s);
    [createExplosion] is run with the position and the radius of that bubble
    and appends its particles.  When the counter does not overflow, the
    returned count, the bullets switched off, the bubbles switched off and
    the increase of [bubblesDestroyed] are the same number. *)
Theorem collision_pass_pairs_one_to_one (e : PhysicsEngine.t) (g : rand_state) :
  let collisions := fst (fst (checkCollisions e g)) in
  let e' := snd (fst (checkCollisions e g)) in
  let g' := snd (checkCollisions e g) in
  (forall deltaTime,
     update deltaTime e g =
       (cleanup (snd (fst (checkCollisions (advance deltaTime e) g))),
        snd (checkCollisions (advance deltaTime e) g))) /\
  (exists trace : list pass,
     length trace = S (length (bullets e)) /\
     trace !! 0%nat = Some (mk_pass (bubbles e) (bubblesDestroyed e) 0 g) /\
     trace !! length (bullets e) =
       Some (mk_pass (bubbles e') (bubblesDestroyed e') collisions g') /\
     length (bullets e') = length (bullets e) /\
     gameTime e' = gameTime e /\
     speedMultiplier e' = speedMultiplier e /\
     forall (i : nat) bullet s,
       bullets e !! i = Some bullet -> trace !! i = Some s ->
       exists bullet' s',
         bullets e' !! i = Some bullet' /\ trace !! S i = Some s' /\
         ((Bullet.active bullet = false /\ bullet' = bullet /\ s' = s) \/
          (Bullet.active bullet = true /\
           (forall (j : nat) b, pass_bubbles s !! j = Some b ->
              Bubble.active b = true -> collides bullet b = false) /\
           bullet' = bullet /\ s' = s) \/
          (Bullet.active bullet = true /\
           exists (j : nat) b,
             pass_bubbles s !! j = Some b /\ Bubble.active b = true /\
             collides bullet b = true /\
             (forall (j' : nat) b', (j' < j)%nat -> pass_bubbles s !! j' = Some b' ->
                Bubble.active b' = true -> collides bullet b' = false) /\
             bullet' = Bullet.set_active false bullet /\
             pass_destroyed s' = int_wrap (pass_destroyed s + 1) /\
             pass_collisions s' = int_wrap (pass_collisions s + 1) /\
             (pass_bubbles s', pass_rand s') =
               createExplosion (Vector2D.x (Bubble.position b))
                 (Vector2D.y (Bubble.position b)) (Bubble.radius b)
                 (<[j := Bubble.set_active false b]> (pass_bubbles s)) (pass_rand s) /\
             pass_bubbles s' =
               <[j := Bubble.set_active false b]> (pass_bubbles s) ++
               explosion_particles (Vector2D.x (Bubble.position b))
                 (Vector2D.y (Bubble.position b)) (Bubble.radius b) (pass_rand s)))) /\
  (0 <= bubblesDestroyed e ->
   bubblesDestroyed e + Z.of_nat (length (bullets e)) <= INT_MAX ->
   exists k : nat,
     collisions = Z.of_nat k /\
     bubblesDestroyed e' = bubblesDestroyed e + Z.of_nat k /\
     inactive_bullets (bullets e') = (inactive_bullets (bullets e) + k)%nat /\
     inactive_bubbles (bubbles e') = (inactive_bubbles (bubbles e) + k)%nat /\
     Forall2 bullet_kept_or_off (bullets e) (bullets e') /\
     evolves (bubbles e) (bubbles e')).
Proof.
  cbv zeta. split; [intros deltaTime; apply update_eq|].
  rewrite checkCollisions_eq.
  set (s0 := mk_pass (bubbles e) (bubblesDestroyed e) 0 g).
  cbn [fst snd bubbles bullets gameTime bubblesDestroyed speedMultiplier
       set_bubblesDestroyed set_bullets set_bubbles].
  split.
  - exists (collide_trace (bullets e) s0).
    split; [apply collide_trace_length|].
    split; [apply collide_trace_head|].
    split; [rewrite collide_trace_last; destruct (snd (collide_loop (bullets e) s0));
            reflexivity|].
    split; [apply collide_loop_length|].
    split; [reflexivity|]. split; [reflexivity|].
    intros i bullet s Hi Hs.
    destruct (collide_trace_step (bullets e) s0 i bullet s Hi Hs) as [Hb' Hs'].
    exists (fst (collide_bullet bullet s)), (snd (collide_bullet bullet s)).
    split; [exact Hb'|]. split; [exact Hs'|].
    destruct (collide_bullet_spec bullet s)
      as [[Ha ->]|[(Ha & Hno & ->)|(Ha & j & b & Hj & Hb & Hc & Hfirst & ->)]];
      cbn [fst snd].
    + left. split; [exact Ha|]. split; reflexivity.
    + right; left. split; [exact Ha|]. split; [exact Hno|]. split; reflexivity.
    + right; right. split; [exact Ha|]. exists j, b.
      split; [exact Hj|]. split; [exact Hb|]. split; [exact Hc|]. split; [exact Hfirst|].
      cbn [pass_bubbles pass_destroyed pass_collisions pass_rand].
      split; [reflexivity|]. split; [reflexivity|]. split; [reflexivity|].
      split; [rewrite createExplosion_eq; reflexivity | reflexivity].
  - intros Hd0 Hd1.
    destruct (collide_loop_counts (bullets e) s0) as (k & _ & _ & Hbl & Hbb & Hde & Hco);
      cbn [s0 pass_destroyed pass_collisions]; try lia.
    pose proof (collide_loop_bullets (bullets e) s0) as Hkept.
    pose proof (collide_loop_evolves (bullets e) s0) as Hev.
    exists k. cbn [s0 pass_bubbles pass_destroyed pass_collisions] in *.
    split; [exact Hco|]. split; [exact Hde|]. split; [exact Hbl|].
    split; [exact Hbb|]. split; [exact Hkept | exact Hev].
Qed.

(** C5.  [update] ends with [cleanup], run once on what the collision pass
    leaves: afterwards both vectors hold active objects only, namely the
    active objects of that state in their old order. *)
Theorem update_leaves_only_active (deltaTime : float32) (e : PhysicsEngine.t)
    (g : rand_state) :
  let e2 := snd (fst (checkCollisions (advance deltaTime e) g)) in
  let e' := fst (update deltaTime e g) in
  e' = cleanup e2 /\
  Forall (fun b => Bubble.active b = true) (bubbles e') /\
  Forall (fun b => Bullet.active b = true) (bullets e') /\
  bubbles e' = List.filter Bubble.active (bubbles e2) /\
  bullets e' = List.filter Bullet.active (bullets e2) /\
  sublist (bubbles e') (bubbles e2) /\
  sublist (bullets e') (bullets e2) /\
  (forall b, b ∈ bubbles e2 -> Bubble.active b = true -> b ∈ bubbles e') /\
  (forall b, b ∈ bullets e2 -> Bullet.active b = true -> b ∈ bullets e').
Proof.
  cbv zeta. unfold update.
  destruct (checkCollisions (advance deltaTime e) g) as [[c e2] g'].
  cbn [fst snd]. unfold cleanup.
  cbn [bubbles bullets set_bubbles set_bullets].
  assert (Hsub : forall A (f : A -> bool) l, sublist (List.filter f l) l).
  { intros A f l. induction l as [|a l IH]; cbn [List.filter]; [constructor|].
    destruct (f a); [apply sublist_skip | apply sublist_cons]; exact IH. }
  repeat split; auto.
  - apply Forall_forall. intros b Hb. apply list_elem_of_In, List.filter_In in Hb. tauto.
  - apply Forall_forall. intros b Hb. apply list_elem_of_In, List.filter_In in Hb. tauto.
  - intros b Hb Ha. apply list_elem_of_In, List.filter_In.
    split; [apply list_elem_of_In|]; assumption.
  - intros b Hb Ha. apply list_elem_of_In, List.filter_In.
    split; [apply list_elem_of_In|]; assumption.
Qed.

(** C6.  Take a bullet and a bubble that are both active when the collision
    pass of [update] begins.  In the state the pass leaves, they are not
    both still active and overlapping; and the objects [update] returns are
    exactly the active ones of that state. *)
Theorem collision_pass_leaves_no_overlap (deltaTime : float32)
    (e : PhysicsEngine.t) (g : rand_state) (i j : nat)
    (bullet : Bullet.t) (bubble : Bubble.t) :
  let e1 := advance deltaTime e in
  let e2 := snd (fst (checkCollisions e1 g)) in
  bullets e1 !! i = Some bullet -> Bullet.active bullet = true ->
  bubbles e1 !! j = Some bubble -> Bubble.active bubble = true ->
  fst (update deltaTime e g) = cleanup e2 /\
  exists bullet' bubble',
    bullets e2 !! i = Some bullet' /\ bubbles e2 !! j = Some bubble' /\
    bullet_kept_or_off bullet bullet' /\ bubble_kept_or_off bubble bubble' /\
    ~ (Bullet.active bullet' = true /\ Bubble.active bubble' = true /\
       collides bullet' bubble' = true).
Proof.
  cbv zeta. intros Hi Hbl Hj Hbb. unfold update.
  set (e1 := advance deltaTime e) in *.
  unfold checkCollisions.
  set (s0 := mk_pass (bubbles e1) (bubblesDestroyed e1) 0 g).
  pose proof (collide_loop_bullets (bullets e1) s0) as Hkept.
  pose proof (collide_loop_evolves (bullets e1) s0) as Hev.
  pose proof (collide_loop_resolved (bullets e1) s0 i j) as Hres.
  destruct (collide_loop (bullets e1) s0) as [bl s]. cbn [fst snd] in *.
  cbn [bubbles bullets set_bubblesDestroyed set_bullets set_bubbles].
  split; [reflexivity|].
  destruct (Forall2_lookup_l _ _ _ _ _ Hkept Hi) as (bullet' & Hi' & Hk1).
  destruct Hev as [Hlen Hev]. cbn [s0 pass_bubbles] in Hev, Hlen, Hres.
  destruct (Hev j bubble Hj) as (bubble' & Hj' & Hk2).
  exists bullet', bubble'. repeat split; auto.
  intros (Ha1 & Ha2 & Hc).
  rewrite (Hres bullet' bubble' Hi' Ha1 (lookup_lt_Some _ _ _ Hj) Hj' Ha2) in Hc.
  discriminate.
Qed.

End Frame.

(** ** Bubbles: their update, the speed multiplier, and who can remove them *)

Section Bubbles.
Context `{Platform}.
Import PhysicsEngine CollisionFacts.

Lemma filter_all_true {A} (f : A -> bool) (l : list A) :
  Forall (fun a => f a = true) l -> List.filter f l = l.
Proof.
  induction 1 as [|a l Ha _ IH]; cbn [List.filter]; [reflexivity|].
  rewrite Ha, IH. reflexivity.
Qed.

Lemma bubble_update_active deltaTime b :
  Bubble.active (Bubble.update deltaTime b) = Bubble.active b.
Proof. reflexivity. Qed.

Lemma spawn_one_active canvasWidth g :
  Bubble.active (fst (spawn_one canvasWidth g)) = true.
Proof. reflexivity. Qed.

Lemma spawn_loop_active canvasWidth n bs g :
  Forall (fun b => Bubble.active b = true) bs ->
  Forall (fun b => Bubble.active b = true) (fst (spawn_loop canvasWidth n bs g)).
Proof.
  revert bs g. induction n as [|n IH]; intros bs g Hbs; cbn [spawn_loop]; [exact Hbs|].
  pose proof (spawn_one_active canvasWidth g) as Hb.
  destruct (spawn_one canvasWidth g) as [b g']. apply IH.
  apply Forall_app. split; [exact Hbs|]. constructor; [exact Hb | constructor].
Qed.

Lemma checkCollisions_no_bullets e g :
  bullets e = [] -> checkCollisions e g = (0, e, g).
Proof.
  intros Hb. unfold checkCollisions. rewrite Hb. cbn [collide_loop].
  destruct e; cbn in *. subst. reflexivity.
Qed.

Lemma checkCollisions_bullets_nil e g :
  bullets (snd (fst (checkCollisions e g))) = [] -> bullets e = [].
Proof.
  unfold checkCollisions.
  pose proof (collide_loop_bullets (bullets e)
                (mk_pass (bubbles e) (bubblesDestroyed e) 0 g)) as Hk.
  destruct (collide_loop _ _) as [bl s]. cbn [fst snd bullets set_bubblesDestroyed set_bullets] in *.
  intros ->. inversion Hk. reflexivity.
Qed.

Lemma run_bubbles_safe c e g : bubbles_safe e -> bubbles_safe (fst (run c e g)).
Proof.
  unfold bubbles_safe. intros Hinv.
  destruct c as [n w | dt | x y r s col | x y a | | m | x y a s n]; cbn [run].
  - unfold initialize. cbn [bubbles set_bullets set_bubbles].
    pose proof (spawn_loop_active w (Z.to_nat n) [] g (Forall_nil_2 _)) as Hs.
    destruct (spawn_loop w (Z.to_nat n) [] g) as [bs g']. intros _. exact Hs.
  - unfold update. destruct (checkCollisions (advance dt e) g) as [[c e2] g'].
    cbn [fst]. intros _. unfold cleanup. cbn [bubbles set_bubbles set_bullets].
    apply Forall_forall. intros b Hb. apply list_elem_of_In, List.filter_In in Hb. tauto.
  - cbn [fst addBubble bullets bubbles set_bubbles]. intros Hb.
    apply Forall_app. split; [auto|]. constructor; [reflexivity | constructor].
  - cbn [fst shootBullet bullets set_bullets]. intros Hb.
    destruct (bullets e); discriminate.
  - pose proof (checkCollisions_bullets_nil e g) as Hnil.
    pose proof (checkCollisions_no_bullets e g) as Hsame.
    destruct (checkCollisions e g) as [[c e'] g']. cbn [fst snd] in *.
    intros Hb. specialize (Hnil Hb). specialize (Hsame Hnil).
    injection Hsame as _ -> _. auto.
  - cbn [fst setSpeedMultiplier bullets bubbles set_bubbles set_speedMultiplier].
    intros Hb. apply Forall_map. specialize (Hinv Hb).
    eapply Forall_impl; [exact Hinv|]. intros b Hact. exact Hact.
  - cbn [predictTrajectory fst]. exact Hinv.
Qed.

Lemma run_all_bubbles_safe cs e g :
  bubbles_safe e -> bubbles_safe (fst (run_all cs e g)).
Proof.
  unfold run_all. revert e g. induction cs as [|c cs IH]; intros e g Hinv; cbn [fold_left].
  - exact Hinv.
  - cbn [fst snd]. pose proof (run_bubbles_safe c e g Hinv) as H1.
    destruct (run c e g) as [e1 g1]. apply IH. exact H1.
Qed.

Lemma reachable_bubbles_safe e : reachable e -> bubbles_safe e.
Proof.
  intros (cs & g & <-). apply run_all_bubbles_safe.
  intros _. constructor.
Qed.

(** C10.  In a state the host can reach, with no bullet in the vector,
    [update] switches off and removes no bubble: [Bubble::update] never
    touches the flag, every bubble is active, and the vector after the frame
    is the old one with every bubble updated, of the same length. *)
Theorem update_without_bullets_keeps_bubbles (e : PhysicsEngine.t)
    (deltaTime : float32) (g : rand_state) :
  reachable e -> bullets e = [] ->
  (forall dt b, Bubble.active (Bubble.update dt b) = Bubble.active b) /\
  Forall (fun b => Bubble.active b = true) (bubbles e) /\
  bubbles (fst (update deltaTime e g)) = map (Bubble.update deltaTime) (bubbles e) /\
  length (bubbles (fst (update deltaTime e g))) = length (bubbles e) /\
  bullets (fst (update deltaTime e g)) = [] /\
  bubblesDestroyed (fst (update deltaTime e g)) = bubblesDestroyed e /\
  snd (update deltaTime e g) = g.
Proof.
  intros Hreach Hb. pose proof (reachable_bubbles_safe e Hreach Hb) as Hall.
  split; [intros; reflexivity|]. split; [exact Hall|].
  unfold update.
  assert (Hb1 : bullets (advance deltaTime e) = []).
  { unfold advance. cbn [bullets set_bullets set_bubbles set_gameTime]. rewrite Hb. reflexivity. }
  rewrite (checkCollisions_no_bullets _ g Hb1). cbn [fst snd].
  unfold cleanup. cbn [bubbles bullets set_bubbles set_bullets].
  rewrite Hb1.
  assert (Hbs : List.filter Bubble.active (bubbles (advance deltaTime e)) =
                map (Bubble.update deltaTime) (bubbles e)).
  { unfold advance. cbn [bubbles set_bullets set_bubbles set_gameTime].
    rewrite filter_all_true.
    - apply map_ext_in. intros b Hin. unfold update_bubble.
      rewrite Forall_forall in Hall. rewrite (Hall b) by (apply list_elem_of_In; exact Hin).
      reflexivity.
    - apply Forall_map. eapply Forall_impl; [exact Hall|].
      intros b Hact. unfold update_bubble. rewrite Hact. exact Hact. }
  rewrite Hbs. repeat split; auto.
  - rewrite length_map. reflexivity.
Qed.

(** C7.  [Bubble::update] first adds [0.1f * deltaTime * speed] to
    [velocity.y], then assigns [sin(position.y * 0.01f) * 0.5f] to
    [velocity.x], computed from the position before the move, and finally
    moves the position by the new velocity times [deltaTime].  The old
    [velocity.x] has no influence on the result, and nothing else changes. *)
Theorem bubble_update_steps (deltaTime : float32) (b : Bubble.t) :
  let vy' := fadd (Vector2D.y (Bubble.velocity b))
                  (fmul (fmul (lit 1 10) deltaTime) (Bubble.speed b)) in
  let vx' := fmul (sinf (fmul (Vector2D.y (Bubble.position b)) (lit 1 100))) (lit 5 10) in
  let b' := Bubble.update deltaTime b in
  Bubble.velocity b' = Vector2D.mk vx' vy' /\
  Bubble.position b' =
    Vector2D.mk (fadd (Vector2D.x (Bubble.position b)) (fmul vx' deltaTime))
                (fadd (Vector2D.y (Bubble.position b)) (fmul vy' deltaTime)) /\
  Bubble.radius b' = Bubble.radius b /\
  Bubble.active b' = Bubble.active b /\
  Bubble.colorIndex b' = Bubble.colorIndex b /\
  Bubble.speed b' = Bubble.speed b /\
  Bubble.isSpecial b' = Bubble.isSpecial b /\
  (forall v, Bubble.update deltaTime (Bubble.set_velocity_x v b) = b') /\
  b' = Bubble.with_base (GameObject.update deltaTime)
         (Bubble.set_velocity_x vx' (Bubble.set_velocity_y vy' b)).
Proof.
  cbv zeta. repeat split; reflexivity.
Qed.

Lemma run_ignores_multiplier c e1 e2 g :
  same_but_multiplier e1 e2 ->
  same_but_multiplier (fst (run c e1 g)) (fst (run c e2 g)) /\
  snd (run c e1 g) = snd (run c e2 g).
Proof.
  destruct e1 as [bs1 bl1 t1 d1 m1], e2 as [bs2 bl2 t2 d2 m2].
  intros (Hbs & Hbl & Ht & Hd). cbn in Hbs, Hbl, Ht, Hd. subst bs2 bl2 t2 d2.
  unfold same_but_multiplier.
  destruct c as [n w | dt | x y r s col | x y a | | m | x y a s n]; cbn [run].
  - unfold initialize. cbn [bubbles set_bullets set_bubbles].
    destruct (spawn_loop w (Z.to_nat n) [] g) as [bs g']. cbn. auto.
  - unfold update, advance, checkCollisions.
    cbn [bubbles bullets gameTime bubblesDestroyed set_bullets set_bubbles set_gameTime].
    destruct (collide_loop _ _) as [bl s]. cbn. auto.
  - cbn. auto.
  - cbn. auto.
  - unfold checkCollisions. cbn [bubbles bullets bubblesDestroyed].
    destruct (collide_loop _ _) as [bl s]. cbn. auto.
  - cbn. auto.
  - cbn. auto.
Qed.

(** C8.  [setSpeedMultiplier(m)] multiplies the speed of every bubble in the
    vector by [m] and sets its [velocity.y] to the new speed, whatever it had
    accumulated; a bubble added afterwards has the speed it is given and
    velocity [(0, speed)]; and no call reads the stored multiplier: engines
    that differ in it only behave alike. *)
Theorem setSpeedMultiplier_scales_present_bubbles_only (m : float32)
    (e : PhysicsEngine.t) :
  (length (bubbles (setSpeedMultiplier m e)) = length (bubbles e) /\
   forall (i : nat) b, bubbles e !! i = Some b ->
     exists b', bubbles (setSpeedMultiplier m e) !! i = Some b' /\
       Bubble.speed b' = fmul (Bubble.speed b) m /\
       Bubble.velocity b' =
         Vector2D.mk (Vector2D.x (Bubble.velocity b)) (fmul (Bubble.speed b) m) /\
       Bubble.position b' = Bubble.position b /\
       Bubble.radius b' = Bubble.radius b /\
       Bubble.active b' = Bubble.active b /\
       Bubble.colorIndex b' = Bubble.colorIndex b /\
       Bubble.isSpecial b' = Bubble.isSpecial b) /\
  bullets (setSpeedMultiplier m e) = bullets e /\
  speedMultiplier (setSpeedMultiplier m e) = m /\
  (forall x y radius speed color,
     let b := Bubble.new x y radius speed color in
     bubbles (addBubble x y radius speed color (setSpeedMultiplier m e)) =
       bubbles (setSpeedMultiplier m e) ++ [b] /\
     Bubble.speed b = speed /\
     Bubble.velocity b = Vector2D.mk (of_int 0) speed) /\
  (forall c e1 e2 g, same_but_multiplier e1 e2 ->
     same_but_multiplier (fst (run c e1 g)) (fst (run c e2 g)) /\
     snd (run c e1 g) = snd (run c e2 g)).
Proof.
  split; [split|].
  - unfold setSpeedMultiplier. cbn [bubbles set_bubbles set_speedMultiplier].
    apply length_map.
  - intros i b Hi. unfold setSpeedMultiplier. cbn [bubbles set_bubbles set_speedMultiplier].
    change (map ?f ?l) with (f <$> l). rewrite list_lookup_fmap, Hi.
    eexists. split; [reflexivity|]. repeat split; reflexivity.
  - split; [reflexivity|]. split; [reflexivity|]. split.
    + intros x y radius speed color. cbv zeta. repeat split; reflexivity.
    + apply run_ignores_multiplier.
Qed.

End Bubbles.

(** ** Bullets: distance travelled and the end of their range *)

Section Bullets.
Context `{Platform}.
Import PhysicsEngine CollisionFacts F32Facts.



Lemma bullet_update_range dt b :
  fgt (Bullet.distanceTraveled (Bullet.update dt b))
      (Bullet.maxDistance (Bullet.update dt b)) = true ->
  Bullet.active (Bullet.update dt b) = false.
Proof.
  unfold Bullet.update.
  set (b2 := Bullet.set_distanceTraveled _ _).
  destruct (fgt (Bullet.distanceTraveled b2) (Bullet.maxDistance b2)) eqn:Hgt.
  - intros _. reflexivity.
  - intros Hgt'. congruence.
Qed.
















End Bullets.

(** ** Random spawns: explosions and the initial bubbles *)

Section Random.
Context `{Platform}.
Import PhysicsEngine CollisionFacts F32Facts.

Lemma rand_unit_range r :
  0 < RAND_MAX <= INT_MAX -> 0 <= r <= RAND_MAX ->
  exists u, rand_unit r = Fin false u /\ 0 <= u <= scale /\ representable u.
Proof.
  unfold INT_MAX. intros HM Hr. unfold rand_unit.
  assert (Hr' : 0 <= r <= 2147483647) by lia.
  assert (HM' : 0 <= RAND_MAX <= 2147483647) by lia.
  destruct (of_int_nonneg r Hr') as (-> & Ha & _).
  destruct (of_int_nonneg RAND_MAX HM') as (-> & Hb & _).
  pose proof scale_pos as Hs.
  assert (Hscale : representable scale) by representable_const.
  assert (Hge : scale <= rne (RAND_MAX * scale) 1)
    by (apply rne_ge; [assumption | lia | nia]).
  assert (Hmono : rne (r * scale) 1 <= rne (RAND_MAX * scale) 1)
    by (apply rne_mono_num; [nia | lia]).
  apply fdiv_unit; lia.
Qed.

Lemma lit_values :
  lit 2 1 = Fin false (2 * scale) /\ lit 3 1 = Fin false (3 * scale) /\
  lit 5 1 = Fin false (5 * scale) /\ lit 12 1 = Fin false (12 * scale) /\
  lit 8 1 = Fin false (8 * scale) /\ lit 20 1 = Fin false (20 * scale) /\
  lit 1 1 = Fin false scale /\ lit 15 10 = Fin false (3 * 2 ^ 148) /\
  lit 25 10 = Fin false (5 * 2 ^ 148) /\ lit 40 1 = Fin false (40 * scale).
Proof. vm_compute. repeat split; reflexivity. Qed.

(** [base + rand()/RAND_MAX * width] lies between [base] and [base + width]. *)
Lemma scaled_rand_range kb kc r :
  0 < RAND_MAX <= INT_MAX -> 0 <= r <= RAND_MAX ->
  representable kb -> representable kc -> representable (kb + kc) ->
  kb + kc < overflow_threshold ->
  exists w, fadd (Fin false kb) (fmul (rand_unit r) (Fin false kc)) = Fin false w /\
            kb <= w <= kb + kc /\ representable w.
Proof.
  intros HM Hr Hkb Hkc Hsum Hlt.
  destruct (rand_unit_range r HM Hr) as (u & -> & Hu & _).
  apply affine_range; assumption.
Qed.

Lemma particle_speed_range r :
  0 < RAND_MAX <= INT_MAX -> 0 <= r <= RAND_MAX ->
  let speed := fadd (lit 2 1) (fmul (rand_unit r) (lit 3 1)) in
  fle (lit 2 1) speed = true /\ fle speed (lit 5 1) = true.
Proof.
  intros HM Hr. cbv zeta.
  destruct lit_values as (-> & -> & -> & _).
  destruct (scaled_rand_range (2 * scale) (3 * scale) r HM Hr) as (w & -> & Hw & _);
    try representable_const; try reflexivity.
  split; apply fle_ord; try reflexivity; cbn [ord signed]; lia.
Qed.

(** [createExplosion(x, y, radius)] appends 6 plus [rand() % 4] particles,
    between 6 and 9, all at [(x, y)], of radius [radius * 0.3f] and colour
    4; particle [i] of [count] has its own speed [2 + rand()/RAND_MAX * 3],
    between 2.0 and 5.0 with both ends included, the angle
    [2 * PI * i / count] and the velocity
    [(cos(angle) * speed, sin(angle) * speed)] in place of the fall
    velocity. *)
Lemma createExplosion_shape (x y radius : float32) (bs : list Bubble.t)
    (g : rand_state) :
  0 < RAND_MAX <= INT_MAX -> rand_ok g ->
  let particles := explosion_particles x y radius g in
  let count := 6 + Z.rem (fst (rand g)) 4 in
  createExplosion x y radius bs g = (bs ++ particles, rand_skip (S (length particles)) g) /\
  Z.of_nat (length particles) = count /\
  6 <= count <= 9 /\
  forall (i : nat) p, particles !! i = Some p ->
    let speed := fadd (lit 2 1)
                   (fmul (rand_unit (rand_outputs g (S i + rand_pos g))) (lit 3 1)) in
    let angle := fdiv (fmul (fmul (lit 2 1) PI) (of_int (Z.of_nat i))) (of_int count) in
    Bubble.position p = Vector2D.mk x y /\
    Bubble.radius p = fmul radius (lit 3 10) /\
    Bubble.colorIndex p = 4 /\
    Bubble.speed p = speed /\
    fle (lit 2 1) speed = true /\ fle speed (lit 5 1) = true /\
    Bubble.velocity p = Vector2D.mk (fmul (cosf angle) speed) (fmul (sinf angle) speed) /\
    Bubble.active p = true /\
    Bubble.isSpecial p = false.
Proof.
  intros HM Hg. cbv zeta.
  assert (Hrem : 0 <= Z.rem (fst (rand g)) 4 < 4).
  { apply Z.rem_bound_pos; [|lia]. cbn [rand fst]. apply Hg. }
  assert (Hlen : length (explosion_particles x y radius g)
                 = Z.to_nat (6 + Z.rem (fst (rand g)) 4)).
  { unfold explosion_particles. rewrite length_map, length_seq. reflexivity. }
  split; [rewrite createExplosion_eq, Hlen; reflexivity|].
  split; [rewrite Hlen; lia|]. split; [lia|].
  intros i p Hi. unfold explosion_particles in Hi.
  change (map ?f ?l) with (f <$> l) in Hi.
  rewrite list_lookup_fmap in Hi.
  destruct (seq 0 _ !! i) as [k|] eqn:Hk; [|discriminate].
  apply lookup_seq in Hk. destruct Hk as [Hk _]. cbn [Nat.add] in Hk. subst k.
  cbn [fmap option_fmap option_map] in Hi.
  assert (Hp : p = fst (particle x y radius (6 + Z.rem (fst (rand g)) 4)
                          (Z.of_nat i) (rand_skip (S i) g))) by congruence.
  clear Hi. subst p.
  assert (Hr : 0 <= rand_outputs g (S i + rand_pos g) <= RAND_MAX) by apply Hg.
  destruct (particle_speed_range _ HM Hr) as [Hlo Hhi].
  split; [reflexivity|]. split; [reflexivity|]. split; [reflexivity|].
  split; [reflexivity|]. split; [exact Hlo|]. split; [exact Hhi|].
  split; [reflexivity|]. split; reflexivity.
Qed.

(** C4, as the code has it.  In the collision pass ([trace] lists its
    states, the one each bullet finds and at the end the one the pass
    returns) a bullet that destroys no bubble leaves the bubbles and the
    random generator as they are.  Whenever a bullet destroys a bubble [b]
    (the first active bubble it overlaps), the vector becomes the old one
    with [b] switched off, followed by the particles [createExplosion]
    appends for it: 6 plus [rand() % 4] of them, between 6 and 9, all at the
    position of [b], of radius [0.3f] times the radius of [b] and colour 4,
    particle [m] with its own speed [2 + rand()/RAND_MAX * 3], between 2.0
    and 5.0 with both ends included, the angle [2 * PI * m / count] and the
    velocity [(cos(angle) * speed, sin(angle) * speed)] in place of the
    fall velocity. *)
Theorem explosion_particles_shape (e : PhysicsEngine.t) (g : rand_state) :
  0 < RAND_MAX <= INT_MAX -> rand_ok g ->
  let e' := snd (fst (checkCollisions e g)) in
  let g' := snd (checkCollisions e g) in
  exists trace : list pass,
    length trace = S (length (bullets e)) /\
    trace !! 0%nat = Some (mk_pass (bubbles e) (bubblesDestroyed e) 0 g) /\
    (exists last, trace !! length (bullets e) = Some last /\
       pass_bubbles last = bubbles e' /\ pass_rand last = g') /\
    forall (i : nat) bullet s,
      bullets e !! i = Some bullet -> trace !! i = Some s ->
      ((Bullet.active bullet = false \/
        (forall (j : nat) b, pass_bubbles s !! j = Some b ->
           Bubble.active b = true -> collides bullet b = false)) /\
       trace !! S i = Some s) \/
      (Bullet.active bullet = true /\
       exists (j : nat) b particles s',
         pass_bubbles s !! j = Some b /\ Bubble.active b = true /\
         collides bullet b = true /\
         (forall (j' : nat) b', (j' < j)%nat -> pass_bubbles s !! j' = Some b' ->
            Bubble.active b' = true -> collides bullet b' = false) /\
         trace !! S i = Some s' /\
         pass_bubbles s' = <[j := Bubble.set_active false b]> (pass_bubbles s) ++ particles /\
         pass_rand s' = rand_skip (S (length particles)) (pass_rand s) /\
         createExplosion (Vector2D.x (Bubble.position b)) (Vector2D.y (Bubble.position b))
           (Bubble.radius b) (<[j := Bubble.set_active false b]> (pass_bubbles s))
           (pass_rand s) = (pass_bubbles s', pass_rand s') /\
         let count := 6 + Z.rem (fst (rand (pass_rand s))) 4 in
         Z.of_nat (length particles) = count /\
         6 <= count <= 9 /\
         forall (m : nat) p, particles !! m = Some p ->
           let speed :=
             fadd (lit 2 1)
                  (fmul (rand_unit (rand_outputs (pass_rand s) (S m + rand_pos (pass_rand s))))
                        (lit 3 1)) in
           let angle :=
             fdiv (fmul (fmul (lit 2 1) PI) (of_int (Z.of_nat m))) (of_int count) in
           Bubble.position p = Bubble.position b /\
           Bubble.radius p = fmul (Bubble.radius b) (lit 3 10) /\
           Bubble.colorIndex p = 4 /\
           Bubble.speed p = speed /\
           fle (lit 2 1) speed = true /\ fle speed (lit 5 1) = true /\
           Bubble.velocity p =
             Vector2D.mk (fmul (cosf angle) speed) (fmul (sinf angle) speed) /\
           Bubble.active p = true /\
           Bubble.isSpecial p = false).
Proof.
  intros HM Hg. cbv zeta. rewrite checkCollisions_eq.
  set (s0 := mk_pass (bubbles e) (bubblesDestroyed e) 0 g).
  cbn [fst snd bubbles set_bubblesDestroyed set_bullets set_bubbles].
  exists (collide_trace (bullets e) s0).
  split; [apply collide_trace_length|].
  split; [apply collide_trace_head|].
  split.
  { exists (snd (collide_loop (bullets e) s0)).
    split; [apply collide_trace_last|]. split; reflexivity. }
  intros i bullet s Hi Hs.
  destruct (collide_trace_step (bullets e) s0 i bullet s Hi Hs) as [_ Hs'].
  pose proof (collide_trace_rand_ok (bullets e) s0 i s Hg Hs) as Hgs.
  destruct (collide_bullet_spec bullet s)
    as [[Ha Heq]|[(Ha & Hno & Heq)|(Ha & j & b & Hj & Hb & Hc & Hfirst & Heq)]];
    rewrite Heq in Hs'; cbn [snd] in Hs'.
  - left. split; [left; exact Ha | exact Hs'].
  - left. split; [right; exact Hno | exact Hs'].
  - right. split; [exact Ha|].
    destruct (createExplosion_shape (Vector2D.x (Bubble.position b))
                (Vector2D.y (Bubble.position b)) (Bubble.radius b)
                (<[j := Bubble.set_active false b]> (pass_bubbles s)) (pass_rand s) HM Hgs)
      as (Hce & Hlen & Hcount & Hshape).
    eexists j, b, _, _.
    split; [exact Hj|]. split; [exact Hb|]. split; [exact Hc|]. split; [exact Hfirst|].
    split; [exact Hs'|]. cbn [pass_bubbles pass_rand].
    split; [reflexivity|].
    split; [rewrite explosion_particles_length; reflexivity|].
    split; [rewrite Hce, explosion_particles_length; reflexivity|].
    split; [exact Hlen|]. split; [exact Hcount|].
    intros m p Hm. destruct (Hshape m p Hm) as (Hpos & Hrest).
    split; [|exact Hrest].
    rewrite Hpos. destruct (Bubble.position b); reflexivity.
Qed.

Lemma spawn_one_rand canvasWidth g :
  snd (spawn_one canvasWidth g) = rand_skip 5 g.
Proof. reflexivity. Qed.

(** The loop of [initialize] in closed form. *)
Lemma spawn_loop_eq canvasWidth n bs g :
  spawn_loop canvasWidth n bs g =
  (bs ++ map (fun k : nat => fst (spawn_one canvasWidth (rand_skip (5 * k) g))) (seq 0 n),
   rand_skip (5 * n) g).
Proof.
  revert bs g. induction n as [|n IH]; intros bs g.
  - cbn [spawn_loop seq map]. rewrite app_nil_r. destruct g; reflexivity.
  - cbn [spawn_loop].
    destruct (spawn_one canvasWidth g) as [b g'] eqn:Hb.
    rewrite IH.
    assert (Hg' : g' = rand_skip 5 g) by (rewrite <- (spawn_one_rand canvasWidth g), Hb; reflexivity).
    subst g'. rewrite rand_skip_skip. replace (5 * n + 5)%nat with (5 * S n)%nat by lia.
    f_equal. rewrite <- app_assoc. f_equal. cbn [seq map app].
    f_equal.
    + replace (rand_skip (5 * 0) g) with g by (destruct g; reflexivity).
      rewrite Hb. reflexivity.
    + rewrite <- seq_shift, map_map. apply map_ext. intros k.
      rewrite rand_skip_skip.
      replace (5 * k + 5)%nat with (5 * S k)%nat by lia. reflexivity.
Qed.

(** What one round of [initialize] builds out of five random numbers. *)
Lemma spawn_one_range canvasWidth g :
  0 < RAND_MAX <= INT_MAX -> rand_ok g ->
  wf canvasWidth -> is_finite canvasWidth = true -> fle (lit 40 1) canvasWidth = true ->
  spawned_in_range canvasWidth (fst (spawn_one canvasWidth g)).
Proof.
  intros HM Hg Hwf Hfin H40. unfold spawned_in_range, spawn_one.
  cbn [rand fst snd rand_outputs rand_pos].
  set (r1 := rand_outputs g (rand_pos g)).
  set (r2 := rand_outputs g (S (rand_pos g))).
  set (r3 := rand_outputs g (S (S (rand_pos g)))).
  set (r4 := rand_outputs g (S (S (S (rand_pos g))))).
  set (r5 := rand_outputs g (S (S (S (S (rand_pos g)))))).
  assert (H1 : 0 <= r1 <= RAND_MAX) by apply Hg.
  assert (H2 : 0 <= r2 <= RAND_MAX) by apply Hg.
  assert (H3 : 0 <= r3 <= RAND_MAX) by apply Hg.
  assert (H4 : 0 <= r4 <= RAND_MAX) by apply Hg.
  assert (H5 : 0 <= r5 <= RAND_MAX) by apply Hg.
  cbn [Bubble.radius Bubble.position Bubble.velocity Bubble.speed Bubble.colorIndex
       Bubble.active Bubble.new Bubble.set_velocity_y Bubble.with_base Bubble.base
       GameObject.new GameObject.set_velocity GameObject.radius GameObject.position
       GameObject.velocity GameObject.active Vector2D.x Vector2D.y].
  destruct lit_values as (_ & _ & _ & L12 & L8 & L20 & L1 & L15 & L25 & L40).
  pose proof scale_pos as Hs.
  (* radius *)
  destruct (scaled_rand_range (12 * scale) (8 * scale) r1 HM H1) as (kr & Hrad & Hkr & Hrr);
    try representable_const; try reflexivity.
  rewrite L12, L8, Hrad. clear Hrad.
  (* speed *)
  destruct (scaled_rand_range scale (3 * 2 ^ 148) r4 HM H4) as (ks & Hsp & Hks & _);
    try representable_const; try reflexivity.
  rewrite L1, L15, Hsp. clear Hsp.
  (* canvas width *)
  rewrite L40 in H40. apply fle_inv in H40. destruct H40 as (_ & _ & H40).
  destruct canvasWidth as [| sc | sc kcw];
    [cbn [is_finite] in Hfin; discriminate Hfin
    |cbn [is_finite] in Hfin; discriminate Hfin |].
  cbn [wf] in Hwf. destruct Hwf as [Hrc Hclt].
  assert (Hkcw : 0 <= kcw) by apply Hrc.
  cbn [ord signed] in H40.
  assert (sc = false) as -> by (destruct sc; [cbn [signed] in H40; lia | reflexivity]).
  cbn [signed] in H40.
  destruct (rand_unit_range r2 HM H2) as (u2 & -> & Hu2 & _).
  destruct (rand_unit_range r3 HM H3) as (u3 & -> & Hu3 & _).
  pose proof (spread_range kr kcw u2 Hrr ltac:(change (20 * scale) with (12 * scale + 8 * scale); lia)
                Hrc Hclt H40 Hu2) as Hx.
  pose proof (drop_range kr u3 Hrr ltac:(change (20 * scale) with (12 * scale + 8 * scale); lia) Hu3) as Hy.
  cbv zeta in Hx, Hy. destruct Hx as [Hx1 Hx2], Hy as [Hy1 Hy2].
  rewrite L20, L25.
  assert (Hcol : 0 <= Z.rem r5 5 < 5) by (apply Z.rem_bound_pos; lia).
  assert (H25 : scale + 3 * 2 ^ 148 = 5 * 2 ^ 148) by reflexivity.
  repeat split; auto; try lia;
    try (apply fle_ord; try reflexivity; cbn [ord signed]; lia).
Qed.

(** C9, as the code has it.  For a count that is not negative, a finite canvas width of
    at least 40 and every sequence of random numbers, [initialize] empties
    both vectors, sets [gameTime] and [bubblesDestroyed] to zero and appends
    exactly [bubbleCount] bubbles, each with radius in [12, 20], [x] between
    [radius] and [radius + (canvasWidth - 2 * radius)], [y] between
    [-radius - 100] and [-radius], speed in [1.0, 2.5] (all intervals with
    both ends included, in float arithmetic) and a colour among 0..4. *)
Theorem initialize_spawns_bubbles_in_range (bubbleCount : Z) (canvasWidth : float32)
    (e : PhysicsEngine.t) (g : rand_state) :
  0 < RAND_MAX <= INT_MAX -> rand_ok g -> 0 <= bubbleCount ->
  wf canvasWidth -> is_finite canvasWidth = true -> fle (lit 40 1) canvasWidth = true ->
  let e' := fst (initialize bubbleCount canvasWidth e g) in
  bullets e' = [] /\
  gameTime e' = of_int 0 /\
  bubblesDestroyed e' = 0 /\
  Z.of_nat (length (bubbles e')) = bubbleCount /\
  Forall (spawned_in_range canvasWidth) (bubbles e') /\
  snd (initialize bubbleCount canvasWidth e g) = rand_skip (5 * Z.to_nat bubbleCount) g.
Proof.
  intros HM Hg Hn Hwf Hfin H40. cbv zeta. unfold initialize.
  cbn [bubbles set_bullets set_bubbles]. rewrite spawn_loop_eq. cbn [app].
  cbn [fst snd bullets gameTime bubblesDestroyed bubbles set_bubblesDestroyed
       set_gameTime set_bubbles set_bullets].
  repeat split; auto.
  - rewrite length_map, length_seq. lia.
  - apply Forall_map, Forall_forall. intros k _.
    apply spawn_one_range; auto.
Qed.

(** ** Trajectory prediction *)

Lemma trajectory_loop_length vx vy n x y :
  length (trajectory_loop vx vy n x y) = n.
Proof.
  revert x y. induction n as [|n IH]; intros x y; cbn [trajectory_loop length]; auto.
Qed.

Lemma trajectory_loop_step vx vy n x y (i : nat) p p' :
  trajectory_loop vx vy n x y !! i = Some p ->
  trajectory_loop vx vy n x y !! S i = Some p' ->
  p' = mk_point (fadd (point_x p) (fmul vx (lit 16 1000)))
                (fadd (point_y p) (fmul vy (lit 16 1000))).
Proof.
  revert x y i. induction n as [|n IH]; intros x y i; cbn [trajectory_loop].
  - rewrite lookup_nil. discriminate.
  - destruct i as [|i]; cbn [lookup list_lookup].
    + intros [= <-]. destruct n as [|n]; cbn [trajectory_loop]; [discriminate|].
      cbn. intros [= <-]. reflexivity.
    + apply IH.
Qed.

Lemma trajectory_loop_head vx vy n x y :
  (0 < n)%nat -> trajectory_loop vx vy n x y !! 0%nat = Some (mk_point x y).
Proof. destruct n; [lia|]. reflexivity. Qed.

(** C3, as the code has it.  [predictTrajectory] leaves the engine and the random
    generator as they are and its result depends on its arguments only: the
    array has [steps] points (none when [steps] is negative), the first is
    the start, and each next point adds the velocity
    [(cos(angle) * speed, -sin(angle) * speed)] times the constant [0.016f].
    With [cos(0) = 1] and [sin(0) = 0], [predictTrajectory(0,0,0,10,5)]
    is five points with [y = 0] whose [x] grows by [10 * 0.016f] per step. *)
Theorem predictTrajectory_straight_line (startX startY angle speed : float32)
    (steps : Z) (e : PhysicsEngine.t) (g : rand_state) :
  cosf (of_int 0) = lit 1 1 -> sinf (of_int 0) = of_int 0 ->
  let vx := fmul (cosf angle) speed in
  let vy := fmul (fneg (sinf angle)) speed in
  let trajectory := fst (fst (predictTrajectory startX startY angle speed steps e g)) in
  snd (fst (predictTrajectory startX startY angle speed steps e g)) = e /\
  snd (predictTrajectory startX startY angle speed steps e g) = g /\
  (forall e' g',
     fst (fst (predictTrajectory startX startY angle speed steps e' g')) = trajectory) /\
  length trajectory = Z.to_nat steps /\
  (0 < steps -> trajectory !! 0%nat = Some (mk_point startX startY)) /\
  (forall (i : nat) p p', trajectory !! i = Some p -> trajectory !! S i = Some p' ->
     p' = mk_point (fadd (point_x p) (fmul vx (lit 16 1000)))
                   (fadd (point_y p) (fmul vy (lit 16 1000)))) /\
  (let step := fmul (lit 10 1) (lit 16 1000) in
   let x1 := step in
   let x2 := fadd x1 step in
   let x3 := fadd x2 step in
   let x4 := fadd x3 step in
   fst (fst (predictTrajectory (of_int 0) (of_int 0) (of_int 0) (lit 10 1) 5 e g)) =
     [mk_point (of_int 0) (of_int 0); mk_point x1 (of_int 0); mk_point x2 (of_int 0);
      mk_point x3 (of_int 0); mk_point x4 (of_int 0)]).
Proof.
  intros Hcos Hsin. cbv zeta. unfold predictTrajectory. cbn [fst snd].
  repeat split; auto.
  - apply trajectory_loop_length.
  - intros Hs. apply trajectory_loop_head. lia.
  - apply trajectory_loop_step.
  - rewrite Hcos, Hsin. vm_compute. reflexivity.
Qed.

End Random.

(** ** More of the code: vectors, queries, and what a frame does to the counts *)

Module VectorFacts.
Import F32Facts.

Lemma signed_negb s k : signed (negb s) k = - signed s k.
Proof. destruct s; cbn [signed negb]; lia. Qed.

Lemma round_square s s' n d :
  fmul (round s n d) (round s n d) = fmul (round s' n d) (round s' n d).
Proof.
  unfold round. destruct (overflow_threshold <=? rne n d); cbn [fmul];
    rewrite !xorb_nilpotent; reflexivity.
Qed.

(** The square of a difference does not depend on the order of the operands,
    NaN and the infinities included. *)
Lemma fsub_square_swap a b :
  fmul (fsub a b) (fsub a b) = fmul (fsub b a) (fsub b a).
Proof.
  unfold fsub.
  destruct a as [| s1 | s1 k1], b as [| s2 | s2 k2]; cbn [fneg fadd]; try reflexivity.
  - destruct s1, s2; reflexivity.
  - cbn [fmul]. rewrite !xorb_nilpotent. reflexivity.
  - cbn [fmul]. rewrite !xorb_nilpotent. reflexivity.
  - cbv zeta. rewrite !signed_negb.
    replace (Z.abs (signed s2 k2 + - signed s1 k1))
      with (Z.abs (signed s1 k1 + - signed s2 k2)) by lia.
    apply round_square.
Qed.

Lemma fadd_comm a b : fadd a b = fadd b a.
Proof.
  destruct a as [| s1 | s1 k1], b as [| s2 | s2 k2]; cbn [fadd]; try reflexivity.
  - destruct s1, s2; reflexivity.
  - cbv zeta. rewrite (Z.add_comm (signed s2 k2)), (andb_comm s2). reflexivity.
Qed.

Lemma fsub_self_finite s k : fsub (Fin s k) (Fin s k) = Fin false 0.
Proof.
  unfold fsub. cbn [fneg fadd]. cbv zeta. rewrite signed_negb.
  replace (signed s k + - signed s k) with 0 by lia.
  cbn [Z.eqb Z.abs]. rewrite andb_negb_r. reflexivity.
Qed.

Lemma fmul_one x : wf x -> fmul x (lit 1 1) = x.
Proof.
  change (lit 1 1) with (Fin false scale).
  destruct x as [| s | s k]; cbn [wf fmul]; intros Hwf.
  - reflexivity.
  - cbn. rewrite xorb_false_r. reflexivity.
  - destruct Hwf as [Hr Hlt]. rewrite xorb_false_r.
    destruct (round_fin s (k * scale) scale k Hr Hlt) as (-> & _ & _);
      [destruct Hr; pose proof scale_pos; nia | reflexivity | lia |].
    rewrite rne_id; [reflexivity | assumption | reflexivity].
Qed.

(** Adding a value [>= 0] to a finite float never gives less. *)
Lemma fadd_ge x p :
  wf x -> is_finite x = true -> nonneg p -> fle x (fadd x p) = true.
Proof.
  intros Hwf Hfin Hp. destruct x as [| s | s k]; try discriminate Hfin.
  destruct Hwf as [Hr Hlt]. assert (Hk : 0 <= k) by apply Hr.
  pose proof overflow_threshold_pos as Hthr.
  destruct p as [| sp | sp kp]; cbn [nonneg] in Hp; [tauto | |].
  - subst sp. cbn [fadd]. apply fle_ord; try reflexivity.
    cbn [ord]. destruct s; cbn [signed]; lia.
  - destruct Hp as [Hkp Hsp].
    assert (Hvp : signed sp kp = kp)
      by (destruct sp; cbn [signed]; [rewrite Hsp by reflexivity|]; lia).
    cbn [fadd]. cbv zeta. rewrite Hvp.
    apply fle_ord; [reflexivity | apply round_not_nan |].
    cbn [ord]. destruct s; cbn [signed].
    + (* x = -k *)
      destruct (Z.le_gt_cases kp k) as [Hle|Hgt].
      * (* the sum stays <= 0 *)
        replace (Z.abs (- k + kp)) with (k - kp) by lia.
        set (sg := if - k + kp =? 0 then true && sp else - k + kp <? 0).
        pose proof (rne_le k (k - kp) 1 Hr ltac:(lia) ltac:(lia) ltac:(lia)) as Hle'.
        pose proof (rne_nonneg (k - kp) 1 ltac:(lia) ltac:(lia)) as Hnn.
        destruct (round_cases sg (k - kp) 1 ltac:(lia) ltac:(lia)) as [[-> _]|[-> Hov]];
          cbn [ord]; [|lia].
        destruct sg; cbn [signed]; lia.
      * replace (Z.abs (- k + kp)) with (kp - k) by lia.
        replace (- k + kp =? 0) with false by (symmetry; apply Z.eqb_neq; lia).
        replace (- k + kp <? 0) with false by (symmetry; apply Z.ltb_ge; lia).
        pose proof (rne_nonneg (kp - k) 1 ltac:(lia) ltac:(lia)) as Hnn.
        destruct (round_cases false (kp - k) 1 ltac:(lia) ltac:(lia)) as [[-> _]|[-> _]];
          cbn [ord signed]; lia.
    + rewrite Z.abs_eq by lia.
      set (sg := if k + kp =? 0 then false && sp else k + kp <? 0).
      assert (Hsg : sg = false).
      { unfold sg. destruct (Z.eqb_spec (k + kp) 0); [reflexivity|].
        apply Z.ltb_ge. lia. }
      rewrite Hsg.
      pose proof (ord_round_ge false k (k + kp) 1 Hr Hlt ltac:(lia) ltac:(lia)) as Hge.
      exact Hge.
Qed.

End VectorFacts.

(** ** [Vector2D]: sums, lengths and distances *)

Section Vectors.
Import PhysicsEngine F32Facts VectorFacts.

Lemma of_int_0 : of_int 0 = Fin false 0.
Proof. vm_compute. reflexivity. Qed.

Lemma fadd_nan_r x : fadd x NaN = NaN.
Proof. destruct x; reflexivity. Qed.

Lemma nonneg_not_nan x : nonneg x -> is_nan x = false.
Proof. intros Hx. apply (nonneg_ord x Hx). Qed.

Lemma sum_squares_nonneg a b :
  is_nan a = false -> is_nan b = false -> nonneg (fadd (fmul a a) (fmul b b)).
Proof.
  intros Ha Hb.
  apply (fadd_nonneg (fmul a a) (fmul b b) (fmul_self_wf a)
           (fmul_self_nonneg a Ha) (fmul_self_nonneg b Hb)).
Qed.

Lemma fmul_nan_self a : is_nan a = true -> fmul a a = NaN.
Proof. destruct a; [reflexivity | discriminate 1 | discriminate 1]. Qed.

(** The root of a sum of two squares is NaN exactly when one of the two
    numbers is, and compares [>= 0] otherwise. *)
Lemma norm_cases a b :
  is_nan (fsqrt (fadd (fmul a a) (fmul b b))) = is_nan a || is_nan b /\
  (is_nan a || is_nan b = false -> nonneg (fsqrt (fadd (fmul a a) (fmul b b)))).
Proof.
  destruct (is_nan a) eqn:Ha.
  { rewrite (fmul_nan_self a Ha). split; [reflexivity | discriminate 1]. }
  destruct (is_nan b) eqn:Hb.
  { rewrite (fmul_nan_self b Hb), fadd_nan_r. split; [reflexivity | discriminate 1]. }
  pose proof (fsqrt_nonneg _ (sum_squares_nonneg a b Ha Hb)) as Hn.
  split; [exact (nonneg_not_nan _ Hn) | intros _; exact Hn].
Qed.

(** X1.  [distanceTo] does not depend on which of the two points it is called
    on, for all floats (NaN and the infinities included); the test of the
    collision pass, which computes the distance in line, is that distance
    compared with the sum of the radii, measured from either object. *)
Theorem distanceTo_symmetric (a b : Vector2D.t) :
  Vector2D.distanceTo a b = Vector2D.distanceTo b a /\
  forall bullet bubble,
    collides bullet bubble =
      flt (Vector2D.distanceTo (Bubble.position bubble) (Bullet.position bullet))
          (fadd (Bullet.radius bullet) (Bubble.radius bubble)).
Proof.
  assert (Hsym : forall a b, Vector2D.distanceTo a b = Vector2D.distanceTo b a).
  { intros u v. unfold Vector2D.distanceTo. cbv zeta.
    rewrite (fsub_square_swap (Vector2D.x u)), (fsub_square_swap (Vector2D.y u)).
    reflexivity. }
  split; [apply Hsym|].
  intros bullet bubble. rewrite Hsym. reflexivity.
Qed.

(** X2.  [length] and [distanceTo] return NaN exactly when a component (a
    difference of components) is NaN; in every other case the result
    compares [>= 0]: it is never negative, and minus zero only for a zero
    vector. *)
Theorem length_is_nan_or_not_negative (v w : Vector2D.t) :
  (is_nan (Vector2D.length v) = is_nan (Vector2D.x v) || is_nan (Vector2D.y v)) /\
  (is_nan (Vector2D.length v) = false ->
     nonneg (Vector2D.length v) /\ fle (of_int 0) (Vector2D.length v) = true) /\
  (is_nan (Vector2D.distanceTo v w) =
     is_nan (fsub (Vector2D.x v) (Vector2D.x w)) ||
     is_nan (fsub (Vector2D.y v) (Vector2D.y w))) /\
  (is_nan (Vector2D.distanceTo v w) = false ->
     nonneg (Vector2D.distanceTo v w) /\
     fle (of_int 0) (Vector2D.distanceTo v w) = true).
Proof.
  unfold Vector2D.length, Vector2D.distanceTo. cbv zeta.
  destruct (norm_cases (Vector2D.x v) (Vector2D.y v)) as [Hl1 Hl2].
  destruct (norm_cases (fsub (Vector2D.x v) (Vector2D.x w))
              (fsub (Vector2D.y v) (Vector2D.y w))) as [Hd1 Hd2].
  split; [exact Hl1|]. split.
  { intros Hn. rewrite Hl1 in Hn. split; [|apply fle_nonneg]; exact (Hl2 Hn). }
  split; [exact Hd1|].
  intros Hn. rewrite Hd1 in Hn. split; [|apply fle_nonneg]; exact (Hd2 Hn).
Qed.

Lemma length_zero s1 s2 :
  Vector2D.length (Vector2D.mk (Fin s1 0) (Fin s2 0)) = Fin false 0.
Proof. destruct s1, s2; vm_compute; reflexivity. Qed.

Lemma fgt_zero_zero : fgt (Fin false 0) (of_int 0) = false.
Proof. vm_compute. reflexivity. Qed.

Lemma fgt_inf_zero : fgt (Inf false) (of_int 0) = true.
Proof. vm_compute. reflexivity. Qed.

Lemma fadd_inf_nonneg y : nonneg y -> fadd (Inf false) y = Inf false.
Proof.
  destruct y as [|s|s k]; cbn [nonneg]; [tauto | intros -> | intros _]; reflexivity.
Qed.

Lemma fadd_nonneg_inf x : nonneg x -> fadd x (Inf false) = Inf false.
Proof. intros Hx. rewrite fadd_comm. apply fadd_inf_nonneg, Hx. Qed.

(** X3.  [normalized] returns the zero vector, and divides nothing, when the
    length does not compare [> 0]: for a zero vector (of either sign) and
    for a vector with a NaN component.  A vector with an infinite
    component, [x] or [y], and the other not NaN has the length plus
    infinity: the infinite component becomes NaN, and the other, if finite,
    a zero of its own sign. *)
Theorem normalized_degenerate (v : Vector2D.t) :
  (is_nan (Vector2D.x v) || is_nan (Vector2D.y v) = true ->
     Vector2D.normalized v = Vector2D.mk (of_int 0) (of_int 0)) /\
  (forall s1 s2, v = Vector2D.mk (Fin s1 0) (Fin s2 0) ->
     Vector2D.normalized v = Vector2D.mk (of_int 0) (of_int 0)) /\
  (forall s, Vector2D.x v = Inf s -> is_nan (Vector2D.y v) = false ->
     Vector2D.length v = Inf false /\
     Vector2D.x (Vector2D.normalized v) = NaN /\
     (forall s' k, Vector2D.y v = Fin s' k ->
        Vector2D.y (Vector2D.normalized v) = Fin s' 0)) /\
  (forall s, Vector2D.y v = Inf s -> is_nan (Vector2D.x v) = false ->
     Vector2D.length v = Inf false /\
     Vector2D.y (Vector2D.normalized v) = NaN /\
     (forall s' k, Vector2D.x v = Fin s' k ->
        Vector2D.x (Vector2D.normalized v) = Fin s' 0)).
Proof.
  split; [|split; [|split]].
  - intros Hn. unfold Vector2D.normalized. cbv zeta.
    pose proof (proj1 (length_is_nan_or_not_negative v v)) as Hl.
    rewrite Hn in Hl. destruct (Vector2D.length v); try discriminate Hl.
    reflexivity.
  - intros s1 s2 ->. unfold Vector2D.normalized. cbv zeta.
    rewrite length_zero, fgt_zero_zero. reflexivity.
  - intros s Hx Hy.
    assert (Hlen : Vector2D.length v = Inf false).
    { unfold Vector2D.length. rewrite Hx.
      change (fmul (Inf s) (Inf s)) with (Inf (xorb s s)).
      rewrite xorb_nilpotent, (fadd_inf_nonneg _ (fmul_self_nonneg _ Hy)).
      reflexivity. }
    split; [exact Hlen|].
    unfold Vector2D.normalized. cbv zeta.
    rewrite Hlen, fgt_inf_zero. cbn [Vector2D.x Vector2D.y]. rewrite Hx.
    split; [reflexivity|].
    intros s' k ->. cbn [fdiv]. rewrite xorb_false_r. reflexivity.
  - intros s Hy Hx.
    assert (Hlen : Vector2D.length v = Inf false).
    { unfold Vector2D.length. rewrite Hy.
      change (fmul (Inf s) (Inf s)) with (Inf (xorb s s)).
      rewrite xorb_nilpotent, (fadd_nonneg_inf _ (fmul_self_nonneg _ Hx)).
      reflexivity. }
    split; [exact Hlen|].
    unfold Vector2D.normalized. cbv zeta.
    rewrite Hlen, fgt_inf_zero. cbn [Vector2D.x Vector2D.y]. rewrite Hy.
    split; [reflexivity|].
    intros s' k ->. cbn [fdiv]. rewrite xorb_false_r. reflexivity.
Qed.

(** X4.  [operator+] is commutative on all floats; [operator-] of a finite
    vector with itself is the zero vector with plus signs; [operator*] by
    [1.0f] returns the vector. *)
Theorem vector_operators (a b : Vector2D.t) :
  Vector2D.add a b = Vector2D.add b a /\
  (is_finite (Vector2D.x a) = true -> is_finite (Vector2D.y a) = true ->
     Vector2D.sub a a = Vector2D.mk (Fin false 0) (Fin false 0)) /\
  (wf (Vector2D.x a) -> wf (Vector2D.y a) -> Vector2D.mul a (lit 1 1) = a).
Proof.
  split; [|split].
  - unfold Vector2D.add.
    rewrite (fadd_comm (Vector2D.x a)), (fadd_comm (Vector2D.y a)). reflexivity.
  - intros Hx Hy. unfold Vector2D.sub.
    destruct (Vector2D.x a) as [| |sx kx]; try discriminate Hx.
    destruct (Vector2D.y a) as [| |sy ky]; try discriminate Hy.
    rewrite !fsub_self_finite. reflexivity.
  - intros Hx Hy. unfold Vector2D.mul.
    rewrite (fmul_one _ Hx), (fmul_one _ Hy). destruct a; reflexivity.
Qed.

(** X5.  A collision needs a sum of radii that compares [> 0] and a distance
    that is not NaN; a bullet on the very centre of a bubble (finite
    coordinates) collides exactly when the sum of the radii is [> 0]. *)
Theorem collision_needs_positive_reach (bullet : Bullet.t) (bubble : Bubble.t) :
  (collides bullet bubble = true ->
     flt (of_int 0) (fadd (Bullet.radius bullet) (Bubble.radius bubble)) = true /\
     is_nan (Vector2D.distanceTo (Bullet.position bullet) (Bubble.position bubble)) = false) /\
  (Bullet.position bullet = Bubble.position bubble ->
   is_finite (Vector2D.x (Bullet.position bullet)) = true ->
   is_finite (Vector2D.y (Bullet.position bullet)) = true ->
   collides bullet bubble =
     flt (of_int 0) (fadd (Bullet.radius bullet) (Bubble.radius bubble))).
Proof.
  split.
  - intros Hc.
    change (collides bullet bubble) with
      (flt (Vector2D.distanceTo (Bullet.position bullet) (Bubble.position bubble))
           (fadd (Bullet.radius bullet) (Bubble.radius bubble))) in Hc.
    set (d := Vector2D.distanceTo _ _) in *.
    set (r := fadd _ _) in *.
    unfold flt in Hc. apply andb_prop in Hc as [Hc Hlt]. apply andb_prop in Hc as [Hd Hr].
    apply negb_true_iff in Hd. apply negb_true_iff in Hr.
    split; [|exact Hd].
    destruct (proj2 (proj2 (proj2
      (length_is_nan_or_not_negative (Bullet.position bullet) (Bubble.position bubble)))) Hd)
      as [Hnn _].
    fold d in Hnn. destruct (nonneg_ord d Hnn) as [_ Hord].
    unfold flt. rewrite Hr, of_int_0. cbn [is_nan negb andb ord signed].
    apply Z.ltb_lt. apply Z.ltb_lt in Hlt. lia.
  - intros Hpos Hx Hy.
    change (collides bullet bubble) with
      (flt (Vector2D.distanceTo (Bullet.position bullet) (Bubble.position bubble))
           (fadd (Bullet.radius bullet) (Bubble.radius bubble))).
    rewrite <- Hpos. unfold Vector2D.distanceTo. cbv zeta.
    destruct (Vector2D.x (Bullet.position bullet)) as [| |sx kx]; try discriminate Hx.
    destruct (Vector2D.y (Bullet.position bullet)) as [| |sy ky]; try discriminate Hy.
    rewrite !fsub_self_finite, of_int_0.
    replace (fsqrt (fadd (fmul (Fin false 0) (Fin false 0)) (fmul (Fin false 0) (Fin false 0))))
      with (Fin false 0) by (vm_compute; reflexivity).
    reflexivity.
Qed.

End Vectors.

(** ** The queries of the renderer *)

Section Queries.
Context `{Platform}.
Import PhysicsEngine CollisionFacts F32Facts.

Lemma fold_select {A B} (p : A -> bool) (f : A -> B) (l : list A) (acc : list B) :
  fold_left (fun result a => if p a then result ++ [f a] else result) l acc =
  acc ++ map f (List.filter p l).
Proof.
  revert acc. induction l as [|a l IH]; intros acc; cbn [fold_left List.filter map].
  - rewrite app_nil_r. reflexivity.
  - rewrite IH. destruct (p a); cbn [map]; [rewrite <- app_assoc|]; reflexivity.
Qed.

Lemma getBubbleData_eq e :
  getBubbleData e = map bubble_record (List.filter Bubble.active (bubbles e)).
Proof. unfold getBubbleData. rewrite fold_select. reflexivity. Qed.

Lemma getBulletData_eq e :
  getBulletData e = map bullet_object (List.filter Bullet.active (bullets e)).
Proof. unfold getBulletData. rewrite fold_select. reflexivity. Qed.

Lemma getBubblesAtBottom_eq h e :
  getBubblesAtBottom h e = map bubble_object (List.filter (at_bottom h) (bubbles e)).
Proof. unfold getBubblesAtBottom. rewrite fold_select. reflexivity. Qed.

Lemma reached_bottom_loop_existsb h bs :
  reached_bottom_loop h bs = existsb (at_bottom h) bs.
Proof.
  induction bs as [|b bs IH]; cbn [reached_bottom_loop existsb]; [reflexivity|].
  rewrite IH. destruct (at_bottom h b); reflexivity.
Qed.

Lemma filter_length_le {A} (p : A -> bool) (l : list A) :
  (length (List.filter p l) <= length l)%nat.
Proof.
  induction l as [|a l IH]; cbn [List.filter length]; [lia|].
  destruct (p a); cbn [length]; lia.
Qed.

Lemma filter_filter_same {A} (p : A -> bool) (l : list A) :
  List.filter p (List.filter p l) = List.filter p l.
Proof.
  induction l as [|a l IH]; cbn [List.filter]; [reflexivity|].
  destruct (p a) eqn:Hp; cbn [List.filter]; [rewrite Hp, IH|]; auto.
Qed.

Lemma filter_Forall_true {A} (p : A -> bool) (l : list A) :
  Forall (fun a => p a = true) (List.filter p l).
Proof.
  induction l as [|a l IH]; cbn [List.filter]; [constructor|].
  destruct (p a) eqn:Hp; [constructor; assumption | assumption].
Qed.

Lemma sublist_map {A B} (f : A -> B) (l1 l2 : list A) :
  sublist l1 l2 -> sublist (map f l1) (map f l2).
Proof. induction 1; cbn [map]; constructor; assumption. Qed.

Lemma sublist_filter_weaker {A} (p q : A -> bool) (l : list A) :
  (forall a, p a = true -> q a = true) ->
  sublist (List.filter p l) (List.filter q l).
Proof.
  intros Hpq. induction l as [|a l IH]; cbn [List.filter]; [constructor|].
  destruct (p a) eqn:Hp.
  - rewrite (Hpq a Hp). constructor. exact IH.
  - destruct (q a); [constructor|]; exact IH.
Qed.

Lemma int_wrap_id z : - 2 ^ 31 <= z <= INT_MAX -> int_wrap z = z.
Proof.
  unfold int_wrap, INT_MAX. change (2 ^ 31) with 2147483648.
  change (2 ^ 32) with 4294967296. intros Hz.
  rewrite Z.mod_small by lia. lia.
Qed.

(** X6.  [getBubblesAtBottom] lists, in the order of [getBubbleData], the
    [x], [y] and [radius] of some of its entries: the active bubbles whose
    [y] exceeds [canvasHeight - 10].  None of the three arrays is longer
    than the vector it reads, and a switched-off object is in none. *)
Theorem bottom_bubbles_among_bubble_data (canvasHeight : float32) (e : PhysicsEngine.t) :
  sublist (getBubblesAtBottom canvasHeight e)
          (map (fun d => mk_object_data (bd_x d) (bd_y d) (bd_radius d)) (getBubbleData e)) /\
  (length (getBubblesAtBottom canvasHeight e) <= length (getBubbleData e))%nat /\
  (length (getBubbleData e) <= length (bubbles e))%nat /\
  (length (getBulletData e) <= length (bullets e))%nat /\
  (forall d, d ∈ getBubbleData e <->
     exists b, b ∈ bubbles e /\ Bubble.active b = true /\ d = bubble_record b) /\
  (forall d, d ∈ getBulletData e <->
     exists b, b ∈ bullets e /\ Bullet.active b = true /\ d = bullet_object b) /\
  (forall d, d ∈ getBubblesAtBottom canvasHeight e <->
     exists b, b ∈ bubbles e /\ Bubble.active b = true /\
       fgt (Vector2D.y (Bubble.position b)) (fsub canvasHeight (of_int 10)) = true /\
       d = bubble_object b).
Proof.
  rewrite getBubbleData_eq, getBulletData_eq, getBubblesAtBottom_eq.
  assert (Hsub : sublist (List.filter (at_bottom canvasHeight) (bubbles e))
                         (List.filter Bubble.active (bubbles e))).
  { apply sublist_filter_weaker. intros a Ha. unfold at_bottom in Ha.
    apply andb_prop in Ha. tauto. }
  split.
  { rewrite map_map. change (fun x => _) with bubble_object.
    apply sublist_map, Hsub. }
  split.
  { rewrite !length_map. apply sublist_length, Hsub. }
  split; [rewrite length_map; apply filter_length_le|].
  split; [rewrite length_map; apply filter_length_le|].
  split; [|split]; intros d; rewrite list_elem_of_In, in_map_iff.
  - split.
    + intros (b & <- & Hb). apply filter_In in Hb as [Hb Ha].
      exists b. rewrite list_elem_of_In. auto.
    + intros (b & Hb & Ha & ->). exists b. split; [reflexivity|].
      apply filter_In. rewrite <- list_elem_of_In. auto.
  - split.
    + intros (b & <- & Hb). apply filter_In in Hb as [Hb Ha].
      exists b. rewrite list_elem_of_In. auto.
    + intros (b & Hb & Ha & ->). exists b. split; [reflexivity|].
      apply filter_In. rewrite <- list_elem_of_In. auto.
  - split.
    + intros (b & <- & Hb). apply filter_In in Hb as [Hb Ha].
      unfold at_bottom in Ha. apply andb_prop in Ha as [Ha Hy].
      exists b. rewrite list_elem_of_In. auto.
    + intros (b & Hb & Ha & Hy & ->). exists b. split; [reflexivity|].
      apply filter_In. rewrite <- list_elem_of_In. split; [assumption|].
      unfold at_bottom. rewrite Ha, Hy. reflexivity.
Qed.

(** X7.  [hasBubbleReachedBottom] answers true exactly when
    [getBubblesAtBottom] for the same height is not empty, that is when some
    active bubble has [y > canvasHeight - 10]; with no bubble it is false. *)
Theorem reached_bottom_iff_some_at_bottom (canvasHeight : float32) (e : PhysicsEngine.t) :
  (hasBubbleReachedBottom canvasHeight e = true <->
     getBubblesAtBottom canvasHeight e <> []) /\
  (hasBubbleReachedBottom canvasHeight e = true <->
     exists b, b ∈ bubbles e /\ Bubble.active b = true /\
       fgt (Vector2D.y (Bubble.position b)) (fsub canvasHeight (of_int 10)) = true) /\
  (bubbles e = [] -> hasBubbleReachedBottom canvasHeight e = false).
Proof.
  unfold hasBubbleReachedBottom.
  rewrite reached_bottom_loop_existsb, getBubblesAtBottom_eq.
  split; [|split].
  - induction (bubbles e) as [|b bs IH]; cbn [existsb List.filter].
    + split; [discriminate 1 | intros Hn; contradiction Hn; reflexivity].
    + destruct (at_bottom canvasHeight b); cbn [orb map].
      * split; [intros _; discriminate 1 | reflexivity].
      * exact IH.
  - rewrite existsb_exists. split.
    + intros (b & Hb & Ha). unfold at_bottom in Ha. apply andb_prop in Ha as [Ha Hy].
      exists b. rewrite list_elem_of_In. auto.
    + intros (b & Hb & Ha & Hy). exists b. rewrite <- list_elem_of_In.
      split; [assumption|]. unfold at_bottom. rewrite Ha, Hy. reflexivity.
  - intros ->. reflexivity.
Qed.

(** X8.  Inactive objects do not show in the arrays of the renderer, so
    [cleanup] changes none of them; it changes nothing at all when
    every object is active, and running it twice is running it once.  It
    touches neither the clock, the counter nor the multiplier. *)
Theorem cleanup_keeps_render_data (canvasHeight : float32) (e : PhysicsEngine.t) :
  getBubbleData (cleanup e) = getBubbleData e /\
  getBulletData (cleanup e) = getBulletData e /\
  getBubblesAtBottom canvasHeight (cleanup e) = getBubblesAtBottom canvasHeight e /\
  hasBubbleReachedBottom canvasHeight (cleanup e) = hasBubbleReachedBottom canvasHeight e /\
  cleanup (cleanup e) = cleanup e /\
  (all_active e -> cleanup e = e) /\
  gameTime (cleanup e) = gameTime e /\
  bubblesDestroyed (cleanup e) = bubblesDestroyed e /\
  speedMultiplier (cleanup e) = speedMultiplier e.
Proof.
  assert (Hbot : forall l,
    List.filter (at_bottom canvasHeight) (List.filter Bubble.active l) =
    List.filter (at_bottom canvasHeight) l).
  { induction l as [|b l IH]; cbn [List.filter]; [reflexivity|].
    unfold at_bottom at 2. destruct (Bubble.active b) eqn:Ha; cbn [List.filter andb].
    - unfold at_bottom at 1. rewrite Ha, IH. reflexivity.
    - exact IH. }
  rewrite !getBubbleData_eq, !getBulletData_eq, !getBubblesAtBottom_eq.
  unfold hasBubbleReachedBottom. rewrite !reached_bottom_loop_existsb.
  unfold cleanup. cbv zeta. destruct e as [bs bl t n m].
  cbn [bubbles bullets gameTime bubblesDestroyed speedMultiplier
       set_bubbles set_bullets].
  rewrite !filter_filter_same, Hbot.
  split; [reflexivity|]. split; [reflexivity|]. split; [reflexivity|].
  split.
  { clear Hbot. induction bs as [|b bs IH]; cbn [List.filter existsb]; [reflexivity|].
    destruct (Bubble.active b) eqn:Ha; cbn [existsb].
    - rewrite IH. reflexivity.
    - rewrite IH. unfold at_bottom at 2. rewrite Ha. reflexivity. }
  split; [reflexivity|].
  split; [|split; [reflexivity|split; reflexivity]].
  intros [Hb Hl]. cbn [bubbles bullets] in Hb, Hl.
  rewrite (filter_all_true Bubble.active bs Hb), (filter_all_true Bullet.active bl Hl).
  reflexivity.
Qed.

(** X9.  A bubble added with [addBubble] is the last entry of
    [getBubbleData], with the coordinates, radius, colour and speed it was
    given; the bullets, the clock and the counter stay, and a bubble has
    reached the bottom afterwards if one had before or the new one has. *)
Theorem addBubble_shows_in_bubble_data (x y radius speed : float32) (color : Z)
    (canvasHeight : float32) (e : PhysicsEngine.t) :
  let e' := addBubble x y radius speed color e in
  getBubbleData e' = getBubbleData e ++ [mk_bubble_data x y radius color speed] /\
  getBulletData e' = getBulletData e /\
  bubblesDestroyed e' = bubblesDestroyed e /\
  gameTime e' = gameTime e /\
  hasBubbleReachedBottom canvasHeight e' =
    hasBubbleReachedBottom canvasHeight e ||
    fgt y (fsub canvasHeight (of_int 10)).
Proof.
  cbv zeta. rewrite !getBubbleData_eq, !getBulletData_eq.
  unfold hasBubbleReachedBottom. rewrite !reached_bottom_loop_existsb.
  unfold addBubble. destruct e as [bs bl t n m].
  cbn [bubbles bullets gameTime bubblesDestroyed set_bubbles].
  rewrite List.filter_app, map_app, existsb_app.
  split; [reflexivity|]. split; [reflexivity|]. split; [reflexivity|].
  split; [reflexivity|].
  cbn [existsb]. rewrite orb_false_r. reflexivity.
Qed.

(** X10.  A bullet fired with [shootBullet] is the last entry of
    [getBulletData], at the point it was fired from and with radius 5;
    the bubbles, the clock and the counter stay. *)
Theorem shootBullet_shows_in_bullet_data (x y angle : float32) (e : PhysicsEngine.t) :
  let e' := shootBullet x y angle e in
  getBulletData e' = getBulletData e ++ [mk_object_data x y (of_int 5)] /\
  getBubbleData e' = getBubbleData e /\
  bubbles e' = bubbles e /\
  bubblesDestroyed e' = bubblesDestroyed e /\
  gameTime e' = gameTime e.
Proof.
  cbv zeta. rewrite !getBubbleData_eq, !getBulletData_eq.
  unfold shootBullet. destruct e as [bs bl t n m].
  cbn [bubbles bullets gameTime bubblesDestroyed set_bullets].
  rewrite List.filter_app, map_app.
  split; [reflexivity|]. split; [reflexivity|]. split; [reflexivity|].
  split; reflexivity.
Qed.

End Queries.

(** ** What a frame does to the two vectors *)

Section Frames.
Context `{Platform}.
Import PhysicsEngine CollisionFacts F32Facts.

Lemma first_hit_none bullet bs i :
  (forall b, b ∈ bs -> Bubble.active b = true -> collides bullet b = false) ->
  first_hit bullet bs i = None.
Proof.
  revert i. induction bs as [|b bs IH]; intros i Hno; cbn [first_hit]; [reflexivity|].
  destruct (Bubble.active b) eqn:Ha; cbn [negb].
  - rewrite (Hno b (list_elem_of_here b bs) Ha). apply IH.
    intros b' Hb'. apply Hno. apply list_elem_of_further, Hb'.
  - apply IH. intros b' Hb'. apply Hno. apply list_elem_of_further, Hb'.
Qed.

Lemma collide_loop_no_overlap bl s :
  (forall bullet b, bullet ∈ bl -> b ∈ pass_bubbles s ->
     Bullet.active bullet = true -> Bubble.active b = true ->
     collides bullet b = false) ->
  collide_loop bl s = (bl, s).
Proof.
  induction bl as [|bullet bl IH]; intros Hno; cbn [collide_loop]; [reflexivity|].
  assert (Hb : collide_bullet bullet s = (bullet, s)).
  { unfold collide_bullet. destruct (Bullet.active bullet) eqn:Ha; cbn [negb]; [|reflexivity].
    rewrite first_hit_none; [reflexivity|].
    intros b Hb Hab. apply (Hno bullet b); auto using list_elem_of_here. }
  rewrite Hb, IH; [reflexivity|].
  intros bullet' b Hin. apply Hno. apply list_elem_of_further, Hin.
Qed.

(** X11.  [checkCollisions] returns 0 and leaves the engine as it was, without
    a call of [rand()], exactly when no active bullet overlaps an active
    bubble: in particular when there is no bullet, when all bullets or all
    bubbles are switched off. *)
Theorem collision_pass_idle_iff_no_overlap (e : PhysicsEngine.t) (g : rand_state) :
  (checkCollisions e g = (0, e, g) <->
   forall bullet b, bullet ∈ bullets e -> b ∈ bubbles e ->
     Bullet.active bullet = true -> Bubble.active b = true ->
     collides bullet b = false) /\
  (Forall (fun b => Bullet.active b = false) (bullets e) \/
   Forall (fun b => Bubble.active b = false) (bubbles e) ->
   checkCollisions e g = (0, e, g)).
Proof.
  assert (Hidle : (forall bullet b, bullet ∈ bullets e -> b ∈ bubbles e ->
     Bullet.active bullet = true -> Bubble.active b = true ->
     collides bullet b = false) -> checkCollisions e g = (0, e, g)).
  { intros Hno. unfold checkCollisions.
    rewrite collide_loop_no_overlap by exact Hno.
    destruct e; reflexivity. }
  split; [split; [|exact Hidle]|].
  - intros Heq bullet b Hbullet Hb Ha Hab.
    apply list_elem_of_lookup in Hbullet as [i Hi].
    apply list_elem_of_lookup in Hb as [j Hj].
    unfold checkCollisions in Heq.
    pose proof (collide_loop_resolved (bullets e)
                  (mk_pass (bubbles e) (bubblesDestroyed e) 0 g) i j bullet b) as Hres.
    destruct (collide_loop (bullets e) (mk_pass (bubbles e) (bubblesDestroyed e) 0 g))
      as [bl s] eqn:Hloop.
    cbn [fst snd pass_bubbles] in Hres.
    assert (He : set_bubblesDestroyed (pass_destroyed s)
                   (set_bullets bl (set_bubbles (pass_bubbles s) e)) = e) by congruence.
    assert (Hbl : bl = bullets e) by (rewrite <- He; reflexivity).
    assert (Hbs : pass_bubbles s = bubbles e) by (rewrite <- He; reflexivity).
    rewrite Hbl, Hbs in Hres. apply Hres; auto.
    apply (lookup_lt_Some _ _ _ Hj).
  - intros [Hoff|Hoff]; apply Hidle; intros bullet b Hbullet Hb Ha Hab.
    + rewrite Forall_forall in Hoff. rewrite (Hoff bullet Hbullet) in Ha. discriminate Ha.
    + rewrite Forall_forall in Hoff. rewrite (Hoff b Hb) in Hab. discriminate Hab.
Qed.

(** X12.  [update] creates no bullet and changes none but by its own
    [Bullet::update]: the bullets it leaves are, in order, bullets that
    were active before, each moved once; a collision removes a bullet and
    alters no other.  The clock goes up by the frame time, and the
    multiplier stays. *)
Theorem update_only_moves_or_removes_bullets (deltaTime : float32)
    (e : PhysicsEngine.t) (g : rand_state) :
  let e' := fst (update deltaTime e g) in
  sublist (bullets e')
          (map (Bullet.update deltaTime) (List.filter Bullet.active (bullets e))) /\
  (length (bullets e') <= length (List.filter Bullet.active (bullets e)))%nat /\
  (length (bullets e') <= length (bullets e))%nat /\
  (forall b', b' ∈ bullets e' ->
     exists b, b ∈ bullets e /\ Bullet.active b = true /\
               b' = Bullet.update deltaTime b) /\
  gameTime e' = fadd (gameTime e) deltaTime /\
  speedMultiplier e' = speedMultiplier e.
Proof.
  cbv zeta.
  assert (Hsub : sublist (bullets (fst (update deltaTime e g)))
            (map (Bullet.update deltaTime) (List.filter Bullet.active (bullets e)))).
  { rewrite update_bullets_eq.
    etrans; [|apply moved_bullets_sublist].
    apply kept_or_off_sublist, collide_loop_bullets. }
  split; [exact Hsub|].
  pose proof (sublist_length _ _ Hsub) as Hlen. rewrite length_map in Hlen.
  split; [exact Hlen|].
  split; [pose proof (filter_length_le Bullet.active (bullets e)); lia|].
  split.
  { intros b' Hb'. pose proof (elem_of_sublist _ _ _ Hb' Hsub) as Hin.
    rewrite list_elem_of_In, in_map_iff in Hin. destruct Hin as (b & <- & Hb).
    apply filter_In in Hb as [Hb Ha]. exists b. rewrite list_elem_of_In. auto. }
  unfold update, checkCollisions, advance. cbv zeta.
  destruct e as [bs bl t n m].
  cbn [bubbles bullets gameTime bubblesDestroyed set_bubbles set_bullets set_gameTime].
  destruct (collide_loop _ _) as [bl' s]. split; reflexivity.
Qed.

End Frames.

(** ** Counting bubbles over a frame *)

Section Counts.
Context `{Platform}.
Import PhysicsEngine CollisionFacts F32Facts.

Lemma active_inactive_bubbles bs :
  (length (List.filter Bubble.active bs) + inactive_bubbles bs = length bs)%nat.
Proof.
  unfold inactive_bubbles. induction bs as [|b bs IH]; cbn [List.filter length]; [reflexivity|].
  destruct (Bubble.active b); cbn [negb List.filter length]; lia.
Qed.

Lemma active_bubbles_moved dt bs :
  length (List.filter Bubble.active (map (update_bubble dt) bs)) =
  length (List.filter Bubble.active bs).
Proof.
  induction bs as [|b bs IH]; cbn [map List.filter]; [reflexivity|].
  assert (Ha : Bubble.active (update_bubble dt b) = Bubble.active b).
  { unfold update_bubble. destruct (Bubble.active b) eqn:Hb; [|exact Hb].
    rewrite bubble_update_active. exact Hb. }
  rewrite Ha. destruct (Bubble.active b); cbn [length]; rewrite IH; reflexivity.
Qed.

(** One bullet of the pass: it stays as it is and so do the bubbles, or it
    is switched off and the active bubbles become 5 to 8 more (one off, 6 to
    9 particles on). *)
Lemma collide_bullet_growth bullet s :
  rand_ok (pass_rand s) ->
  rand_ok (pass_rand (snd (collide_bullet bullet s))) /\
  exists k : nat,
    ((k = 0%nat /\ Bullet.active (fst (collide_bullet bullet s)) = Bullet.active bullet) \/
     (k = 1%nat /\ Bullet.active bullet = true /\
      Bullet.active (fst (collide_bullet bullet s)) = false)) /\
    (length (List.filter Bubble.active (pass_bubbles s)) + 5 * k <=
       length (List.filter Bubble.active (pass_bubbles (snd (collide_bullet bullet s)))))%nat /\
    (length (List.filter Bubble.active (pass_bubbles (snd (collide_bullet bullet s)))) <=
       length (List.filter Bubble.active (pass_bubbles s)) + 8 * k)%nat.
Proof.
  intros Hg.
  destruct (collide_bullet_spec bullet s)
    as [[Ha ->]|[(Ha & _ & ->)|(Ha & i & b & Hi & Hb & _ & _ & ->)]]; cbn [fst snd].
  - split; [exact Hg|]. exists 0%nat. split; [left; auto|]. lia.
  - split; [exact Hg|]. exists 0%nat. split; [left; auto|]. lia.
  - cbn [pass_rand pass_bubbles]. split; [apply rand_ok_skip, Hg|].
    exists 1%nat. split; [right; auto|].
    rewrite List.filter_app, length_app.
    rewrite (filter_all_true Bubble.active (explosion_particles _ _ _ _)
               (explosion_particles_active _ _ _ _)).
    rewrite explosion_particles_length.
    pose proof (explosion_count_range (pass_rand s) Hg) as Hc.
    pose proof (active_inactive_bubbles (pass_bubbles s)) as H1.
    pose proof (active_inactive_bubbles
                  (<[i := Bubble.set_active false b]> (pass_bubbles s))) as H2.
    rewrite (inactive_bubbles_off _ _ _ Hi Hb), length_insert in H2.
    pose proof (lookup_lt_Some _ _ _ Hi) as Hlt.
    lia.
Qed.

Lemma collide_loop_growth bl s :
  rand_ok (pass_rand s) ->
  rand_ok (pass_rand (snd (collide_loop bl s))) /\
  exists k : nat,
    (length (List.filter Bullet.active (fst (collide_loop bl s))) + k =
       length (List.filter Bullet.active bl))%nat /\
    (length (List.filter Bubble.active (pass_bubbles s)) + 5 * k <=
       length (List.filter Bubble.active (pass_bubbles (snd (collide_loop bl s)))))%nat /\
    (length (List.filter Bubble.active (pass_bubbles (snd (collide_loop bl s)))) <=
       length (List.filter Bubble.active (pass_bubbles s)) + 8 * k)%nat.
Proof.
  revert s. induction bl as [|bullet bl IH]; intros s Hg; cbn [collide_loop].
  - cbn [fst snd List.filter length]. split; [exact Hg|]. exists 0%nat. lia.
  - destruct (collide_bullet_growth bullet s Hg) as (Hg1 & k1 & Hk1 & Hlo1 & Hhi1).
    destruct (collide_bullet bullet s) as [bullet' s1]. cbn [fst snd] in *.
    destruct (IH s1 Hg1) as (Hg2 & k2 & Hk2 & Hlo2 & Hhi2).
    destruct (collide_loop bl s1) as [bl' s2]. cbn [fst snd] in *.
    split; [exact Hg2|]. exists (k1 + k2)%nat.
    cbn [List.filter].
    destruct Hk1 as [[-> Ha]|(-> & Ha & Ha')].
    + rewrite Ha. destruct (Bullet.active bullet); cbn [length]; lia.
    + rewrite Ha, Ha'. cbn [length]. lia.
Qed.

(** X13.  Over one [update], with [rand()] returning values [>= 0]: if [k]
    bullets are lost to collisions, the bubbles left are the active bubbles
    of before and 5 to 8 more for each of the [k] (the bubble hit goes, its
    6 to 9 particles come); with no collision their number is that of the
    active bubbles. *)
Theorem update_bubble_count (deltaTime : float32) (e : PhysicsEngine.t)
    (g : rand_state) :
  rand_ok g ->
  let e' := fst (update deltaTime e g) in
  rand_ok (snd (update deltaTime e g)) /\
  exists k : nat,
    (length (bullets e') + k =
       length (List.filter Bullet.active (bullets (advance deltaTime e))))%nat /\
    (length (List.filter Bubble.active (bubbles e)) + 5 * k <= length (bubbles e'))%nat /\
    (length (bubbles e') <= length (List.filter Bubble.active (bubbles e)) + 8 * k)%nat.
Proof.
  intros Hg. cbv zeta.
  rewrite update_bubbles_eq, update_bullets_eq.
  pose proof (collide_loop_growth (map (update_bullet deltaTime) (bullets e))
                (mk_pass (map (update_bubble deltaTime) (bubbles e))
                   (bubblesDestroyed e) 0 g) Hg) as (Hg' & k & Hk & Hlo & Hhi).
  cbn [pass_bubbles] in Hlo, Hhi. rewrite active_bubbles_moved in Hlo, Hhi.
  split.
  - unfold update, checkCollisions, advance. cbv zeta.
    destruct e as [bs bl t n m].
    cbn [bubbles bullets gameTime bubblesDestroyed set_bubbles set_bullets set_gameTime] in *.
    destruct (collide_loop _ _) as [bl' s]. exact Hg'.
  - exists k.
    split; [|split; assumption].
    rewrite Hk. destruct e; reflexivity.
Qed.

Lemma update_all_active dt e g : all_active (fst (update dt e g)).
Proof.
  unfold all_active. rewrite update_bubbles_eq, update_bullets_eq.
  split; apply filter_Forall_true.
Qed.

(** X14.  After [update] every object left in the vectors is active, so the
    counts of [getStats] are the lengths of the arrays [getBubbleData] and
    [getBulletData] (vector sizes that fit an [int]). *)
Theorem stats_count_render_data_after_update (deltaTime : float32)
    (e : PhysicsEngine.t) (g : rand_state) :
  let e' := fst (update deltaTime e g) in
  Z.of_nat (length (bubbles e')) <= INT_MAX ->
  Z.of_nat (length (bullets e')) <= INT_MAX ->
  all_active e' /\
  bubblesCount (getStats e') = Z.of_nat (length (getBubbleData e')) /\
  bulletsCount (getStats e') = Z.of_nat (length (getBulletData e')).
Proof.
  cbv zeta. intros Hbs Hbl.
  pose proof (update_all_active deltaTime e g) as Hall.
  split; [exact Hall|]. destruct Hall as [Ha1 Ha2].
  rewrite getBubbleData_eq, getBulletData_eq, !length_map.
  rewrite (filter_all_true _ _ Ha1), (filter_all_true _ _ Ha2).
  unfold getStats. cbn [bubblesCount bulletsCount].
  split; apply int_wrap_id; unfold INT_MAX in *; lia.
Qed.

End Counts.

(** ** From the constructor on: what [initialize] forgets and what objects keep *)

Section Lifetime.
Context `{Platform}.
Import PhysicsEngine CollisionFacts F32Facts VectorFacts.

Lemma spawn_loop_length canvasWidth n bs g :
  length (fst (spawn_loop canvasWidth n bs g)) = (length bs + n)%nat.
Proof.
  rewrite spawn_loop_eq. cbn [fst]. rewrite length_app, length_map, length_seq.
  reflexivity.
Qed.

(** X15.  [initialize] forgets the vectors, the clock and the counter of the
    engine it is called on.  The multiplier it neither resets nor applies:
    the stored value stays, and the bubbles spawned, the clock, the counter
    and the random generator afterwards are the same whatever the old
    state and its multiplier were; bubble [k] has the speed
    [1 + rand()/RAND_MAX * 1.5f] of its own fourth call of [rand()] and the
    velocity [(0, speed)].  Afterwards [getStats] reports [bubbleCount]
    bubbles (none for a negative count), no bullet, nothing destroyed and
    time zero, and [getBubbleData] has [bubbleCount] entries. *)
Theorem initialize_forgets_all_but_multiplier (bubbleCount : Z)
    (canvasWidth : float32) (e : PhysicsEngine.t) (g : rand_state) :
  bubbleCount <= INT_MAX ->
  let e' := fst (initialize bubbleCount canvasWidth e g) in
  getStats e' = mk_stats (Z.max 0 bubbleCount) 0 0 (of_int 0) /\
  length (getBubbleData e') = Z.to_nat bubbleCount /\
  getBulletData e' = [] /\
  speedMultiplier e' = speedMultiplier e /\
  (forall e2, speedMultiplier e2 = speedMultiplier e ->
     initialize bubbleCount canvasWidth e2 g = initialize bubbleCount canvasWidth e g) /\
  (forall e2,
     bubbles (fst (initialize bubbleCount canvasWidth e2 g)) = bubbles e' /\
     bullets (fst (initialize bubbleCount canvasWidth e2 g)) = bullets e' /\
     gameTime (fst (initialize bubbleCount canvasWidth e2 g)) = gameTime e' /\
     bubblesDestroyed (fst (initialize bubbleCount canvasWidth e2 g)) = bubblesDestroyed e' /\
     speedMultiplier (fst (initialize bubbleCount canvasWidth e2 g)) = speedMultiplier e2 /\
     snd (initialize bubbleCount canvasWidth e2 g) =
       snd (initialize bubbleCount canvasWidth e g)) /\
  (forall (k : nat) b, bubbles e' !! k = Some b ->
     Bubble.speed b =
       fadd (lit 1 1)
            (fmul (rand_unit (rand_outputs g (5 * k + 3 + rand_pos g)%nat)) (lit 15 10)) /\
     Bubble.velocity b = Vector2D.mk (of_int 0) (Bubble.speed b)).
Proof.
  intros Hn. cbv zeta.
  assert (Hany : forall e0,
    bubbles (fst (initialize bubbleCount canvasWidth e0 g)) =
      fst (spawn_loop canvasWidth (Z.to_nat bubbleCount) [] g) /\
    bullets (fst (initialize bubbleCount canvasWidth e0 g)) = [] /\
    gameTime (fst (initialize bubbleCount canvasWidth e0 g)) = of_int 0 /\
    bubblesDestroyed (fst (initialize bubbleCount canvasWidth e0 g)) = 0 /\
    speedMultiplier (fst (initialize bubbleCount canvasWidth e0 g)) = speedMultiplier e0 /\
    snd (initialize bubbleCount canvasWidth e0 g) =
      snd (spawn_loop canvasWidth (Z.to_nat bubbleCount) [] g)).
  { intros e0. unfold initialize. cbn [bubbles set_bullets set_bubbles].
    destruct (spawn_loop _ _ _ _) as [bs g']. repeat split. }
  destruct (Hany e) as (Hb & Hbl & Ht & Hd & Hm & Hg).
  pose proof (spawn_loop_length canvasWidth (Z.to_nat bubbleCount) [] g) as Hlen.
  cbn [length Nat.add] in Hlen.
  split.
  { unfold getStats. rewrite Hb, Hbl, Ht, Hd, Hlen. cbn [length].
    rewrite !int_wrap_id by (unfold INT_MAX in *; lia).
    f_equal. lia. }
  split.
  { rewrite getBubbleData_eq, length_map, Hb.
    rewrite (filter_all_true Bubble.active _
               (spawn_loop_active canvasWidth (Z.to_nat bubbleCount) [] g (Forall_nil_2 _))).
    exact Hlen. }
  split; [rewrite getBulletData_eq, Hbl; reflexivity|].
  split; [exact Hm|].
  split.
  { intros e2 He2. unfold initialize. cbn [bubbles set_bullets set_bubbles].
    destruct (spawn_loop _ _ _ _) as [bs g'].
    destruct e, e2. cbn [speedMultiplier] in He2. subst. reflexivity. }
  split.
  { intros e2. destruct (Hany e2) as (Hb2 & Hbl2 & Ht2 & Hd2 & Hm2 & Hg2).
    rewrite Hb, Hbl, Ht, Hd, Hg, Hb2, Hbl2, Ht2, Hd2, Hg2.
    split; [reflexivity|]. split; [reflexivity|]. split; [reflexivity|].
    split; [reflexivity|]. split; [exact Hm2 | reflexivity]. }
  intros k b Hk. rewrite Hb, spawn_loop_eq in Hk. cbn [fst app] in Hk.
  change (map ?f ?l) with (f <$> l) in Hk. rewrite list_lookup_fmap in Hk.
  destruct (seq 0 (Z.to_nat bubbleCount) !! k) as [k'|] eqn:Hseq; [|discriminate Hk].
  apply lookup_seq in Hseq. destruct Hseq as [Hseq _]. cbn [Nat.add] in Hseq. subst k'.
  cbn [fmap option_fmap option_map] in Hk.
  assert (Hbk : b = fst (spawn_one canvasWidth (rand_skip (5 * k) g))) by congruence.
  subst b.
  replace (5 * k + 3 + rand_pos g)%nat with (S (S (S (5 * k + rand_pos g)))) by lia.
  split; reflexivity.
Qed.

Lemma of_int_10 : of_int 10 = Fin false (10 * scale).
Proof. vm_compute. reflexivity. Qed.

(** A height of at least 10 leaves a threshold that is not negative. *)
Lemma bottom_threshold_nonneg h :
  wf h -> fle (of_int 10) h = true -> nonneg (fsub h (of_int 10)).
Proof.
  intros Hwf Hh. apply fle_inv in Hh as (_ & Hnan & Hord).
  rewrite of_int_10 in *. cbn [ord signed] in Hord.
  pose proof scale_pos as Hs.
  destruct h as [|s|s k]; [discriminate Hnan | |].
  - destruct s; [|reflexivity].
    cbn [ord signed] in Hord. pose proof overflow_threshold_pos. lia.
  - destruct s; cbn [ord signed] in Hord.
    + destruct Hwf as [[Hk _] _]. lia.
    + unfold fsub. cbn [fneg negb].
      rewrite fadd_pos_neg by lia.
      apply round_nonneg; [lia | lia | discriminate 1].
Qed.

Lemma spawn_one_above canvasWidth g :
  0 < RAND_MAX <= INT_MAX -> rand_ok g ->
  let b := fst (spawn_one canvasWidth g) in
  Bubble.active b = true /\
  fle (Vector2D.y (Bubble.position b)) (fneg (lit 12 1)) = true.
Proof.
  intros HM Hg. cbv zeta. split; [apply spawn_one_active|].
  unfold spawn_one. cbn [rand fst snd rand_outputs rand_pos].
  set (r1 := rand_outputs g (rand_pos g)).
  set (r3 := rand_outputs g (S (S (rand_pos g)))).
  assert (H1 : 0 <= r1 <= RAND_MAX) by apply Hg.
  assert (H3 : 0 <= r3 <= RAND_MAX) by apply Hg.
  cbn [Bubble.position Bubble.new Bubble.set_velocity_y Bubble.with_base Bubble.base
       GameObject.new GameObject.set_velocity GameObject.position Vector2D.y].
  destruct lit_values as (_ & _ & _ & L12 & L8 & _).
  pose proof scale_pos as Hs.
  assert (R12 : representable (12 * scale)) by representable_const.
  assert (R8 : representable (8 * scale)) by representable_const.
  assert (R20 : representable (12 * scale + 8 * scale)) by representable_const.
  assert (Hlt : 12 * scale + 8 * scale < overflow_threshold) by reflexivity.
  destruct (scaled_rand_range (12 * scale) (8 * scale) r1 HM H1 R12 R8 R20 Hlt)
    as (kr & Hrad & Hkr & Hrr).
  rewrite L12, L8, Hrad. clear Hrad.
  destruct (rand_unit_range r3 HM H3) as (u3 & -> & Hu3 & _).
  pose proof (drop_range kr u3 Hrr
                ltac:(change (20 * scale) with (12 * scale + 8 * scale); lia) Hu3) as Hy.
  cbv zeta in Hy. destruct Hy as [_ Hy].
  eapply fle_trans; [exact Hy|].
  apply fle_ord; [reflexivity | reflexivity |].
  cbn [fneg negb ord signed]. lia.
Qed.

(** X16.  Right after [initialize], whatever the canvas width, every bubble is
    above the canvas ([y <= -12]): for a canvas height of at least 10 no
    bubble has reached the bottom and [getBubblesAtBottom] is empty. *)
Theorem initialize_starts_above_canvas (bubbleCount : Z)
    (canvasWidth canvasHeight : float32) (e : PhysicsEngine.t) (g : rand_state) :
  0 < RAND_MAX <= INT_MAX -> rand_ok g ->
  wf canvasHeight -> fle (of_int 10) canvasHeight = true ->
  let e' := fst (initialize bubbleCount canvasWidth e g) in
  Forall (fun b => fle (Vector2D.y (Bubble.position b)) (fneg (lit 12 1)) = true)
         (bubbles e') /\
  hasBubbleReachedBottom canvasHeight e' = false /\
  getBubblesAtBottom canvasHeight e' = [].
Proof.
  intros HM Hg Hwf Hh. cbv zeta.
  assert (Hb : bubbles (fst (initialize bubbleCount canvasWidth e g)) =
               fst (spawn_loop canvasWidth (Z.to_nat bubbleCount) [] g)).
  { unfold initialize. cbn [bubbles set_bullets set_bubbles].
    destruct (spawn_loop _ _ _ _) as [bs g']. reflexivity. }
  assert (Hall : Forall (fun b => fle (Vector2D.y (Bubble.position b)) (fneg (lit 12 1)) = true)
                   (bubbles (fst (initialize bubbleCount canvasWidth e g)))).
  { rewrite Hb, spawn_loop_eq. cbn [fst app]. apply Forall_forall. intros b Hin.
    rewrite list_elem_of_In, in_map_iff in Hin. destruct Hin as (k & <- & _).
    apply (spawn_one_above canvasWidth (rand_skip (5 * k) g) HM (rand_ok_skip _ _ Hg)). }
  assert (Hnone : forall b, b ∈ bubbles (fst (initialize bubbleCount canvasWidth e g)) ->
                    at_bottom canvasHeight b = false).
  { intros b Hin. rewrite Forall_forall in Hall. specialize (Hall b Hin).
    apply fle_inv in Hall as (Hn1 & _ & Hord).
    pose proof (bottom_threshold_nonneg canvasHeight Hwf Hh) as Hthr.
    apply nonneg_ord in Hthr as [Hn2 Hthr].
    destruct lit_values as (_ & _ & _ & L12 & _). rewrite L12 in Hord.
    cbn [fneg negb ord signed] in Hord. pose proof scale_pos as Hs.
    unfold at_bottom, fgt, flt. rewrite Hn1, Hn2. cbn [negb andb].
    replace (ord (fsub canvasHeight (of_int 10)) <?
             ord (Vector2D.y (Bubble.position b))) with false
      by (symmetry; apply Z.ltb_ge; lia).
    apply andb_false_r. }
  split; [exact Hall|].
  assert (Hfil : List.filter (at_bottom canvasHeight)
                   (bubbles (fst (initialize bubbleCount canvasWidth e g))) = []).
  { revert Hnone. generalize (bubbles (fst (initialize bubbleCount canvasWidth e g))).
    induction l as [|b l IH]; intros Hnone; cbn [List.filter]; [reflexivity|].
    rewrite (Hnone b (list_elem_of_here b l)). apply IH.
    intros b' Hb'. apply Hnone, list_elem_of_further, Hb'. }
  split.
  - unfold hasBubbleReachedBottom. rewrite reached_bottom_loop_existsb.
    destruct (existsb _ _) eqn:Hex; [|reflexivity].
    apply existsb_exists in Hex as (b & Hin & Hat).
    rewrite (Hnone b (proj2 (list_elem_of_In _ _) Hin)) in Hat. discriminate Hat.
  - rewrite getBubblesAtBottom_eq, Hfil. reflexivity.
Qed.

End Lifetime.

(** ** What objects keep while the host drives the engine *)

Section Invariants.
Context `{Platform}.
Import PhysicsEngine CollisionFacts F32Facts VectorFacts.

Lemma explosion_particles_Forall (P : Bubble.t -> Prop) x y radius g :
  (forall c i g', P (fst (particle x y radius c i g'))) ->
  Forall P (explosion_particles x y radius g).
Proof.
  intros HP. unfold explosion_particles. cbv zeta.
  apply Forall_forall. intros p Hin.
  rewrite list_elem_of_In, in_map_iff in Hin. destruct Hin as (k & <- & _). apply HP.
Qed.

(** A property of bubbles that switching off keeps and that particles have
    holds of the whole vector after the pass if it did before. *)
Lemma collide_loop_Forall (P : Bubble.t -> Prop) bl s :
  (forall b, P b -> P (Bubble.set_active false b)) ->
  (forall x y radius c i g, P (fst (particle x y radius c i g))) ->
  Forall P (pass_bubbles s) ->
  Forall P (pass_bubbles (snd (collide_loop bl s))).
Proof.
  intros Hoff Hpart. revert s. induction bl as [|bullet bl IH]; intros s Hs;
    cbn [collide_loop]; [exact Hs|].
  assert (H1 : Forall P (pass_bubbles (snd (collide_bullet bullet s)))).
  { destruct (collide_bullet_spec bullet s)
      as [[_ ->]|[(_ & _ & ->)|(_ & i & b & Hi & _ & _ & _ & ->)]]; cbn [snd]; try exact Hs.
    cbn [pass_bubbles]. apply Forall_app. split.
    - apply Forall_insert; [exact Hs|]. apply Hoff.
      rewrite Forall_forall in Hs. apply Hs. apply (list_elem_of_lookup_2 _ i), Hi.
    - apply explosion_particles_Forall. intros c k g'. apply Hpart. }
  destruct (collide_bullet bullet s) as [bullet' s1]. cbn [snd] in H1.
  specialize (IH s1 H1). destruct (collide_loop bl s1) as [bl' s2]. exact IH.
Qed.

Lemma kept_or_off_Forall (P : Bullet.t -> Prop) l l' :
  (forall b, P b -> P (Bullet.set_active false b)) ->
  Forall2 bullet_kept_or_off l l' -> Forall P l -> Forall P l'.
Proof.
  intros Hoff. induction 1 as [|b b' l l' Hb Hl IH]; intros HP; [constructor|].
  apply Forall_cons in HP as [Hb0 HP]. constructor; [|apply IH, HP].
  destruct Hb as [->|[_ ->]]; [exact Hb0 | apply Hoff, Hb0].
Qed.

Lemma filter_Forall {A} (P : A -> Prop) (p : A -> bool) (l : list A) :
  Forall P l -> Forall P (List.filter p l).
Proof.
  intros HP. apply Forall_forall. intros a Hin.
  rewrite list_elem_of_In in Hin. apply filter_In in Hin as [Hin _].
  rewrite Forall_forall in HP. apply HP. rewrite list_elem_of_In. exact Hin.
Qed.

Lemma bullet_as_fired_off b : bullet_as_fired b -> bullet_as_fired (Bullet.set_active false b).
Proof. intros Hb. exact Hb. Qed.

Lemma bullet_as_fired_update dt b : bullet_as_fired b -> bullet_as_fired (Bullet.update dt b).
Proof.
  intros Hb. unfold Bullet.update. cbv zeta. destruct (fgt _ _); exact Hb.
Qed.

Lemma bullet_as_fired_new x y angle : bullet_as_fired (Bullet.new x y angle Bullet.default_speed).
Proof.
  unfold bullet_as_fired. split; [reflexivity|]. split; [reflexivity|].
  split; [reflexivity|]. exists angle. reflexivity.
Qed.

Lemma bubble_plain_update dt b :
  Bubble.isSpecial (update_bubble dt b) = Bubble.isSpecial b.
Proof. unfold update_bubble. destruct (Bubble.active b); reflexivity. Qed.

Lemma run_keeps_objects c e g :
  Forall bullet_as_fired (bullets e) /\
  Forall (fun b => Bubble.isSpecial b = false) (bubbles e) ->
  Forall bullet_as_fired (bullets (fst (run c e g))) /\
  Forall (fun b => Bubble.isSpecial b = false) (bubbles (fst (run c e g))).
Proof.
  intros [Hbl Hbs].
  destruct c as [n w | dt | x y r s col | x y a | | m | x y a s n]; cbn [run].
  - unfold initialize. cbn [bubbles set_bullets set_bubbles].
    pose proof (spawn_loop_eq w (Z.to_nat n) [] g) as Heq. cbn [app] in Heq.
    destruct (spawn_loop w (Z.to_nat n) [] g) as [bs g'].
    cbn [fst bullets bubbles set_bubblesDestroyed set_gameTime set_bubbles].
    split; [constructor|].
    assert (bs = map (fun k : nat => fst (spawn_one w (rand_skip (5 * k) g)))
                   (seq 0 (Z.to_nat n))) as -> by congruence.
    apply Forall_forall. intros b Hin.
    rewrite list_elem_of_In, in_map_iff in Hin. destruct Hin as (k & <- & _).
    reflexivity.
  - rewrite update_bullets_eq, update_bubbles_eq. split.
    + apply filter_Forall.
      apply (kept_or_off_Forall _ _ _ bullet_as_fired_off (collide_loop_bullets _ _)).
      apply Forall_forall. intros b Hin.
      rewrite list_elem_of_In, in_map_iff in Hin. destruct Hin as (b0 & <- & Hin).
      rewrite Forall_forall in Hbl. rewrite <- list_elem_of_In in Hin.
      specialize (Hbl b0 Hin). unfold update_bullet.
      destruct (Bullet.active b0); [apply bullet_as_fired_update|]; exact Hbl.
    + apply filter_Forall. apply collide_loop_Forall.
      * intros b Hb. exact Hb.
      * intros. reflexivity.
      * cbn [pass_bubbles]. apply Forall_forall. intros b Hin.
        rewrite list_elem_of_In, in_map_iff in Hin. destruct Hin as (b0 & <- & Hin).
        rewrite bubble_plain_update. rewrite Forall_forall in Hbs.
        apply Hbs. rewrite list_elem_of_In. exact Hin.
  - cbn [fst addBubble bullets bubbles set_bubbles]. split; [exact Hbl|].
    apply Forall_app. split; [exact Hbs|]. constructor; [reflexivity | constructor].
  - cbn [fst shootBullet bullets bubbles set_bullets]. split; [|exact Hbs].
    apply Forall_app. split; [exact Hbl|].
    constructor; [apply bullet_as_fired_new | constructor].
  - unfold checkCollisions.
    pose proof (collide_loop_bullets (bullets e)
                  (mk_pass (bubbles e) (bubblesDestroyed e) 0 g)) as H2.
    pose proof (collide_loop_Forall (fun b => Bubble.isSpecial b = false) (bullets e)
                  (mk_pass (bubbles e) (bubblesDestroyed e) 0 g)
                  (fun b Hb => Hb) (fun _ _ _ _ _ _ => eq_refl) Hbs) as H3.
    destruct (collide_loop _ _) as [bl s]. cbn [fst snd] in *.
    cbn [bullets bubbles set_bubblesDestroyed set_bullets set_bubbles].
    split; [|exact H3].
    apply (kept_or_off_Forall _ _ _ bullet_as_fired_off H2 Hbl).
  - cbn [fst setSpeedMultiplier bullets bubbles set_bubbles set_speedMultiplier].
    split; [exact Hbl|].
    apply Forall_forall. intros b Hin.
    rewrite list_elem_of_In, in_map_iff in Hin. destruct Hin as (b0 & <- & Hin).
    rewrite Forall_forall in Hbs. apply (Hbs b0). rewrite list_elem_of_In. exact Hin.
  - cbn [predictTrajectory fst]. split; assumption.
Qed.

(** X17.  In every state the host can reach, each bullet still has what
    [shootBullet] gave it: radius 5, range 1000, speed [8.0f] and the
    velocity along its firing angle (no call changes a bullet's velocity,
    and the host cannot choose its speed); and no bubble is special: nothing
    ever sets [isSpecial]. *)
Theorem reachable_objects_keep_constructor_values (e : PhysicsEngine.t) :
  reachable e ->
  Forall bullet_as_fired (bullets e) /\
  Forall (fun b => Bubble.isSpecial b = false) (bubbles e).
Proof.
  intros (cs & g & <-). unfold run_all.
  assert (Hnew : Forall bullet_as_fired (bullets new) /\
                 Forall (fun b => Bubble.isSpecial b = false) (bubbles new))
    by (split; constructor).
  revert Hnew. generalize new as e0. revert g.
  induction cs as [|c cs IH]; intros g e0 Hinv; cbn [fold_left]; [exact Hinv|].
  cbn [fst snd]. pose proof (run_keeps_objects c e0 g Hinv) as H1.
  destruct (run c e0 g) as [e1 g1]. apply IH. exact H1.
Qed.

(** X18.  [setSpeedMultiplier] multiplies the speeds the bubbles have at the
    call: two calls multiply twice, whatever multiplier is stored, and
    [velocity.y] is reset to the new speed each time.  With [1.0f] the
    speeds stay, and a bubble whose [velocity.y] is its speed is unchanged. *)
Theorem speed_multipliers_accumulate (m1 m2 : float32) (e : PhysicsEngine.t) :
  (bubbles (setSpeedMultiplier m2 (setSpeedMultiplier m1 e)) =
     map (fun b =>
            Bubble.set_velocity_y (fmul (fmul (Bubble.speed b) m1) m2)
              (Bubble.set_speed (fmul (fmul (Bubble.speed b) m1) m2) b))
         (bubbles e) /\
   speedMultiplier (setSpeedMultiplier m2 (setSpeedMultiplier m1 e)) = m2) /\
  (Forall (fun b => wf (Bubble.speed b)) (bubbles e) ->
   bubbles (setSpeedMultiplier (lit 1 1) e) =
     map (fun b => Bubble.set_velocity_y (Bubble.speed b) b) (bubbles e)) /\
  (Forall (fun b => wf (Bubble.speed b) /\
                    Vector2D.y (Bubble.velocity b) = Bubble.speed b) (bubbles e) ->
   bubbles (setSpeedMultiplier (lit 1 1) e) = bubbles e).
Proof.
  assert (Hone : forall b, wf (Bubble.speed b) ->
            Bubble.set_velocity_y
              (Bubble.speed (Bubble.set_speed (fmul (Bubble.speed b) (lit 1 1)) b))
              (Bubble.set_speed (fmul (Bubble.speed b) (lit 1 1)) b) =
            Bubble.set_velocity_y (Bubble.speed b) b).
  { intros b Hwf. cbn [Bubble.set_speed Bubble.speed].
    rewrite (fmul_one _ Hwf). destruct b; reflexivity. }
  split; [split|split].
  - unfold setSpeedMultiplier. cbv zeta.
    cbn [bubbles set_bubbles set_speedMultiplier].
    rewrite map_map. apply map_ext. intros b. destruct b as [o c s sp]. reflexivity.
  - reflexivity.
  - intros Hwf. unfold setSpeedMultiplier. cbv zeta.
    cbn [bubbles set_bubbles set_speedMultiplier].
    apply map_ext_in. intros b Hin. apply Hone.
    rewrite Forall_forall in Hwf. apply Hwf. rewrite list_elem_of_In. exact Hin.
  - intros Hwf. unfold setSpeedMultiplier. cbv zeta.
    cbn [bubbles set_bubbles set_speedMultiplier].
    rewrite <- (map_id (bubbles e)) at 2.
    apply map_ext_in. intros b Hin.
    rewrite Forall_forall in Hwf. rewrite <- list_elem_of_In in Hin.
    destruct (Hwf b Hin) as [Hs Hv]. rewrite (Hone b Hs).
    destruct b as [[p [vx vy] r a] c s sp].
    cbn [Bubble.velocity Bubble.base GameObject.velocity Vector2D.y Bubble.speed] in Hv.
    subst vy. reflexivity.
Qed.

End Invariants.

(** ** Motion: falling bubbles and the flight the prediction follows *)

Section Motion.
Context `{Platform}.
Import PhysicsEngine CollisionFacts F32Facts VectorFacts.

(** A factor between 0 and 1 times a float [>= 0] is a finite float [>= 0]. *)
Lemma fmul_fraction c x :
  0 <= c <= scale -> wf x -> is_finite x = true -> nonneg x ->
  nonneg (fmul (Fin false c) x) /\ is_finite (fmul (Fin false c) x) = true.
Proof.
  intros Hc Hwf Hfin Hx. destruct x as [| |s k]; try discriminate Hfin.
  destruct Hwf as [Hr Hlt]. destruct Hx as [Hk Hs].
  cbn [fmul xorb]. pose proof scale_pos as Hsc.
  assert (Hn : 0 <= c * k) by nia.
  assert (Hle : c * k <= k * scale) by nia.
  destruct (round_fin s (c * k) scale k Hr Hlt Hn Hsc Hle) as (-> & Hb & _).
  split; [|reflexivity]. split; [lia|].
  intros Hst. rewrite (Hs Hst), Z.mul_0_r. apply rne_zero. exact Hsc.
Qed.

Lemma tenth_fraction : exists c, lit 1 10 = Fin false c /\ 0 <= c <= scale.
Proof.
  exists (rne (1 * scale) 10). split; [vm_compute; reflexivity|].
  vm_compute. split; intros Hx; discriminate Hx.
Qed.

(** X19.  With a frame time that is finite and not negative and a speed that
    is finite and not negative, [Bubble::update] never lowers [velocity.y];
    and when that velocity is not negative (and has not overflowed), it never
    lowers [position.y]: a falling bubble does not rise. *)
Theorem bubble_update_falls (deltaTime : float32) (b : Bubble.t) :
  frame_time_ok deltaTime ->
  nonneg (Bubble.speed b) -> is_finite (Bubble.speed b) = true ->
  wf (Vector2D.y (Bubble.velocity b)) ->
  is_finite (Vector2D.y (Bubble.velocity b)) = true ->
  let b' := Bubble.update deltaTime b in
  fle (Vector2D.y (Bubble.velocity b)) (Vector2D.y (Bubble.velocity b')) = true /\
  (nonneg (Vector2D.y (Bubble.velocity b)) ->
     nonneg (Vector2D.y (Bubble.velocity b')) /\
     (is_finite (Vector2D.y (Bubble.velocity b')) = true ->
      wf (Vector2D.y (Bubble.position b)) ->
      is_finite (Vector2D.y (Bubble.position b)) = true ->
      fle (Vector2D.y (Bubble.position b)) (Vector2D.y (Bubble.position b')) = true)).
Proof.
  intros (Hdwf & Hdfin & Hd0) Hs Hsfin Hvwf Hvfin. cbv zeta.
  pose proof (nonneg_fle deltaTime Hdwf Hd0) as Hdnn.
  destruct tenth_fraction as (c & Hc & Hcr).
  destruct (fmul_fraction c deltaTime Hcr Hdwf Hdfin Hdnn) as [Hgn Hgf].
  rewrite <- Hc in Hgn, Hgf.
  pose proof (fmul_nonneg_finite _ _ Hgn Hs Hgf Hsfin) as Hp.
  set (p := fmul (fmul (lit 1 10) deltaTime) (Bubble.speed b)) in *.
  assert (Hvy : Vector2D.y (Bubble.velocity (Bubble.update deltaTime b)) =
                fadd (Vector2D.y (Bubble.velocity b)) p) by reflexivity.
  assert (Hpy : Vector2D.y (Bubble.position (Bubble.update deltaTime b)) =
                fadd (Vector2D.y (Bubble.position b))
                     (fmul (fadd (Vector2D.y (Bubble.velocity b)) p) deltaTime))
    by reflexivity.
  rewrite Hvy, Hpy.
  split; [apply (fadd_ge _ p Hvwf Hvfin Hp)|].
  intros Hvnn.
  destruct (fadd_nonneg _ p Hvwf Hvnn Hp) as [Hnn' _].
  split; [exact Hnn'|].
  intros Hfin' Hywf Hyfin.
  apply (fadd_ge _ _ Hywf Hyfin).
  apply (fmul_nonneg_finite _ _ Hnn' Hdnn Hfin' Hdfin).
Qed.

Lemma bullet_update_position dt b :
  Bullet.position (Bullet.update dt b) =
    Vector2D.mk (fadd (Vector2D.x (Bullet.position b)) (fmul (Vector2D.x (Bullet.velocity b)) dt))
                (fadd (Vector2D.y (Bullet.position b)) (fmul (Vector2D.y (Bullet.velocity b)) dt)) /\
  Bullet.velocity (Bullet.update dt b) = Bullet.velocity b.
Proof.
  unfold Bullet.update. cbv zeta. destruct (fgt _ _); split; reflexivity.
Qed.

Lemma flight_succ dt n b : flight dt (S n) b = flight dt n (Bullet.update dt b).
Proof. unfold flight. apply Nat.iter_succ_r. Qed.

Lemma trajectory_loop_flight n : forall (i : nat) b,
  (i < n)%nat ->
  trajectory_loop (Vector2D.x (Bullet.velocity b)) (Vector2D.y (Bullet.velocity b)) n
    (Vector2D.x (Bullet.position b)) (Vector2D.y (Bullet.position b)) !! i =
  Some (point_of (Bullet.position (flight (lit 16 1000) i b))).
Proof.
  induction n as [|n IH]; intros i b Hi; [lia|].
  cbn [trajectory_loop]. destruct i as [|i].
  - reflexivity.
  - rewrite flight_succ. cbn [lookup list_lookup].
    destruct (bullet_update_position (lit 16 1000) b) as [Hp Hv].
    specialize (IH i (Bullet.update (lit 16 1000) b) ltac:(lia)).
    rewrite Hv, Hp in IH. cbn [Vector2D.x Vector2D.y] in IH. exact IH.
Qed.

Lemma flight_was_active dt n b :
  Bullet.active (flight dt n b) = true -> Bullet.active b = true.
Proof.
  revert b. induction n as [|n IH]; intros b Ha; [exact Ha|].
  rewrite flight_succ in Ha. apply (bullet_update_was_active dt), IH, Ha.
Qed.

Lemma frames_flight dt n b :
  Bullet.active (flight dt n b) = true -> frames (repeat dt n) b = flight dt n b.
Proof.
  revert b. induction n as [|n IH]; intros b Ha; [reflexivity|].
  cbn [repeat]. unfold frames. cbn [fold_left]. fold (frames (repeat dt n) (update_bullet dt b)).
  rewrite flight_succ in *.
  pose proof (flight_was_active _ _ _ Ha) as Ha1.
  pose proof (bullet_update_was_active _ _ Ha1) as Ha0.
  replace (update_bullet dt b) with (Bullet.update dt b)
    by (unfold update_bullet; rewrite Ha0; reflexivity).
  apply IH, Ha.
Qed.

(** X20.  Point [i] of [predictTrajectory] is where a bullet built with the
    same start, angle and speed is after [i] calls of [Bullet::update] with
    the frame time [0.016f]; as long as that bullet is active, this is
    where [i] frames of the engine's bullet loop put it.  The prediction
    ignores the range: it goes on where the bullet is switched off. *)
Theorem predictTrajectory_follows_bullet (startX startY angle speed : float32)
    (steps : Z) (e : PhysicsEngine.t) (g : rand_state) (i : nat) :
  Z.of_nat i < steps ->
  let b := Bullet.new startX startY angle speed in
  fst (fst (predictTrajectory startX startY angle speed steps e g)) !! i =
    Some (point_of (Bullet.position (flight (lit 16 1000) i b))) /\
  (Bullet.active (flight (lit 16 1000) i b) = true ->
   fst (fst (predictTrajectory startX startY angle speed steps e g)) !! i =
     Some (point_of (Bullet.position (frames (repeat (lit 16 1000) i) b)))).
Proof.
  intros Hi. cbv zeta.
  assert (Hp : fst (fst (predictTrajectory startX startY angle speed steps e g)) !! i =
    Some (point_of (Bullet.position
            (flight (lit 16 1000) i (Bullet.new startX startY angle speed))))).
  { unfold predictTrajectory. cbv zeta. cbn [fst].
    apply (trajectory_loop_flight (Z.to_nat steps) i (Bullet.new startX startY angle speed)).
    lia. }
  split; [exact Hp|].
  intros Ha. rewrite (frames_flight _ _ _ Ha). exact Hp.
Qed.

End Motion.

(** ** The bubble vector after a frame: survivors, then particles *)

Section Survivors.
Context `{Platform}.
Import PhysicsEngine CollisionFacts F32Facts.

Lemma kept_or_off_refl l : Forall2 bubble_kept_or_off l l.
Proof. induction l; constructor; [left; reflexivity | assumption]. Qed.

Lemma kept_or_off_chain a b c :
  Forall2 bubble_kept_or_off a b -> Forall2 bubble_kept_or_off b c ->
  Forall2 bubble_kept_or_off a c.
Proof.
  intros Hab. revert c. induction Hab as [|x y a b Hxy Hab IH]; intros c Hbc.
  - inversion Hbc; subst. constructor.
  - inversion Hbc as [|y' z b' c' Hyz Hbc']; subst. constructor.
    + apply (bubble_kept_or_off_trans x y z); assumption.
    + apply IH, Hbc'.
Qed.

Lemma kept_or_off_insert bs (i : nat) b :
  bs !! i = Some b -> Bubble.active b = true ->
  Forall2 bubble_kept_or_off bs (<[i := Bubble.set_active false b]> bs).
Proof.
  revert i. induction bs as [|a bs IH]; intros i Hi Ha.
  - rewrite lookup_nil in Hi. discriminate Hi.
  - destruct i as [|i]; cbn [lookup list_lookup] in Hi.
    + assert (a = b) by congruence. subst a. constructor.
      * right. split; [exact Ha | reflexivity].
      * apply kept_or_off_refl.
    + constructor; [left; reflexivity|]. apply (IH i Hi Ha).
Qed.

Lemma bubble_kept_or_off_sublist l l' :
  Forall2 bubble_kept_or_off l l' ->
  sublist (List.filter Bubble.active l') (List.filter Bubble.active l).
Proof.
  induction 1 as [|b b' l l' Hb Hl IH]; cbn [List.filter]; [constructor|].
  destruct Hb as [->|[Ha ->]].
  - destruct (Bubble.active b); [constructor|]; exact IH.
  - rewrite Ha. cbn [List.filter]. constructor. exact IH.
Qed.

Lemma moved_bubbles_eq dt l :
  List.filter Bubble.active (map (update_bubble dt) l) =
  map (Bubble.update dt) (List.filter Bubble.active l).
Proof.
  induction l as [|b l IH]; cbn [map List.filter]; [reflexivity|].
  destruct (Bubble.active b) eqn:Ha.
  - replace (update_bubble dt b) with (Bubble.update dt b)
      by (unfold update_bubble; rewrite Ha; reflexivity).
    rewrite bubble_update_active, Ha. cbn [map]. rewrite IH. reflexivity.
  - replace (update_bubble dt b) with b
      by (unfold update_bubble; rewrite Ha; reflexivity).
    rewrite Ha. exact IH.
Qed.

(** The vector after the pass: the slots of before, each kept or switched
    off, then the particles of the explosions (some may be off again: a
    later bullet of the same pass can hit a particle). *)
Lemma collide_loop_split bl s :
  exists old fresh,
    pass_bubbles (snd (collide_loop bl s)) = old ++ fresh /\
    Forall2 bubble_kept_or_off (pass_bubbles s) old /\
    Forall (fun p => Bubble.colorIndex p = 4 /\ Bubble.isSpecial p = false) fresh.
Proof.
  revert s. induction bl as [|bullet bl IH]; intros s; cbn [collide_loop].
  - exists (pass_bubbles s), []. rewrite app_nil_r.
    split; [reflexivity|]. split; [apply kept_or_off_refl | constructor].
  - assert (H1 : exists old fresh,
        pass_bubbles (snd (collide_bullet bullet s)) = old ++ fresh /\
        Forall2 bubble_kept_or_off (pass_bubbles s) old /\
        Forall (fun p => Bubble.colorIndex p = 4 /\ Bubble.isSpecial p = false) fresh).
    { destruct (collide_bullet_spec bullet s)
        as [[_ ->]|[(_ & _ & ->)|(_ & i & b & Hi & Ha & _ & _ & ->)]]; cbn [snd].
      - exists (pass_bubbles s), []. rewrite app_nil_r.
        split; [reflexivity|]. split; [apply kept_or_off_refl | constructor].
      - exists (pass_bubbles s), []. rewrite app_nil_r.
        split; [reflexivity|]. split; [apply kept_or_off_refl | constructor].
      - cbn [pass_bubbles]. eexists _, _. split; [reflexivity|].
        split; [apply (kept_or_off_insert _ _ _ Hi Ha)|].
        unfold explosion_particles. cbv zeta. apply Forall_forall. intros p Hin.
        rewrite list_elem_of_In, in_map_iff in Hin. destruct Hin as (k & <- & _).
        split; reflexivity. }
    destruct (collide_bullet bullet s) as [bullet' s1]. cbn [snd] in H1.
    destruct H1 as (old1 & fresh1 & Heq1 & Hold1 & Hfresh1).
    destruct (IH s1) as (old2 & fresh2 & Heq2 & Hold2 & Hfresh2).
    destruct (collide_loop bl s1) as [bl' s2]. cbn [snd] in *.
    rewrite Heq1 in Hold2.
    apply Forall2_app_inv_l in Hold2 as (a & b & Ha & Hb & ->).
    exists a, (b ++ fresh2). rewrite Heq2, <- app_assoc.
    split; [reflexivity|]. split; [apply (kept_or_off_chain _ _ _ Hold1 Ha)|].
    apply Forall_app. split; [|exact Hfresh2].
    clear - Hb Hfresh1. induction Hb as [|x y l l' Hxy Hl IHl]; [constructor|].
    apply Forall_cons in Hfresh1 as [Hx Hrest]. constructor; [|apply IHl, Hrest].
    destruct Hxy as [->|[_ ->]]; exact Hx.
Qed.

(** X21.  The bubbles [update] leaves are, first, bubbles that were active
    before, in their order and each changed by one [Bubble::update] and
    nothing else, and after them the particles of this frame's explosions
    (colour 4, not special), all active. *)
Theorem update_leaves_survivors_then_particles (deltaTime : float32)
    (e : PhysicsEngine.t) (g : rand_state) :
  exists survivors particles,
    bubbles (fst (update deltaTime e g)) = survivors ++ particles /\
    sublist survivors
      (map (Bubble.update deltaTime) (List.filter Bubble.active (bubbles e))) /\
    Forall (fun p => Bubble.colorIndex p = 4 /\ Bubble.isSpecial p = false /\
                     Bubble.active p = true) particles.
Proof.
  rewrite update_bubbles_eq.
  destruct (collide_loop_split (map (update_bullet deltaTime) (bullets e))
              (mk_pass (map (update_bubble deltaTime) (bubbles e))
                 (bubblesDestroyed e) 0 g)) as (old & fresh & -> & Hold & Hfresh).
  cbn [pass_bubbles] in Hold.
  exists (List.filter Bubble.active old), (List.filter Bubble.active fresh).
  rewrite List.filter_app. split; [reflexivity|]. split.
  - rewrite <- moved_bubbles_eq. apply bubble_kept_or_off_sublist, Hold.
  - apply Forall_forall. intros p Hin.
    rewrite list_elem_of_In in Hin. apply filter_In in Hin as [Hin Ha].
    rewrite Forall_forall in Hfresh. rewrite <- list_elem_of_In in Hin.
    destruct (Hfresh p Hin) as [Hc Hs]. auto.
Qed.

End Survivors.

(** ** A frame time that is not a number *)

Section NotANumber.
Context `{Platform}.
Import PhysicsEngine CollisionFacts F32Facts VectorFacts.

Lemma fmul_nan_r x : fmul x NaN = NaN.
Proof. destruct x; reflexivity. Qed.

Lemma fgt_nan_l x : fgt NaN x = false.
Proof. unfold fgt, flt. destruct (is_nan x); reflexivity. Qed.

Lemma fadd_nan_l x : fadd NaN x = NaN.
Proof. reflexivity. Qed.

Ltac bullet_fields :=
  cbv beta iota zeta delta
    [Bullet.update Bullet.with_base Bullet.base GameObject.update
     GameObject.set_position GameObject.position GameObject.velocity
     GameObject.radius GameObject.active Vector2D.x Vector2D.y
     Bullet.set_distanceTraveled Bullet.distanceTraveled Bullet.speed
     Bullet.maxDistance Bullet.velocity_norm Bullet.velocity Bullet.set_active
     GameObject.set_active Bullet.position Bullet.active bullet_lost].

Lemma bullet_lost_update dt b : bullet_lost b -> bullet_lost (Bullet.update dt b).
Proof.
  destruct b as [[[px py] [vx vy] r a] sp m d]. bullet_fields.
  intros (Hp & Hd & Ha).
  assert (px = NaN) by congruence. assert (py = NaN) by congruence. subst px py d a.
  rewrite !fadd_nan_l, fgt_nan_l.
  split; [reflexivity|]. split; reflexivity.
Qed.

Lemma bullet_lost_never_collides b bubble : bullet_lost b -> collides b bubble = false.
Proof. intros (Hp & _ & _). unfold collides. rewrite Hp. reflexivity. Qed.

Lemma collide_loop_keeps bullet bl s :
  (forall bubble, collides bullet bubble = false) ->
  bullet ∈ bl -> bullet ∈ fst (collide_loop bl s).
Proof.
  intros Hno. revert s. induction bl as [|b0 bl IH]; intros s Hin; cbn [collide_loop].
  - exact Hin.
  - apply elem_of_cons in Hin as [Heq|Hin].
    + subst b0. assert (Hb : collide_bullet bullet s = (bullet, s)).
      { unfold collide_bullet. destruct (Bullet.active bullet); cbn [negb]; [|reflexivity].
        rewrite first_hit_none; [reflexivity|]. intros b _ _. apply Hno. }
      rewrite Hb. destruct (collide_loop bl s) as [bl' s']. cbn [fst].
      apply list_elem_of_here.
    + specialize (IH (snd (collide_bullet b0 s)) Hin).
      destruct (collide_bullet b0 s) as [b0' s1]. cbn [snd] in IH.
      destruct (collide_loop bl s1) as [bl' s']. cbn [fst] in *.
      apply list_elem_of_further, IH.
Qed.

(** X22.  [Bullet::update] with a frame time that is NaN leaves an active
    bullet with position and distance NaN, still active.  Such a bullet is
    lost for good: whatever the later frame times, it stays as it is, is
    never switched off for its range (NaN is not above [maxDistance]),
    collides with no bubble, and every [update] of the engine keeps it in
    the vector. *)
Theorem nan_frame_time_loses_bullets (deltaTime : float32) (e : PhysicsEngine.t)
    (g : rand_state) (b : Bullet.t) :
  (Bullet.active b = true -> bullet_lost (Bullet.update NaN b)) /\
  (bullet_lost b ->
     bullet_lost (Bullet.update deltaTime b) /\
     (forall bubble, collides b bubble = false) /\
     (b ∈ bullets e ->
        Bullet.update deltaTime b ∈ bullets (fst (update deltaTime e g)))).
Proof.
  split.
  - destruct b as [[[px py] [vx vy] r a] sp m d]. bullet_fields.
    intros ->. rewrite !fmul_nan_r, !fadd_nan_r, fgt_nan_l.
    split; [reflexivity|]. split; reflexivity.
  - intros Hl. pose proof (bullet_lost_update deltaTime b Hl) as Hl'.
    split; [exact Hl'|]. split; [intros bubble; apply bullet_lost_never_collides, Hl|].
    intros Hin. rewrite update_bullets_eq.
    rewrite list_elem_of_In. apply filter_In. split; [|apply Hl'].
    rewrite <- list_elem_of_In. apply collide_loop_keeps.
    + intros bubble. apply bullet_lost_never_collides, Hl'.
    + rewrite list_elem_of_In. apply in_map_iff. exists b.
      split; [|rewrite <- list_elem_of_In; exact Hin].
      unfold update_bullet. destruct Hl as (_ & _ & ->). reflexivity.
Qed.

End NotANumber.

(** ** What [getStats] counts *)

Section Stats.
Context `{Platform}.
Import PhysicsEngine CollisionFacts F32Facts.

Lemma active_inactive_bullets bl :
  (length (List.filter Bullet.active bl) + inactive_bullets bl = length bl)%nat.
Proof.
  unfold inactive_bullets. induction bl as [|b bl IH]; cbn [List.filter length]; [reflexivity|].
  destruct (Bullet.active b); cbn [negb List.filter length]; lia.
Qed.

(** X23.  [getStats] reports the sizes of the vectors, switched-off objects
    included, while the arrays of the renderer leave those out: each count
    is the length of the array plus the number of objects switched off and
    not yet cleaned up (as after a direct call of [checkCollisions]).  The
    other two fields are the counter and the clock as stored. *)
Theorem stats_count_switched_off_objects (e : PhysicsEngine.t) :
  Z.of_nat (length (bubbles e)) <= INT_MAX ->
  Z.of_nat (length (bullets e)) <= INT_MAX ->
  bubblesCount (getStats e) =
    Z.of_nat (length (getBubbleData e)) + Z.of_nat (inactive_bubbles (bubbles e)) /\
  bulletsCount (getStats e) =
    Z.of_nat (length (getBulletData e)) + Z.of_nat (inactive_bullets (bullets e)) /\
  stats_bubblesDestroyed (getStats e) = bubblesDestroyed e /\
  stats_gameTime (getStats e) = gameTime e.
Proof.
  intros Hbs Hbl.
  rewrite getBubbleData_eq, getBulletData_eq, !length_map.
  pose proof (active_inactive_bubbles (bubbles e)) as H1.
  pose proof (active_inactive_bullets (bullets e)) as H2.
  unfold getStats.
  cbn [bubblesCount bulletsCount stats_bubblesDestroyed stats_gameTime].
  rewrite !int_wrap_id by (unfold INT_MAX in *; lia).
  split; [lia|]. split; [lia|]. split; reflexivity.
Qed.

End Stats.

(** ** The theorems at concrete inputs *)

Section Concrete.
Import PhysicsEngine CollisionFacts F32Facts.
#[local] Existing Instance wasm_platform.

Lemma one_pair_objects :
  bullets one_pair = [upward_bullet] /\ bubbles one_pair = [still_bubble] /\
  Bullet.active upward_bullet = true /\ Bubble.active still_bubble = true /\
  collides upward_bullet still_bubble = true.
Proof.
  split; [reflexivity|]. split; [reflexivity|].
  split; [reflexivity|]. split; [reflexivity|]. vm_compute. reflexivity.
Defined.

(** At [one_pair], where the bullet sits on the bubble, the theorem leaves
    one outcome: one collision, one bubble destroyed. *)
Lemma collision_pass_pairs_one_to_one_witness :
  0 <= bubblesDestroyed one_pair /\
  bubblesDestroyed one_pair + Z.of_nat (length (bullets one_pair)) <= INT_MAX /\
  fst (fst (checkCollisions one_pair (constant_rand 7))) = 1 /\
  bubblesDestroyed (snd (fst (checkCollisions one_pair (constant_rand 7)))) = 1 /\
  exists k : nat,
    fst (fst (checkCollisions one_pair (constant_rand 7))) = Z.of_nat k /\
    bubblesDestroyed (snd (fst (checkCollisions one_pair (constant_rand 7)))) =
      bubblesDestroyed one_pair + Z.of_nat k.
Proof.
  assert (H1 : 0 <= bubblesDestroyed one_pair) by (vm_compute; discriminate).
  assert (H2 : bubblesDestroyed one_pair + Z.of_nat (length (bullets one_pair)) <= INT_MAX)
    by (vm_compute; discriminate).
  split; [exact H1|]. split; [exact H2|].
  destruct one_pair_objects as (Hbl & Hbs & Hon & Hbon & Hcol).
  destruct (collision_pass_pairs_one_to_one one_pair (constant_rand 7))
    as (_ & (trace & _ & H0 & Hlast & _ & _ & _ & Hstep) & Hcount).
  assert (Hpair : fst (fst (checkCollisions one_pair (constant_rand 7))) = 1 /\
                  bubblesDestroyed (snd (fst (checkCollisions one_pair (constant_rand 7)))) = 1).
  { rewrite Hbl in Hlast. cbn [length] in Hlast.
    assert (Hb0 : bullets one_pair !! 0%nat = Some upward_bullet)
      by (rewrite Hbl; reflexivity).
    destruct (Hstep 0%nat upward_bullet _ Hb0 H0)
      as (bullet' & s' & _ & Hs' & [(Hoff & _)|[(_ & Hno & _)|(_ & j & b & _ & _ & _ & _ & _ & Hd & Hc & _)]]).
    - rewrite Hon in Hoff. discriminate Hoff.
    - assert (Hj : pass_bubbles (mk_pass (bubbles one_pair) (bubblesDestroyed one_pair) 0
                                   (constant_rand 7)) !! 0%nat = Some still_bubble)
        by (cbn [pass_bubbles]; rewrite Hbs; reflexivity).
      rewrite (Hno 0%nat still_bubble Hj Hbon) in Hcol. discriminate Hcol.
    - assert (Hs : s' = mk_pass (bubbles (snd (fst (checkCollisions one_pair (constant_rand 7)))))
                          (bubblesDestroyed (snd (fst (checkCollisions one_pair (constant_rand 7)))))
                          (fst (fst (checkCollisions one_pair (constant_rand 7))))
                          (snd (checkCollisions one_pair (constant_rand 7))))
        by congruence.
      rewrite Hs in Hd, Hc. cbn [pass_destroyed pass_collisions] in Hd, Hc.
      split; [exact Hc | exact Hd]. }
  split; [apply Hpair|]. split; [apply Hpair|].
  destruct (Hcount H1 H2) as (k & Hc & Hd & _).
  exists k. split; [exact Hc | exact Hd].
Defined.

Lemma collision_pass_leaves_no_overlap_witness :
  bullets (advance frame_016 one_pair) !! 0%nat = Some one_pair_bullet /\
  Bullet.active one_pair_bullet = true /\
  bubbles (advance frame_016 one_pair) !! 0%nat = Some one_pair_bubble /\
  Bubble.active one_pair_bubble = true /\
  fst (update frame_016 one_pair (constant_rand 7)) =
    cleanup (snd (fst (checkCollisions (advance frame_016 one_pair) (constant_rand 7)))).
Proof.
  assert (Hi : bullets (advance frame_016 one_pair) !! 0%nat = Some one_pair_bullet)
    by (vm_compute; reflexivity).
  assert (Ha : Bullet.active one_pair_bullet = true) by (vm_compute; reflexivity).
  assert (Hj : bubbles (advance frame_016 one_pair) !! 0%nat = Some one_pair_bubble)
    by (vm_compute; reflexivity).
  assert (Hb : Bubble.active one_pair_bubble = true) by (vm_compute; reflexivity).
  split; [exact Hi|]. split; [exact Ha|]. split; [exact Hj|]. split; [exact Hb|].
  apply (collision_pass_leaves_no_overlap frame_016 one_pair (constant_rand 7)
           0%nat 0%nat one_pair_bullet one_pair_bubble Hi Ha Hj Hb).
Defined.

Lemma update_without_bullets_keeps_bubbles_witness :
  reachable one_bubble /\ bullets one_bubble = [] /\
  length (bubbles (fst (update frame_016 one_bubble (constant_rand 7)))) =
    length (bubbles one_bubble).
Proof.
  assert (H1 : reachable one_bubble)
    by (exists one_bubble_commands, (constant_rand 7); reflexivity).
  assert (H2 : bullets one_bubble = []) by (vm_compute; reflexivity).
  split; [exact H1|]. split; [exact H2|].
  apply (update_without_bullets_keeps_bubbles one_bubble frame_016 (constant_rand 7) H1 H2).
Defined.

Lemma frame_016_ok : frame_time_ok frame_016.
Proof.
  unfold frame_time_ok.
  split; [apply (proj1 (wfb_iff frame_016)); vm_compute; reflexivity|].
  split; vm_compute; reflexivity.
Defined.




Lemma wasm_RAND_MAX_range : 0 < RAND_MAX <= INT_MAX.
Proof. split; [reflexivity | discriminate]. Defined.

Lemma constant_rand_ok r : 0 <= r <= RAND_MAX -> rand_ok (constant_rand r).
Proof. intros Hr i. exact Hr. Defined.

Lemma seven_in_range : 0 <= 7 <= RAND_MAX.
Proof. split; discriminate. Defined.

(** At [one_pair] with [rand()] returning 7 the theorem leaves one outcome:
    the bubble switched off and its 9 particles after it. *)
Lemma explosion_particles_shape_witness :
  0 < RAND_MAX <= INT_MAX /\ rand_ok (constant_rand 7) /\
  exists particles,
    bubbles (snd (fst (checkCollisions one_pair (constant_rand 7)))) =
      Bubble.set_active false still_bubble :: particles /\
    length particles = 9%nat /\
    Forall (fun p => Bubble.position p = Bubble.position still_bubble /\
                     Bubble.radius p = fmul (Bubble.radius still_bubble) (lit 3 10) /\
                     Bubble.colorIndex p = 4) particles.
Proof.
  split; [exact wasm_RAND_MAX_range|].
  split; [exact (constant_rand_ok 7 seven_in_range)|].
  destruct one_pair_objects as (Hbl & Hbs & Hon & Hbon & Hcol).
  destruct (explosion_particles_shape one_pair (constant_rand 7) wasm_RAND_MAX_range
              (constant_rand_ok 7 seven_in_range))
    as (trace & _ & H0 & (last & Hlast & Hlb & _) & Hstep).
  rewrite Hbl in Hlast. cbn [length] in Hlast.
  assert (Hb0 : bullets one_pair !! 0%nat = Some upward_bullet)
    by (rewrite Hbl; reflexivity).
  assert (Hj : pass_bubbles (mk_pass (bubbles one_pair) (bubblesDestroyed one_pair) 0
                               (constant_rand 7)) !! 0%nat = Some still_bubble)
    by (cbn [pass_bubbles]; rewrite Hbs; reflexivity).
  destruct (Hstep 0%nat upward_bullet _ Hb0 H0)
    as [([Hoff|Hno] & _)|(_ & j & b & particles & s' & Hjb & _ & _ & Hfirst & Hs' & Hbub & _ & _ & Hlen & _ & Hshape)].
  - rewrite Hon in Hoff. discriminate Hoff.
  - rewrite (Hno 0%nat still_bubble Hj Hbon) in Hcol. discriminate Hcol.
  - cbn [pass_bubbles pass_rand] in Hjb, Hbub, Hlen, Hshape, Hfirst.
    assert (Hj0 : j = 0%nat).
    { destruct j as [|j]; [reflexivity|].
      rewrite (Hfirst 0%nat still_bubble ltac:(apply Nat.lt_0_succ) Hj Hbon) in Hcol.
      discriminate Hcol. }
    subst j. rewrite Hbs in Hjb, Hbub. cbn [lookup list_lookup] in Hjb.
    assert (b = still_bubble) by congruence. subst b.
    assert (s' = last) by congruence. subst s'.
    exists particles. rewrite <- Hlb, Hbub.
    split; [reflexivity|].
    split.
    { apply Nat2Z.inj. rewrite Hlen. vm_compute. reflexivity. }
    apply Forall_forall. intros p Hp.
    apply list_elem_of_lookup in Hp as [m Hm].
    destruct (Hshape m p Hm) as (Hpos & Hrad & Hcolor & _).
    split; [exact Hpos|]. split; [exact Hrad | exact Hcolor].
Defined.

Lemma initialize_spawns_bubbles_in_range_witness :
  0 < RAND_MAX <= INT_MAX /\ rand_ok (constant_rand 7) /\ 0 <= 3 /\
  wf (lit 200 1) /\ is_finite (lit 200 1) = true /\ fle (lit 40 1) (lit 200 1) = true /\
  Z.of_nat (length (bubbles (fst (initialize 3 (lit 200 1) one_pair (constant_rand 7))))) = 3 /\
  bullets (fst (initialize 3 (lit 200 1) one_pair (constant_rand 7))) = [].
Proof.
  assert (H3 : 0 <= 3) by discriminate.
  assert (H4 : wf (lit 200 1))
    by (apply (proj1 (wfb_iff (lit 200 1))); vm_compute; reflexivity).
  assert (H5 : is_finite (lit 200 1) = true) by (vm_compute; reflexivity).
  assert (H6 : fle (lit 40 1) (lit 200 1) = true) by (vm_compute; reflexivity).
  split; [exact wasm_RAND_MAX_range|].
  split; [exact (constant_rand_ok 7 seven_in_range)|].
  split; [exact H3|]. split; [exact H4|]. split; [exact H5|]. split; [exact H6|].
  destruct (initialize_spawns_bubbles_in_range 3 (lit 200 1) one_pair (constant_rand 7)
              wasm_RAND_MAX_range (constant_rand_ok 7 seven_in_range) H3 H4 H5 H6)
    as (Hb & _ & _ & Hl & _).
  split; [exact Hl | exact Hb].
Defined.

Lemma predictTrajectory_straight_line_witness :
  cosf (of_int 0) = lit 1 1 /\ sinf (of_int 0) = of_int 0 /\
  length (fst (fst (predictTrajectory (of_int 0) (of_int 0) (of_int 0) (lit 10 1) 5
                      new (constant_rand 7)))) = 5%nat.
Proof.
  assert (H1 : cosf (of_int 0) = lit 1 1) by (vm_compute; reflexivity).
  assert (H2 : sinf (of_int 0) = of_int 0) by (vm_compute; reflexivity).
  split; [exact H1|]. split; [exact H2|].
  apply (predictTrajectory_straight_line (of_int 0) (of_int 0) (of_int 0) (lit 10 1) 5
           new (constant_rand 7) H1 H2).
Defined.

(** C3 as written does not hold: the second point of [predictTrajectory(0,0,0,10,5)]
    has [x = 10 * 0.016f], below 0.166, and not [10 * (1/60)]. *)
Lemma predictTrajectory_step_is_not_a_sixtieth :
  exists p,
    fst (fst (predictTrajectory (of_int 0) (of_int 0) (of_int 0) (lit 10 1) 5
                new (constant_rand 7))) !! 1%nat = Some p /\
    point_x p = fmul (lit 10 1) (lit 16 1000) /\
    point_x p <> fmul (lit 10 1) (fdiv (lit 1 1) (lit 60 1)) /\
    point_x p <> fdiv (lit 10 1) (lit 60 1) /\
    flt (point_x p) (lit 166 1000) = true.
Proof.
  eexists. split; [vm_compute; reflexivity|]. cbn [point_x].
  split; [vm_compute; reflexivity|].
  split; [intro Hc; vm_compute in Hc; discriminate Hc|].
  split; [intro Hc; vm_compute in Hc; discriminate Hc|].
  vm_compute. reflexivity.
Qed.

(** C4 as written does not hold: when [rand()] returns [RAND_MAX] the speed
    of a particle is 5.0, outside the half-open interval. *)
Lemma explosion_speed_reaches_five :
  rand_ok (constant_rand RAND_MAX) /\
  (exists p,
     explosion_particles (of_int 100) (of_int 100) (of_int 10)
       (constant_rand RAND_MAX) !! 0%nat = Some p /\
     Bubble.speed p = lit 5 1 /\
     flt (Bubble.speed p) (lit 5 1) = false) /\
  (exists p,
     bubbles (snd (fst (checkCollisions one_pair (constant_rand RAND_MAX)))) !! 1%nat =
       Some p /\
     Bubble.colorIndex p = 4 /\
     Bubble.speed p = lit 5 1 /\
     flt (Bubble.speed p) (lit 5 1) = false).
Proof.
  split; [intros i; split; discriminate|].
  split.
  - eexists. split; [vm_compute; reflexivity|]. cbn [Bubble.speed].
    split; vm_compute; reflexivity.
  - eexists. split; [vm_compute; reflexivity|]. cbn [Bubble.speed Bubble.colorIndex].
    split; [reflexivity|]. split; vm_compute; reflexivity.
Qed.

(** C9 as written does not hold: when [rand()] returns [RAND_MAX] the bubble
    of [initialize(1, 200)] has radius 20 and speed 2.5; when it returns 0
    the bubble has [y = -radius]; and on a canvas of width 10 the bubble is
    placed left of [radius]. *)
Lemma initialize_reaches_closed_ends :
  rand_ok (constant_rand RAND_MAX) /\ rand_ok (constant_rand 0) /\
  (exists b,
     bubbles (fst (initialize 1 (lit 200 1) new (constant_rand RAND_MAX))) = [b] /\
     Bubble.radius b = lit 20 1 /\ flt (Bubble.radius b) (lit 20 1) = false /\
     Bubble.speed b = lit 25 10 /\ flt (Bubble.speed b) (lit 25 10) = false) /\
  (exists b,
     bubbles (fst (initialize 1 (lit 200 1) new (constant_rand 0))) = [b] /\
     Vector2D.y (Bubble.position b) = fneg (Bubble.radius b) /\
     flt (Vector2D.y (Bubble.position b)) (fneg (Bubble.radius b)) = false) /\
  (exists b,
     bubbles (fst (initialize 1 (lit 10 1) new (constant_rand RAND_MAX))) = [b] /\
     flt (Vector2D.x (Bubble.position b)) (Bubble.radius b) = true).
Proof.
  split; [intros i; split; discriminate|].
  split; [intros i; split; discriminate|].
  split.
  - eexists. split; [vm_compute; reflexivity|].
    cbn [Bubble.radius Bubble.speed Bubble.base GameObject.radius].
    repeat split; vm_compute; reflexivity.
  - split.
    + eexists. split; [vm_compute; reflexivity|].
      cbn [Bubble.radius Bubble.position Bubble.base GameObject.radius GameObject.position
           Vector2D.y].
      split; vm_compute; reflexivity.
    + eexists. split; [vm_compute; reflexivity|].
      cbn [Bubble.radius Bubble.position Bubble.base GameObject.radius GameObject.position
           Vector2D.x].
      vm_compute; reflexivity.
Qed.

End Concrete.

(** ** The further properties at concrete inputs *)

Section ConcreteMore.
Import PhysicsEngine CollisionFacts F32Facts VectorFacts.
#[local] Existing Instance wasm_platform.

Lemma length_is_nan_or_not_negative_witness :
  is_nan (Vector2D.length (Vector2D.mk (of_int 3) (of_int 4))) = false /\
  fle (of_int 0) (Vector2D.length (Vector2D.mk (of_int 3) (of_int 4))) = true.
Proof.
  assert (H1 : is_nan (Vector2D.length (Vector2D.mk (of_int 3) (of_int 4))) = false)
    by (vm_compute; reflexivity).
  split; [exact H1|].
  apply (proj1 (proj2 (length_is_nan_or_not_negative
                         (Vector2D.mk (of_int 3) (of_int 4))
                         (Vector2D.mk (of_int 3) (of_int 4)))) H1).
Defined.

Lemma normalized_degenerate_witness :
  Vector2D.x (Vector2D.mk (Inf false) (of_int 1)) = Inf false /\
  is_nan (Vector2D.y (Vector2D.mk (Inf false) (of_int 1))) = false /\
  Vector2D.x (Vector2D.normalized (Vector2D.mk (Inf false) (of_int 1))) = NaN /\
  Vector2D.y (Vector2D.normalized (Vector2D.mk (of_int 1) (Inf false))) = NaN /\
  Vector2D.x (Vector2D.normalized (Vector2D.mk (of_int 1) (Inf false))) = Fin false 0.
Proof.
  assert (H1 : Vector2D.x (Vector2D.mk (Inf false) (of_int 1)) = Inf false)
    by reflexivity.
  assert (H2 : is_nan (Vector2D.y (Vector2D.mk (Inf false) (of_int 1))) = false)
    by (vm_compute; reflexivity).
  assert (H3 : Vector2D.y (Vector2D.mk (of_int 1) (Inf false)) = Inf false)
    by reflexivity.
  assert (H4 : is_nan (Vector2D.x (Vector2D.mk (of_int 1) (Inf false))) = false)
    by (vm_compute; reflexivity).
  assert (H5 : Vector2D.x (Vector2D.mk (of_int 1) (Inf false)) = Fin false scale)
    by (vm_compute; reflexivity).
  split; [exact H1|]. split; [exact H2|].
  destruct (normalized_degenerate (Vector2D.mk (Inf false) (of_int 1)))
    as (_ & _ & Hinf & _).
  split; [exact (proj1 (proj2 (Hinf false H1 H2)))|].
  destruct (normalized_degenerate (Vector2D.mk (of_int 1) (Inf false)))
    as (_ & _ & _ & Hinfy).
  destruct (Hinfy false H3 H4) as (_ & Hy & Hx).
  split; [exact Hy | exact (Hx false scale H5)].
Defined.

Lemma vector_operators_witness :
  wf (of_int 3) /\ wf (of_int 4) /\
  Vector2D.mul (Vector2D.mk (of_int 3) (of_int 4)) (lit 1 1) =
    Vector2D.mk (of_int 3) (of_int 4).
Proof.
  assert (H1 : wf (of_int 3)) by (apply (proj1 (wfb_iff (of_int 3))); vm_compute; reflexivity).
  assert (H2 : wf (of_int 4)) by (apply (proj1 (wfb_iff (of_int 4))); vm_compute; reflexivity).
  split; [exact H1|]. split; [exact H2|].
  apply (proj2 (proj2 (vector_operators (Vector2D.mk (of_int 3) (of_int 4))
                         (Vector2D.mk (of_int 3) (of_int 4)))) H1 H2).
Defined.

Lemma collision_needs_positive_reach_witness :
  collides level_bullet still_bubble = true /\
  flt (of_int 0) (fadd (Bullet.radius level_bullet) (Bubble.radius still_bubble)) = true.
Proof.
  assert (H1 : collides level_bullet still_bubble = true) by (vm_compute; reflexivity).
  split; [exact H1|].
  apply (proj1 (collision_needs_positive_reach level_bullet still_bubble) H1).
Defined.

Lemma cleanup_keeps_render_data_witness :
  all_active one_pair /\ cleanup one_pair = one_pair.
Proof.
  assert (H1 : all_active one_pair).
  { split; (constructor; [vm_compute; reflexivity | constructor]). }
  split; [exact H1|].
  apply (proj1 (proj2 (proj2 (proj2 (proj2 (proj2
           (cleanup_keeps_render_data (of_int 600) one_pair)))))) H1).
Defined.

Lemma collision_pass_idle_iff_no_overlap_witness :
  Forall (fun b => Bullet.active b = false) (bullets one_bubble) /\
  checkCollisions one_bubble (constant_rand 7) = (0, one_bubble, constant_rand 7).
Proof.
  assert (H1 : Forall (fun b => Bullet.active b = false) (bullets one_bubble))
    by (change (bullets one_bubble) with (@nil Bullet.t); constructor).
  split; [exact H1|].
  apply (proj2 (collision_pass_idle_iff_no_overlap one_bubble (constant_rand 7))).
  left. exact H1.
Defined.

Lemma update_bubble_count_witness :
  rand_ok (constant_rand 7) /\
  rand_ok (snd (update frame_016 one_pair (constant_rand 7))).
Proof.
  split; [exact (constant_rand_ok 7 seven_in_range)|].
  exact (proj1 (update_bubble_count frame_016 one_pair (constant_rand 7)
                  (constant_rand_ok 7 seven_in_range))).
Defined.

Lemma stats_count_render_data_after_update_witness :
  Z.of_nat (length (bubbles (fst (update frame_016 one_bubble (constant_rand 7))))) <= INT_MAX /\
  Z.of_nat (length (bullets (fst (update frame_016 one_bubble (constant_rand 7))))) <= INT_MAX /\
  all_active (fst (update frame_016 one_bubble (constant_rand 7))).
Proof.
  assert (H1 : Z.of_nat (length (bubbles (fst (update frame_016 one_bubble
                                                  (constant_rand 7))))) <= INT_MAX)
    by (vm_compute; discriminate).
  assert (H2 : Z.of_nat (length (bullets (fst (update frame_016 one_bubble
                                                  (constant_rand 7))))) <= INT_MAX)
    by (vm_compute; discriminate).
  split; [exact H1|]. split; [exact H2|].
  exact (proj1 (stats_count_render_data_after_update frame_016 one_bubble
                  (constant_rand 7) H1 H2)).
Defined.

Lemma initialize_forgets_all_but_multiplier_witness :
  3 <= INT_MAX /\
  length (getBubbleData (fst (initialize 3 (lit 200 1) one_pair (constant_rand 7)))) = 3%nat /\
  getBulletData (fst (initialize 3 (lit 200 1) one_pair (constant_rand 7))) = [].
Proof.
  assert (H1 : 3 <= INT_MAX) by discriminate.
  split; [exact H1|].
  destruct (initialize_forgets_all_but_multiplier 3 (lit 200 1) one_pair (constant_rand 7) H1)
    as (_ & Hl & Hb & _).
  split; [exact Hl | exact Hb].
Defined.

Lemma initialize_starts_above_canvas_witness :
  0 < RAND_MAX <= INT_MAX /\ rand_ok (constant_rand 7) /\
  wf (lit 600 1) /\ fle (of_int 10) (lit 600 1) = true /\
  hasBubbleReachedBottom (lit 600 1)
    (fst (initialize 3 (lit 200 1) one_pair (constant_rand 7))) = false.
Proof.
  assert (H1 : wf (lit 600 1))
    by (apply (proj1 (wfb_iff (lit 600 1))); vm_compute; reflexivity).
  assert (H2 : fle (of_int 10) (lit 600 1) = true) by (vm_compute; reflexivity).
  split; [exact wasm_RAND_MAX_range|].
  split; [exact (constant_rand_ok 7 seven_in_range)|].
  split; [exact H1|]. split; [exact H2|].
  exact (proj1 (proj2 (initialize_starts_above_canvas 3 (lit 200 1) (lit 600 1) one_pair
                         (constant_rand 7) wasm_RAND_MAX_range
                         (constant_rand_ok 7 seven_in_range) H1 H2))).
Defined.

Lemma reachable_objects_keep_constructor_values_witness :
  reachable one_bubble /\
  Forall (fun b => Bubble.isSpecial b = false) (bubbles one_bubble).
Proof.
  assert (H1 : reachable one_bubble)
    by (exists one_bubble_commands, (constant_rand 7); reflexivity).
  split; [exact H1|].
  exact (proj2 (reachable_objects_keep_constructor_values one_bubble H1)).
Defined.

Lemma speed_multipliers_accumulate_witness :
  Forall (fun b => wf (Bubble.speed b) /\
                   Vector2D.y (Bubble.velocity b) = Bubble.speed b) (bubbles one_bubble) /\
  bubbles (setSpeedMultiplier (lit 1 1) one_bubble) = bubbles one_bubble.
Proof.
  assert (H1 : Forall (fun b => wf (Bubble.speed b) /\
                   Vector2D.y (Bubble.velocity b) = Bubble.speed b) (bubbles one_bubble)).
  { change (bubbles one_bubble) with [still_bubble].
    constructor; [|constructor].
    split; [|reflexivity].
    apply (proj1 (wfb_iff (Bubble.speed still_bubble))). vm_compute. reflexivity. }
  split; [exact H1|].
  apply (proj2 (proj2 (speed_multipliers_accumulate (lit 1 1) (lit 1 1) one_bubble)) H1).
Defined.

Lemma still_bubble_falls_ok :
  nonneg (Bubble.speed still_bubble) /\ is_finite (Bubble.speed still_bubble) = true /\
  wf (Vector2D.y (Bubble.velocity still_bubble)) /\
  is_finite (Vector2D.y (Bubble.velocity still_bubble)) = true.
Proof.
  change (Vector2D.y (Bubble.velocity still_bubble)) with (of_int 1).
  change (Bubble.speed still_bubble) with (of_int 1).
  assert (E : of_int 1 = Fin false scale) by (vm_compute; reflexivity).
  rewrite E. split; [split; [discriminate | discriminate 1]|].
  split; [reflexivity|]. split; [|reflexivity].
  apply (proj1 (wfb_iff (Fin false scale))). vm_compute. reflexivity.
Defined.

Lemma bubble_update_falls_witness :
  frame_time_ok frame_016 /\
  nonneg (Bubble.speed still_bubble) /\ is_finite (Bubble.speed still_bubble) = true /\
  wf (Vector2D.y (Bubble.velocity still_bubble)) /\
  is_finite (Vector2D.y (Bubble.velocity still_bubble)) = true /\
  fle (Vector2D.y (Bubble.velocity still_bubble))
      (Vector2D.y (Bubble.velocity (Bubble.update frame_016 still_bubble))) = true.
Proof.
  destruct still_bubble_falls_ok as (H1 & H2 & H3 & H4).
  split; [exact frame_016_ok|].
  split; [exact H1|]. split; [exact H2|]. split; [exact H3|]. split; [exact H4|].
  exact (proj1 (bubble_update_falls frame_016 still_bubble frame_016_ok H1 H2 H3 H4)).
Defined.

Lemma predictTrajectory_follows_bullet_witness :
  Z.of_nat 2 < 5 /\
  fst (fst (predictTrajectory (of_int 100) (of_int 100) (of_int 0) Bullet.default_speed 5
              new (constant_rand 7))) !! 2%nat =
    Some (point_of (Bullet.position (flight (lit 16 1000) 2 level_bullet))).
Proof.
  assert (H1 : Z.of_nat 2 < 5) by reflexivity.
  split; [exact H1|].
  exact (proj1 (predictTrajectory_follows_bullet (of_int 100) (of_int 100) (of_int 0)
                  Bullet.default_speed 5 new (constant_rand 7) 2 H1)).
Defined.

Lemma nan_frame_time_loses_bullets_witness :
  Bullet.active level_bullet = true /\
  bullet_lost (Bullet.update NaN level_bullet).
Proof.
  assert (H1 : Bullet.active level_bullet = true) by (vm_compute; reflexivity).
  split; [exact H1|].
  exact (proj1 (nan_frame_time_loses_bullets frame_016 new (constant_rand 7) level_bullet) H1).
Defined.

Lemma stats_count_switched_off_objects_witness :
  Z.of_nat (length (bubbles one_pair)) <= INT_MAX /\
  Z.of_nat (length (bullets one_pair)) <= INT_MAX /\
  bubblesCount (getStats one_pair) =
    Z.of_nat (length (getBubbleData one_pair)) +
    Z.of_nat (inactive_bubbles (bubbles one_pair)).
Proof.
  assert (H1 : Z.of_nat (length (bubbles one_pair)) <= INT_MAX)
    by (vm_compute; discriminate).
  assert (H2 : Z.of_nat (length (bullets one_pair)) <= INT_MAX)
    by (vm_compute; discriminate).
  split; [exact H1|]. split; [exact H2|].
  exact (proj1 (stats_count_switched_off_objects one_pair H1 H2)).
Defined.

End ConcreteMore.
